(* ===== verification/_CoqProject ===== *)
-Q . S2P
Prelude.v
Triple.v
Code.v
Machine.v
Vector.v
Pivot.v
BoundBox.v
Mesh.v
PolySoup.v
Scene.v
SceneRules.v
Script.v
Conserve.v
Again.v
Weld.v
Components.v
Invariants.v
Float32.v
Shift32.v
Overflow.v
Calls.v
Order.v
Modes.v
