(* ===== verification/Prelude.v ===== *)
(** * A verification development for [grid_cut_blender.py]

    ** The program

    [src/grid cutting tools/grid_cut_blender.py] is a script for a 3D
    modelling host.  It cuts the active mesh object along the planes
    [x = i], [y = i] and [z = i] for every [i] of a range, separates the
    result into one object per loose part, and moves the pivot (the local
    origin) of every selected object to the floor of the centre of its
    bounding box.  The script has eight functions and one call at module
    level:

    - [select(ob)] makes [ob] the only selected object and the active one;
    - [perform_cuts(target, _range, dir)] bisects the mesh under edit by
      the plane through [dir * i] with normal [dir] and splits the edges
      on the cut, for each [i] of [_range];
    - [cut(_range)] enters edit mode, runs [perform_cuts] along the three
      axes, separates the mesh by loose parts and returns to object mode;
    - [floor(vec)], [get_center(bbox)] and [get_index(target)] compute the
      grid index of an object from the eight corners of its bounding box;
    - [fix_pivots()] moves the pivot of every selected object to its index
      and then assigns the saved list to [bpy.context.selected_objects];
    - [grid_cut(_range)] applies the transforms, cuts and fixes the pivots;
    - the last line calls [grid_cut(range(0,10,1))].

    Everything else is the host: the scene with its objects, selection and
    mode ([bpy]), the vectors ([mathutils]) and the mesh kernel ([bmesh]).

    ** The files

    - [Prelude] (this file): the outcome monad in which the script runs
      ([prog], with [bind], [throw] and [for_each]; an exception keeps the
      state reached so far), its laws, and the lemmas on lists and on
      rational floors that the other files share.
    - [Triple]: pre- and postconditions for programs of that monad, with
      the rules for sequencing and loops, and [invariant] for what holds
      on every path.
    - [Code]: a procedure as a tree of calls on a host ([code], with
      [Ret], [Call] and the loop [cfor]), what it computes ([denote]), the
      calls it makes ([trace]), and the predicates [follows] (the calls
      are a given sequence) and [calls_ok] (every call meets a condition
      on the state it is made in).
    - [Machine]: the execution of such a tree one call at a time: the
      relation [step], its function [next], [run] with fuel, and
      [eventually] for what every run reaches.
    - [Vector]: [mathutils.Vector] and the integer 3-tuples of the script,
      with the equivalence [≡] of vectors that denote the same point.
    - [Pivot]: [floor] and [get_center], translated from lines 31 to 39.
    - [BoundBox]: the host's [Object.bound_box], the eight corners of the
      axis-aligned box around the vertices, and the index of a mesh that
      a grid confines.
    - [Mesh]: the interface of the mesh kernel.  [BMeshOps] names the
      operations the script calls, [cut_plane] and [cut_planes] are the
      calls of lines 13 and 14 on a mesh value, [BMeshLaws] states what
      the theorems about the script assume of the kernel, and
      [cuts_separate] what some of them assume of the mesh.
    - [PolySoup]: a kernel on polygon soups, with the proof that it
      satisfies [BMeshLaws] and separates every mesh ([BMeshSeparates]).
      It makes the assumptions of [Mesh] satisfiable and the script
      executable inside Rocq.  Its faces hang together through shared
      edges.
    - [Scene]: the state of the host ([Scene], [Object]) and each host call
      of the script as a program on it, with the failures the host
      documents.
    - [SceneRules]: which host calls only read, and what the others keep.
    - [Script]: one definition per function of the script ([select],
      [perform_cuts] with the loop body [perform_cut], [cut], [get_index],
      [fix_pivots] with the loop body [fix_pivot], [grid_cut], [main]),
      the scenes they leave ([selected_only], [cut_objects], [fixed_pivot],
      [after_pivots]) and the theorems on the paths where they succeed or
      fail at a known call.
    - [Conserve]: the pieces of [grid_cut] hold every vertex of the object
      and otherwise only points on the planes of the grid.
    - [Again]: [fix_pivots] applied to the scene it has left.
    - [Weld]: the kernel of [PolySoup] with faces that hang together
      through shared vertices as well, as in the host; it satisfies
      [BMeshLaws], and the file says which meshes its cuts separate.
    - [Components]: chains of joined faces ([linked], [connected]) and
      the proof that the loose parts of both kernels are the connected
      components of the faces.
    - [Invariants]: what [grid_cut] keeps however it ends.
    - [Float32]: [floor], [get_center] and [get_index] in the binary32
      arithmetic of the host, on rationals rounded to the format.
    - [Shift32]: lines 50 to 52 in that arithmetic ([vsub32],
      [fixed_pivot32]), for a target whose rotation and scale are the
      identity.
    - [Overflow]: the floats of the host with their largest number,
      infinities and NaN ([f32]); [get_center], [floor] with the
      exceptions of [math.floor], [get_index] and [fix_pivots] on them
      ([get_center_ieee] to [fix_pivots_ieee]).
    - [Calls]: the calls of the script on the host ([call]), what each
      returns and does ([host_answers], [host_performs]), and the
      functions of the script once more, as trees of these calls
      ([select_code] to [grid_cut_code]).
    - [Order]: the sequence of calls of each function ([cut_tags],
      [fix_pivots_tags], [grid_cut_tags]) and the runs of [grid_cut_code]
      on the machine.
    - [Modes]: the interaction mode each call needs ([needs]) and the
      proof that the script makes every call in that mode.

    ** How the model follows the code

    A host call is a function from the scene to an [outcome]: [Done] with
    a result and the new scene, or [Raise] with a Python exception and the
    scene at that point.  The script's statements are composed with [bind]
    in the order of the source, and its [for] loops are [for_each] over
    the list the loop runs through.  Objects are named by their position
    in the scene's object list.  A [bmesh] obtained by [from_edit_mesh] is
    the mesh of its object and not a copy, so it is named by the object as
    well: [perform_cuts] writes to the scene, and [perform_cuts_refines]
    relates that to the fold [cut_planes] on a mesh value.

    The script is read a second time in [Calls], as a tree with one node
    per host call in the order of the statements: [Script] says what a
    function computes, [Calls] which calls it makes and in which order.
    Every tree denotes the function of [Script] of the same name
    ([select_code_denote] to [grid_cut_code_run]), so the two readings
    cannot drift apart.  The machine of [Machine] makes one call per step
    and keeps the calls made so far in a log; an exception unwinds the
    rest of the tree in one step, as the script has no [try].

    Coordinates are exact rationals ([Q], compared with [==]); rotation
    and scale of an object are one 3 by 3 matrix.  A binary32 number is a
    rational [m * 2^e] with [|m| < 2^24] and [e >= -149], and a binary32
    operation is the exact operation followed by [round32].  [Overflow]
    adds what the rationals do not have: a result beyond the largest
    number is an infinity ([fround]), and [math.floor] raises on it.
    [range(0,10,1)] is computed by [Script.range].

    ** What the theorems show

    - [Pivot], [BoundBox]: [get_center] is one eighth of the sum of the
      corners and so the midpoint of a bounding box; [floor] selects the
      unit cell; a mesh between two neighbouring planes of the grid has
      the lower one as index, and conversely.
    - [Script]: [select] isolates its argument; [perform_cuts] implements
      [cut_planes] and leaves no loose part across a plane of its range;
      [cut] confines every piece by the grid and leaves the other objects
      alone; [fix_pivots] puts the location of each target on the floor of
      its bounding-box centre without moving it in the world, which is
      the lower corner of the cell of the centre and the centre itself
      only when its coordinates are integers ([fix_pivots_corner]);
      [grid_cut]
      leaves every piece with identity rotation and scale, its location on
      its index and, between two neighbouring planes of the range, inside
      the unit cell of that index.  The error paths: no active object, an
      active object without a mesh, nothing selected, a call in edit mode.
    - [Script.fix_pivots_raises], [Script.grid_cut_ends_raising]: the
      assignment of line 54 always raises, so the script ends with an
      exception after its work is done.
    - [Script.grid_cut_active_not_selected]: the result depends on the
      active object being selected.
    - [Conserve]: no vertex is lost and only cut points are added.
    - [Invariants]: on every path the scene stays well formed, no object
      is removed and objects that are neither selected nor active are not
      changed.
    - [PolySoup]: the reference kernel separates and stays inside the mesh.
    - [Weld]: with vertex contacts the cuts keep and add vertices as the
      laws say, and separate the mesh along their planes exactly when
      none of them meets a pinch ([weld_cuts_separate]); then the pieces
      of [grid_cut] are confined by the grid ([weld_grid_cut_pieces]).
      On two triangles that meet in a vertex on the plane x = 1 the
      script leaves one piece across two cells ([main_bowtie]).
    - [Components]: the groups that the kernels make of the faces of a
      mesh are the classes of [connected] ([group_faces_components]); so
      after a cut of the script two faces are in one loose part exactly
      when they come from one part of the mesh before the cut and a
      chain of its faces that still hang together leads from one to the
      other ([cut_plane_components], [weld_cut_plane_components]).  The
      statement is about one cut, on any mesh: a cut never joins parts,
      so it applies to each cut of the loops in turn.
    - [Order]: the machine is deterministic and stops, from every scene,
      in the one configuration that holds the outcome of [grid_cut]
      ([grid_cut_machine]); no run is longer than
      [10 + 9 * |range| + 8 * n] steps, with [n] the number of objects at
      the end, and [run] with that much fuel returns the outcome
      ([grid_cut_terminates]); the calls of every run are a prefix of
      [grid_cut_tags] ([grid_cut_call_order]); on an active selected mesh
      every run reaches the assignment of line 54 with all the calls
      before it made ([grid_cut_reaches_assignment]); every configuration
      of a run has a well-formed scene that has lost no object
      ([grid_cut_run_keeps_scene]).
    - [Modes]: started in object mode, the script makes the calls that
      need object mode in object mode and the calls on the mesh under
      edit in edit mode.
    - [Again]: a second run of [fix_pivots] moves the pivot of a piece
      from its cell back to the origin of the world; the object stays
      where it is.
    - [Float32]: the centre computed in binary32 is within
      [6 * 2^-24 * M + 3 * 2^-150] of the exact one for coordinates of
      size at most [M]; the index is the same unless the exact centre is
      that close to a plane of the grid, and always for a piece that fills
      its cell up to [2^20] from the origin; it can differ for a sliver
      next to a plane ([get_index32_sliver]).
    - [Shift32]: subtracting an integer [n] from a number of the format
      between [n] and [n + 1] is exact when the number is at least one in
      size ([representable_shift]); so lines 50 to 52 move no vertex of
      such a piece ([fixed_pivot32_exact]).  A vertex closer to zero than
      that can be moved onto a plane of the grid ([fixed_pivot32_moves]).
    - [Overflow]: rounding does not pass a number of the format
      ([Float32.round32_bounded]), so for vertices up to [2^124] from the
      origin no operation of [get_index] overflows and the arithmetic of
      [Float32] is that of the host ([get_index_ieee_agrees]).  Beyond
      that the sum of the corners can be infinite although the centre is
      not ([far_square_overflows]); [get_index] then raises
      [OverflowError], never [ValueError] ([get_index_ieee_raises]), and
      [fix_pivots] ends at that target ([fix_pivots_ieee_overflow]).

    ** Assumptions about the host

    They are read from the host's documentation and from section 7 of the
    specification; the host's code is not part of the repository.
    - Members of [bpy.context] are read-only: assigning to
      [selected_objects] raises [AttributeError].
    - [transform_apply] and [select_all] need object mode, and
      [transform_apply] needs a selected object; they raise [RuntimeError]
      otherwise.  [transform_apply] works on the selected objects and
      skips those without mesh data.
    - [mode_set] needs an active object.  An object without mesh data
      stands for an object of another type that has an edit mode, on
      which [from_edit_mesh] raises [TypeError].
    - Only the active object is in edit mode.
    - [separate(type='LOOSE')] leaves the last loose part in the object
      under edit and makes one new selected object for each other part,
      with the transform of the original, appended to the scene.
    - [bound_box] is the box around the local coordinates; a mesh without
      vertices has the box from -1 to 1.
    - Of the kernel, the theorems assume [BMeshLaws]: each part after a
      cut comes from a part before it and stays in the half-spaces that
      held it, no vertex is removed, and added vertices are on the plane.
      Both kernels of the development satisfy them.
    - That after a cut no loose part has vertices strictly on both sides
      of the plane is a hypothesis of the theorems that need it
      ([cuts_separate], in [grid_cut_pieces], [grid_cut_cells],
      [cut_confines] and [perform_cuts_separates]).  It holds for every
      mesh on the kernel of [PolySoup], and on the kernel of [Weld] for
      the meshes without a pinch on a plane of the grid, where it can be
      decided ([no_pinches]).

    ** Not modelled

    - Binary32 arithmetic outside the index and the pivot shift:
      [Float32] rounds the operations of [get_center] and [floor],
      [Shift32] those of lines 50 to 52 on a target without rotation and
      scale; [transform_apply] with a rotation or a scale (line 57) and
      the kernel of [PolySoup] compute exactly, as the order in which the
      host rounds a matrix product is not documented.  Overflow is
      modelled for the index ([Overflow]) and not for lines 50 to 52,
      where the numbers are those of the index and of a vertex and the
      theorem of [Shift32] bounds them by [2^24].  The two zeros of the
      format are one number: the script cannot tell them apart.
    - The tolerance [dist] of [bisect_plane], and the identity of
      vertices: in [PolySoup] and [Weld] a vertex is its position within
      a part, so two vertices of a part at one position are one vertex.
      A split is kept as the division into parts only: two faces that
      stay in one part count as joined again, at the next cut, through
      an edge that an earlier cut has split.  [Components] therefore
      states the connected components cut by cut and not once for the
      whole grid.
    - Lines 1 to 4 (imports) and line 20 (a list that is never used).
    - Line 61 as a tree of calls: [range] is evaluated by Python before
      [grid_cut] is entered and is no call on the host, so [Calls] ends
      with [grid_cut_code] and [Script.main] models the line.
    - Undo, collections, view layers, modifiers, and every part of the host
      the script does not touch.

    ** Fuel

    The functions of [Script] and [Calls] use no fuel: every loop of the
    script runs over a finite list, and the model is total.  Only
    [Machine.run] takes fuel, one unit per host call.  By
    [Order.grid_cut_terminates], [10 + 9 * |range| + 8 * n] units are
    enough for [grid_cut], with [n] the number of objects of the scene at
    the end: ten calls outside the loops, nine per plane of the range
    (three per axis) and eight per target of [fix_pivots]. *)

From Stdlib Require Export QArith Qround Lqa Psatz ZArith Lia Morphisms Setoid.
From stdpp Require Export base tactics option list.

(** ** Outcomes: results that keep the state an exception leaves behind *)

Inductive outcome (E S A : Type) : Type :=
| Done (a : A) (s : S)
| Raise (e : E) (s : S).
Arguments Done {E S A} a s.
Arguments Raise {E S A} e s.

Definition final_state {E S A} (o : outcome E S A) : S :=
  match o with Done _ s => s | Raise _ s => s end.

Definition raised {E S A} (o : outcome E S A) : option E :=
  match o with Done _ _ => None | Raise e _ => Some e end.

Definition prog (E S A : Type) : Type := S -> outcome E S A.

Definition pure {E S A} (a : A) : prog E S A := fun s => Done a s.

Definition throw {E S A} (e : E) : prog E S A := fun s => Raise e s.

Definition bind {E S A B} (c : prog E S A) (k : A -> prog E S B) : prog E S B :=
  fun s => match c s with
           | Done a s' => k a s'
           | Raise e s' => Raise e s'
           end.

Definition get_state {E S} : prog E S S := fun s => Done s s.

Definition modify_state {E S} (f : S -> S) : prog E S unit := fun s => Done tt (f s).

Fixpoint for_each {E S A} (l : list A) (body : A -> prog E S unit) : prog E S unit :=
  match l with
  | [] => pure tt
  | a :: l' => bind (body a) (fun _ => for_each l' body)
  end.

Declare Scope prog_scope.
Delimit Scope prog_scope with prog.
Notation "x <- c ;; k" := (bind c (fun x => k))
  (at level 100, c at next level, right associativity) : prog_scope.
Notation "c ;; k" := (bind c (fun _ => k))
  (at level 100, right associativity) : prog_scope.

Create HintDb grid discriminated.
Create Rewrite HintDb vec.

(** ** Laws of the outcome monad *)

Section ProgLaws.
Context {E S : Type}.

Lemma bind_pure_l {A B} (a : A) (k : A -> prog E S B) s :
  bind (pure a) k s = k a s.
Proof. reflexivity. Qed.

Lemma bind_assoc {A B C} (c : prog E S A) (k : A -> prog E S B)
    (h : B -> prog E S C) s :
  bind (bind c k) h s = bind c (fun a => bind (k a) h) s.
Proof. unfold bind. by destruct (c s). Qed.

Lemma bind_done {A B} (c : prog E S A) (k : A -> prog E S B) s a s' :
  c s = Done a s' -> bind c k s = k a s'.
Proof. unfold bind. by intros ->. Qed.

Lemma bind_raise {A B} (c : prog E S A) (k : A -> prog E S B) s e s' :
  c s = Raise e s' -> bind c k s = Raise e s'.
Proof. unfold bind. by intros ->. Qed.

Lemma bind_pure_r {A} (c : prog E S A) s : bind c pure s = c s.
Proof. unfold bind. by destruct (c s). Qed.

Lemma bind_ext {A B} (c : prog E S A) (k k' : A -> prog E S B) s :
  (forall a s', k a s' = k' a s') -> bind c k s = bind c k' s.
Proof. intros H. unfold bind. by destruct (c s). Qed.

Lemma bind_cong {A B} (c c' : prog E S A) (k k' : A -> prog E S B) s :
  c s = c' s -> (forall a s', k a s' = k' a s') -> bind c k s = bind c' k' s.
Proof. intros Hc Hk. unfold bind. rewrite Hc. by destruct (c' s). Qed.

Lemma for_each_ext {A} (l : list A) (body body' : A -> prog E S unit) s :
  (forall a s', body a s' = body' a s') -> for_each l body s = for_each l body' s.
Proof.
  intros H. revert s. induction l as [|a l IH]; intros s; [done|].
  cbn [for_each]. rewrite (bind_ext _ _ (fun _ => for_each l body') s) by done.
  unfold bind. by rewrite H.
Qed.

Lemma for_each_app {A} (l1 l2 : list A) (body : A -> prog E S unit) s :
  for_each (l1 ++ l2) body s
  = bind (for_each l1 body) (fun _ => for_each l2 body) s.
Proof.
  revert s. induction l1 as [|a l1 IH]; intros s; simpl; [done|].
  unfold bind in *. destruct (body a s) as [[] s'|e s']; [apply IH|done].
Qed.
End ProgLaws.

(** ** Lists *)

Lemma Forall_filter_keep {A} (P Q : A -> Prop) `{!forall x, Decision (Q x)}
    (l : list A) :
  Forall P l -> Forall P (filter Q l).
Proof.
  rewrite !Forall_forall. intros HP x [_ Hx]%list_elem_of_filter. by apply HP.
Qed.

Lemma Forall_filter_holds {A} (Q : A -> Prop) `{!forall x, Decision (Q x)}
    (l : list A) :
  Forall Q (filter Q l).
Proof. apply Forall_forall. by intros x [? _]%list_elem_of_filter. Qed.

Lemma fmap_join {A B} (f : A -> B) (ls : list (list A)) :
  f <$> mjoin ls = mjoin (fmap f <$> ls).
Proof.
  induction ls as [|l ls IH]; [done|]. cbn [mjoin list_join fmap list_fmap].
  change (f <$> l ++ mjoin ls = (f <$> l) ++ mjoin (fmap f <$> ls)).
  by rewrite fmap_app, IH.
Qed.

Lemma Forall_join_iff {A} (P : A -> Prop) (ls : list (list A)) :
  Forall P (mjoin ls) <-> Forall (Forall P) ls.
Proof.
  rewrite !Forall_forall. setoid_rewrite Forall_forall.
  setoid_rewrite list_elem_of_join. split.
  - intros H l Hl x Hx. apply H. eauto.
  - intros H x (l & Hx & Hl). by apply (H l).
Qed.

Lemma fmap_prefix {A B} (f : A -> B) (l k : list A) :
  l `prefix_of` k -> f <$> l `prefix_of` f <$> k.
Proof. intros [t ->]. exists (f <$> t). apply fmap_app. Qed.

Lemma insert_as_alter {A} (f : A -> A) (l : list A) (i : nat) (x : A) :
  l !! i = Some x -> <[i := f x]> l = alter f i l.
Proof.
  revert i. induction l as [|y l IH]; intros [|i] Hi; simplify_eq/=; [done|].
  f_equal. by apply IH.
Qed.

Lemma NoDup_only {A} (l : list A) (a : A) :
  NoDup l -> (forall x, x ∈ l <-> x = a) -> l = [a].
Proof.
  intros Hnd Hl. destruct l as [|x [|y l]].
  - pose proof (proj2 (Hl a) eq_refl) as Ha. by apply elem_of_nil in Ha.
  - f_equal. apply Hl. left.
  - assert (x = a) as -> by (apply Hl; left).
    assert (y = a) as -> by (apply Hl; right; left).
    apply NoDup_cons_1_1 in Hnd. destruct Hnd. left.
Qed.

Lemma existsb_elem_of {A} (f : A -> bool) (l : list A) :
  existsb f l = true <-> exists x, x ∈ l /\ f x = true.
Proof.
  rewrite existsb_exists. by setoid_rewrite list_elem_of_In.
Qed.

Lemma elem_of_bool_filter {A} (f : A -> bool) (l : list A) (x : A) :
  x ∈ List.filter f l <-> x ∈ l /\ f x = true.
Proof. by rewrite !list_elem_of_In, filter_In. Qed.

(** ** Rational arithmetic: floors and integer injections *)

Local Open Scope Q_scope.

Lemma inject_Z_minus (a b : Z) : inject_Z (a - b) = inject_Z a - inject_Z b.
Proof. unfold Z.sub. by rewrite inject_Z_plus, inject_Z_opp. Qed.

(** [push_inject] moves [inject_Z] inwards to the variables, so that [lra]
    sees a linear problem over the injected integers. *)
Ltac push_inject :=
  repeat match goal with
  | H : context [inject_Z (_ + _)] |- _ => rewrite inject_Z_plus in H
  | H : context [inject_Z (_ - _)] |- _ => rewrite inject_Z_minus in H
  | H : context [inject_Z (- _)] |- _ => rewrite inject_Z_opp in H
  | |- context [inject_Z (_ + _)] => rewrite inject_Z_plus
  | |- context [inject_Z (_ - _)] => rewrite inject_Z_minus
  | |- context [inject_Z (- _)] => rewrite inject_Z_opp
  end;
  change (inject_Z 1) with 1 in *; change (inject_Z 0) with 0 in *.

(** [qlra] is [lra] after the integer injections are pushed inwards. *)
Ltac qlra := push_inject; lra.

Lemma Qfloor_unique (x : Q) (k : Z) :
  inject_Z k <= x -> x < inject_Z (k + 1) -> Qfloor x = k.
Proof.
  intros H1 H2.
  pose proof (Qfloor_le x). pose proof (Qlt_floor x).
  assert (inject_Z k < inject_Z (Qfloor x + 1)) by lra.
  assert (inject_Z (Qfloor x) < inject_Z (k + 1)) by lra.
  rewrite <- Zlt_Qlt in *. lia.
Qed.

Lemma Qfloor_add_Z (x : Q) (k : Z) : Qfloor (x + inject_Z k) = (Qfloor x + k)%Z.
Proof.
  pose proof (Qfloor_le x). pose proof (Qlt_floor x).
  apply Qfloor_unique; qlra.
Qed.

Lemma Qfloor_sub_Z (x : Q) (k : Z) : Qfloor (x - inject_Z k) = (Qfloor x - k)%Z.
Proof.
  replace (Qfloor x - k)%Z with (Qfloor x + - k)%Z by lia.
  rewrite <- Qfloor_add_Z. apply Qfloor_comp.
  qlra.
Qed.

Lemma Qfloor_frac (x : Q) : 0 <= x - inject_Z (Qfloor x) < 1.
Proof.
  pose proof (Qfloor_le x). pose proof (Qlt_floor x). qlra.
Qed.
