(* ===== verification/Triple.v ===== *)
(** * Triple: pre- and postconditions for programs that may raise

    A program of [Prelude.prog] ends in [Done] or in [Raise], and in both
    cases it leaves a state.  A triple says what holds of the result and
    the state on the first path and of the exception and the state on the
    second.  The rules follow the structure of a program ([pure], [throw],
    [bind], [for_each]); [invariant] is the triple of a property of the
    state that survives every path, which is how the facts about the script
    that do not depend on its success are stated. *)

From S2P Require Import Prelude.

Section Triple.
Context {E S : Type}.
Implicit Types (P I : S -> Prop) (X : E -> S -> Prop).

(** What an outcome satisfies, by the way the program ended. *)
Definition holds {A} (Q : A -> S -> Prop) X (o : outcome E S A) : Prop :=
  match o with
  | Done a s => Q a s
  | Raise e s => X e s
  end.

Definition triple {A} P (c : prog E S A) (Q : A -> S -> Prop) X : Prop :=
  forall s, P s -> holds Q X (c s).

(** A property of the state that the program keeps, whether it returns or
    raises. *)
Definition invariant {A} I (c : prog E S A) : Prop :=
  triple I c (fun _ => I) (fun _ => I).

(** A program that leaves the state as it found it. *)
Definition reads {A} (c : prog E S A) : Prop :=
  forall s, final_state (c s) = s.

(** ** Rules *)

Lemma holds_final {A} (Q : A -> S -> Prop) X I (o : outcome E S A) :
  holds Q X o -> (forall a s, Q a s -> I s) -> (forall e s, X e s -> I s) ->
  I (final_state o).
Proof. destruct o; cbn; eauto. Qed.

Lemma triple_conseq {A} P P' (c : prog E S A) (Q Q' : A -> S -> Prop) X X' :
  triple P' c Q' X' ->
  (forall s, P s -> P' s) -> (forall a s, Q' a s -> Q a s) ->
  (forall e s, X' e s -> X e s) ->
  triple P c Q X.
Proof.
  intros Hc HP HQ HX s Hs. specialize (Hc s (HP s Hs)).
  destruct (c s); cbn in *; eauto.
Qed.

Lemma triple_pure {A} P (a : A) (Q : A -> S -> Prop) X :
  (forall s, P s -> Q a s) -> triple P (pure a) Q X.
Proof. intros H s Hs. by apply H. Qed.

Lemma triple_throw {A} P (e : E) (Q : A -> S -> Prop) X :
  (forall s, P s -> X e s) -> triple P (throw e : prog E S A) Q X.
Proof. intros H s Hs. by apply H. Qed.

Lemma triple_bind {A B} P (c : prog E S A) (k : A -> prog E S B)
    (Q : A -> S -> Prop) (R : B -> S -> Prop) X :
  triple P c Q X -> (forall a, triple (Q a) (k a) R X) ->
  triple P (bind c k) R X.
Proof.
  intros Hc Hk s Hs. specialize (Hc s Hs). unfold bind.
  destruct (c s) as [a s'|e s']; cbn in *; [by apply Hk | done].
Qed.

(** The loop rule: an invariant of every turn is an invariant of the
    loop. *)
Lemma triple_for_each {A} I (l : list A) (body : A -> prog E S unit) X :
  (forall a, a ∈ l -> triple I (body a) (fun _ => I) X) ->
  triple I (for_each l body) (fun _ => I) X.
Proof.
  induction l as [|a l IH]; intros Hbody; cbn [for_each].
  - by apply triple_pure.
  - eapply triple_bind; [apply Hbody; left|]. intros ?. apply IH.
    intros b Hb. apply Hbody. by right.
Qed.

(** A result that is known apart from the state: the continuation is
    verified under what is known. *)
Lemma triple_bind_pure {A B} I (c : prog E S A) (k : A -> prog E S B)
    (phi : A -> Prop) (R : B -> S -> Prop) X :
  triple I c (fun a s => I s /\ phi a) X ->
  (forall a, phi a -> triple I (k a) R X) ->
  triple I (bind c k) R X.
Proof.
  intros Hc Hk. eapply triple_bind; [exact Hc|]. intros a s [Hs Ha].
  by apply Hk.
Qed.

(** ** Invariants *)

Lemma invariant_final {A} I (c : prog E S A) s :
  invariant I c -> I s -> I (final_state (c s)).
Proof. intros Hc Hs. eapply holds_final; [by apply Hc|done..]. Qed.

Lemma invariant_pure {A} I (a : A) : invariant I (pure a : prog E S A).
Proof. by apply triple_pure. Qed.

Lemma invariant_throw {A} I (e : E) : invariant I (throw e : prog E S A).
Proof. by apply triple_throw. Qed.

Lemma invariant_bind {A B} I (c : prog E S A) (k : A -> prog E S B) :
  invariant I c -> (forall a, invariant I (k a)) -> invariant I (bind c k).
Proof. intros Hc Hk. eapply triple_bind; [exact Hc|exact Hk]. Qed.

Lemma invariant_for_each {A} I (l : list A) (body : A -> prog E S unit) :
  (forall a, a ∈ l -> invariant I (body a)) -> invariant I (for_each l body).
Proof. apply triple_for_each. Qed.

Lemma invariant_bind_pure {A B} I (c : prog E S A) (k : A -> prog E S B)
    (phi : A -> Prop) :
  triple I c (fun a s => I s /\ phi a) (fun _ => I) ->
  (forall a, phi a -> invariant I (k a)) ->
  invariant I (bind c k).
Proof. apply triple_bind_pure. Qed.

(** A program that only reads keeps every property of the state. *)
Lemma reads_invariant {A} I (c : prog E S A) : reads c -> invariant I c.
Proof.
  intros Hc s Hs. specialize (Hc s). destruct (c s); cbn in *; by subst.
Qed.

(** What a reading program returns can be added to what it keeps. *)
Lemma reads_triple {A} I (c : prog E S A) (Q : A -> S -> Prop) :
  reads c -> (forall s a s', c s = Done a s' -> Q a s) ->
  triple I c (fun a s => I s /\ Q a s) (fun _ => I).
Proof.
  intros Hc HQ s Hs. specialize (Hc s). specialize (HQ s).
  destruct (c s) as [a s'|e s']; cbn in *; subst; eauto.
Qed.

Lemma reads_pure {A} (a : A) : reads (pure a : prog E S A).
Proof. done. Qed.

Lemma reads_throw {A} (e : E) : reads (throw e : prog E S A).
Proof. done. Qed.

Lemma reads_bind {A B} (c : prog E S A) (k : A -> prog E S B) :
  reads c -> (forall a, reads (k a)) -> reads (bind c k).
Proof.
  intros Hc Hk s. specialize (Hc s). unfold bind.
  destruct (c s) as [a s'|e s']; cbn in *; subst; [apply Hk | done].
Qed.

End Triple.

#[export] Hint Resolve invariant_pure invariant_throw invariant_bind
  invariant_for_each reads_pure reads_throw reads_bind : grid.
#[export] Hint Resolve reads_invariant | 10 : grid.
