(* ===== verification/Code.v ===== *)
(** * Code: a program as the calls it makes

    [Prelude.prog] gives a procedure of the script as a function on the
    state of the host.  This file gives it as a tree: a program returns, or
    makes a call and goes on with the answer.  The calls are the ones of a
    signature ([Answers]: the calls and the type of the answer of each),
    and a handler ([Performs]) says what a call does to the state.
    [denote] folds a tree into the function it computes; [trace] lists the
    calls it makes from a state, the failing one included.  Trees are
    compared up to [≡], equality of the calls with the continuations equal
    on every answer. *)

From S2P Require Import Prelude.

(** ** Signatures and handlers *)

Class Answers (call : Type) : Type := answer : call -> Type.

Class Performs (E S call : Type) `{!Answers call} : Type :=
  perform : forall c : call, prog E S (answer c).

(** ** Programs *)

Inductive code (call : Type) `{!Answers call} (A : Type) : Type :=
| Ret (a : A)
| Call (c : call) (k : answer c -> code call A).
Arguments Ret {call _ A} a.
Arguments Call {call _ A} c k.

Declare Scope code_scope.
Delimit Scope code_scope with code.

Section Code.
Context {call : Type} `{!Answers call}.

Fixpoint cbind {A B} (p : code call A) (k : A -> code call B) : code call B :=
  match p with
  | Ret a => k a
  | Call c h => Call c (fun x => cbind (h x) k)
  end.

(** One call, returning its answer. *)
Definition invoke (c : call) : code call (answer c) := Call c Ret.

Fixpoint cfor {A} (l : list A) (body : A -> code call unit) : code call unit :=
  match l with
  | [] => Ret tt
  | a :: l' => cbind (body a) (fun _ => cfor l' body)
  end.

(** ** Programs up to their continuations *)

Inductive code_equiv {A} : Equiv (code call A) :=
| equiv_ret a : Ret a ≡ Ret a
| equiv_call c k k' : (forall x, k x ≡ k' x) -> Call c k ≡ Call c k'.
#[export] Existing Instance code_equiv.

(** ** What a program computes and which calls it makes *)

Context {E S : Type} `{!Performs E S call}.

Fixpoint denote {A} (p : code call A) : prog E S A :=
  match p with
  | Ret a => pure a
  | Call c k => bind (perform c) (fun x => denote (k x))
  end.

Fixpoint trace {A} (p : code call A) (s : S) : list call :=
  match p with
  | Ret _ => []
  | Call c k =>
      c :: match perform c s with
           | Done x s' => trace (k x) s'
           | Raise _ _ => []
           end
  end.

(** The calls of [k], made after [p] returned. *)
Definition and_then {A} (o : outcome E S A) (k : A -> S -> list call) : list call :=
  match o with
  | Done a s => k a s
  | Raise _ _ => []
  end.

End Code.

Notation "x <- c ;; k" := (cbind c (fun x => k))
  (at level 100, c at next level, right associativity) : code_scope.
Notation "c ;; k" := (cbind c (fun _ => k))
  (at level 100, right associativity) : code_scope.

(** ** The laws of programs *)

Section Laws.
Context {call : Type} `{!Answers call}.
Implicit Types (c : call).

(** Inversion of [≡] without an axiom on dependent pairs. *)
Lemma code_equiv_inv {A} (p q : code call A) :
  p ≡ q ->
  match p, q with
  | Ret a, Ret b => a = b
  | Call c k, Call c' k' =>
      exists H : c = c', forall x, k x ≡ k' (eq_rect c answer x c' H)
  | _, _ => False
  end.
Proof. intros []; [done | by exists eq_refl]. Qed.

#[export] Instance code_equiv_equivalence {A} : Equivalence (≡@{code call A}).
Proof.
  split.
  - intros p. induction p; constructor; auto.
  - intros p q H. induction H; constructor; auto.
  - intros p q r H. revert r. induction H as [|c k k' _ IH]; [done|].
    intros [|c' h] Hr%code_equiv_inv; [done|]. destruct Hr as [<- Hr].
    constructor. intros x. apply IH, Hr.
Qed.

Lemma cbind_ret_r {A} (p : code call A) : cbind p Ret ≡ p.
Proof. induction p; constructor; auto. Qed.

Lemma cbind_assoc {A B C} (p : code call A) (k : A -> code call B)
    (h : B -> code call C) :
  cbind (cbind p k) h ≡ cbind p (fun a => cbind (k a) h).
Proof. induction p; [reflexivity|]. constructor; auto. Qed.

#[export] Instance cbind_proper {A B} :
  Proper ((≡) ==> pointwise_relation A (≡) ==> (≡)) (cbind (call := call) (B := B)).
Proof.
  intros p q H k k' Hk. induction H; [apply Hk|]. constructor; auto.
Qed.

Lemma cfor_app {A} (l1 l2 : list A) (body : A -> code call unit) :
  cfor (l1 ++ l2) body ≡ cbind (cfor l1 body) (fun _ => cfor l2 body).
Proof.
  induction l1 as [|a l1 IH]; [reflexivity|]. cbn [app cfor].
  rewrite cbind_assoc. apply cbind_proper; [reflexivity|]. by intros _.
Qed.

Context {E S : Type} `{!Performs E S call}.
Implicit Types (s : S).

Lemma denote_equiv {A} (p q : code call A) s : p ≡ q -> denote p s = denote q s.
Proof.
  intros H. revert s. induction H as [|c k k' _ IH]; intros s; [done|].
  cbn [denote]. by apply bind_ext.
Qed.

Lemma trace_equiv {A} (p q : code call A) s : p ≡ q -> trace p s = trace q s.
Proof.
  intros H. revert s. induction H as [|c k k' _ IH]; intros s; [done|].
  cbn [trace]. f_equal. by destruct (perform c s).
Qed.

Lemma denote_cbind {A B} (p : code call A) (k : A -> code call B) s :
  denote (cbind p k) s = bind (denote p) (fun a => denote (k a)) s.
Proof.
  revert s. induction p as [|c h IH]; intros s; [done|].
  cbn [cbind denote]. rewrite bind_assoc. by apply bind_ext.
Qed.

Lemma denote_invoke c s : denote (invoke c) s = perform c s.
Proof. apply bind_pure_r. Qed.

Lemma denote_cfor {A} (l : list A) (body : A -> code call unit) s :
  denote (cfor l body) s = for_each l (fun a => denote (body a)) s.
Proof.
  revert s. induction l as [|a l IH]; intros s; [done|].
  cbn [cfor for_each]. rewrite denote_cbind. by apply bind_ext.
Qed.

Lemma trace_cbind {A B} (p : code call A) (k : A -> code call B) s :
  trace (cbind p k) s
  = trace p s ++ and_then (denote p s) (fun a s' => trace (k a) s').
Proof.
  revert s. induction p as [|c h IH]; intros s; [done|].
  cbn [cbind trace denote app]. f_equal. unfold bind.
  destruct (perform c s) as [x s'|e s']; [apply IH | done].
Qed.

Lemma trace_invoke c s : trace (invoke c) s = [c].
Proof. cbn. by destruct (perform c s). Qed.

(** A program that returned made the calls of its parts, one after the
    other. *)
Lemma trace_cbind_done {A B} (p : code call A) (k : A -> code call B) s a s' :
  denote p s = Done a s' -> trace (cbind p k) s = trace p s ++ trace (k a) s'.
Proof. intros H. by rewrite trace_cbind, H. Qed.

Lemma trace_cbind_raise {A B} (p : code call A) (k : A -> code call B) s e s' :
  denote p s = Raise e s' -> trace (cbind p k) s = trace p s.
Proof. intros H. by rewrite trace_cbind, H, app_nil_r. Qed.

End Laws.

(** ** The order of the calls

    A program follows a list of tags when the calls it makes, seen through
    [tag], are the list from its start: all of it when the program
    returns, and what came before the failing call, with that call, when
    it raises. *)

Section Follows.
Context {call : Type} `{!Answers call} {E S : Type} `{!Performs E S call}.
Context {T : Type} (tag : call -> T).
Implicit Types (c : call) (s : S) (L : list T).

Definition tags {A} (p : code call A) (s : S) : list T := tag <$> trace p s.

Definition follows {A} (L : list T) (p : code call A) (s : S) : Prop :=
  tags p s `prefix_of` L /\
  forall a s', denote p s = Done a s' -> tags p s = L.

Lemma follows_ret {A} (a : A) s : follows [] (Ret a) s.
Proof. by split. Qed.

Lemma follows_call {A} c (k : answer c -> code call A) L s :
  (forall x s', perform c s = Done x s' -> follows L (k x) s') ->
  follows (tag c :: L) (Call c k) s.
Proof.
  intros Hk. unfold follows, tags. cbn [trace denote fmap list_fmap]. unfold bind.
  destruct (perform c s) as [x s'|e s'].
  - destruct (Hk x s' eq_refl) as [Hpre Hall]. split.
    + by apply prefix_cons.
    + intros a s2 Hd. f_equal. by eapply Hall.
  - split; [|done]. apply prefix_cons, prefix_nil.
Qed.

Lemma follows_invoke c s : follows [tag c] (invoke c) s.
Proof. apply follows_call. intros. apply follows_ret. Qed.

Lemma follows_cbind {A B} (p : code call A) (k : A -> code call B) L1 L2 s :
  follows L1 p s ->
  (forall a s', denote p s = Done a s' -> follows L2 (k a) s') ->
  follows (L1 ++ L2) (cbind p k) s.
Proof.
  intros [Hpre Hall] Hk. unfold follows, tags in *.
  rewrite trace_cbind, denote_cbind, fmap_app. unfold bind.
  destruct (denote p s) as [a s'|e s'] eqn:Hp; cbn [and_then].
  - rewrite (Hall a s' eq_refl). destruct (Hk a s' eq_refl) as [Hpre' Hall'].
    split; [by apply prefix_app | intros; f_equal; eauto].
  - rewrite app_nil_r. split; [|done]. by apply prefix_app_r.
Qed.

Lemma follows_cfor {A} (l : list A) (body : A -> code call unit)
    (B : A -> list T) s :
  (forall a s', a ∈ l -> follows (B a) (body a) s') ->
  follows (l ≫= B) (cfor l body) s.
Proof.
  revert s. induction l as [|a l IH]; intros s Hbody; [apply follows_ret|].
  cbn [cfor]. change ((a :: l) ≫= B) with (B a ++ (l ≫= B)).
  apply follows_cbind; [apply Hbody; left|]. intros _ s' _. apply IH.
  intros b s2 Hb. apply Hbody. by right.
Qed.

(** A program that returns has made all the calls of the list. *)
Lemma follows_done {A} (p : code call A) L s a s' :
  follows L p s -> denote p s = Done a s' -> tag <$> trace p s = L.
Proof. intros [_ H]. apply H. Qed.

(** A program makes no more calls than the list it follows has tags. *)
Lemma follows_length {A} (p : code call A) L s :
  follows L p s -> length (trace p s) <= length L.
Proof.
  intros [Hpre _]. apply prefix_length in Hpre. unfold tags in Hpre.
  by rewrite length_fmap in Hpre.
Qed.

End Follows.

(** ** The states in which the calls are made

    [history] is the trace with the state each call finds.  [calls_ok]
    is a triple for programs with a condition on the calls: from a state
    that satisfies [P] every call is made in a state in which it is [ok],
    and a result comes with [Q]. *)

Section History.
Context {call : Type} `{!Answers call} {E S : Type} `{!Performs E S call}.
Implicit Types (c : call) (s : S) (P : S -> Prop).

Fixpoint history {A} (p : code call A) (s : S) : list (call * S) :=
  match p with
  | Ret _ => []
  | Call c k =>
      (c, s) :: match perform c s with
                | Done x s' => history (k x) s'
                | Raise _ _ => []
                end
  end.

Lemma trace_history {A} (p : code call A) s : trace p s = (history p s).*1.
Proof.
  revert s. induction p as [a|c k IH]; intros s; [done|].
  cbn. f_equal. by destruct (perform c s).
Qed.

Context (ok : call -> S -> Prop).

Definition calls_ok {A} P (p : code call A) (Q : A -> S -> Prop) : Prop :=
  forall s, P s ->
    Forall (fun cs => ok cs.1 cs.2) (history p s) /\
    forall a s', denote p s = Done a s' -> Q a s'.

Lemma calls_ok_ret {A} P (a : A) (Q : A -> S -> Prop) :
  (forall s, P s -> Q a s) -> calls_ok P (Ret a) Q.
Proof. intros H s Hs. split; [constructor|]. intros ? ? [= <- <-]. auto. Qed.

Lemma calls_ok_call {A} P c (k : answer c -> code call A)
    (R : answer c -> S -> Prop) (Q : A -> S -> Prop) :
  (forall s, P s -> ok c s) ->
  (forall s x s', P s -> perform c s = Done x s' -> R x s') ->
  (forall x, calls_ok (R x) (k x) Q) ->
  calls_ok P (Call c k) Q.
Proof.
  intros Hok HR Hk s Hs. cbn [history denote]. unfold bind.
  destruct (perform c s) as [x s'|e s'] eqn:Hc.
  - destruct (Hk x s' (HR s x s' Hs Hc)) as [Hh Hq].
    split; [constructor; [by apply Hok | done] | done].
  - split; [|done]. repeat constructor. by apply Hok.
Qed.

Lemma calls_ok_cbind {A B} P (p : code call A) (k : A -> code call B)
    (R : A -> S -> Prop) (Q : B -> S -> Prop) :
  calls_ok P p R -> (forall a, calls_ok (R a) (k a) Q) ->
  calls_ok P (cbind p k) Q.
Proof.
  intros Hp Hk. revert P Hp. induction p as [a|c h IH]; intros P Hp s Hs.
  - apply Hk. by apply (Hp s Hs).
  - specialize (Hp s Hs). cbn [cbind history denote] in *. unfold bind in *.
    destruct (perform c s) as [x s'|e s'] eqn:Hc; [|split; [apply Hp|done]].
    destruct Hp as [[Hok Hh]%Forall_cons Hq].
    destruct (IH x (fun s => s = s') ltac:(by intros ? ->) s' eq_refl) as [Hh' Hq'].
    by split; [constructor|].
Qed.

Lemma calls_ok_cfor {A} P (l : list A) (body : A -> code call unit) :
  (forall a, a ∈ l -> calls_ok P (body a) (fun _ => P)) ->
  calls_ok P (cfor l body) (fun _ => P).
Proof.
  induction l as [|a l IH]; intros Hbody; [by apply calls_ok_ret|].
  cbn [cfor]. eapply calls_ok_cbind; [apply Hbody; left|].
  intros ?. apply IH. intros b Hb. apply Hbody. by right.
Qed.

Lemma calls_ok_weaken {A} (P P' : S -> Prop) (p : code call A)
    (Q Q' : A -> S -> Prop) :
  calls_ok P' p Q' -> (forall s, P s -> P' s) -> (forall a s, Q' a s -> Q a s) ->
  calls_ok P p Q.
Proof.
  intros Hp HP HQ s Hs. destruct (Hp s (HP s Hs)) as [Hh Hq]. split; eauto.
Qed.

End History.

(** [follow_calls] goes through the calls at the head of a program. *)
Ltac follow_calls :=
  repeat (cbn [cbind invoke];
          lazymatch goal with
          | |- follows ?tag _ (Call ?c ?k) _ =>
              refine (follows_call tag c k _ _ _); intros
          | |- follows ?tag _ (invoke ?c) _ => exact (follows_invoke tag c _)
          | |- follows _ _ (Ret _) _ => apply follows_ret
          end).
