(* ===== verification/Machine.v ===== *)
(** * Machine: running a program one call at a time

    A configuration holds what is left of the program (or the exception
    that unwinds it), the state of the host and the calls made so far.  A
    step performs the next call: the program goes on with the answer, or
    the call raises and the program is abandoned.  The relation is
    deterministic and every run is finite; a run from a program stops in
    the outcome [Code.denote] computes, after one step for each call of
    [Code.trace].  [run] is the relation as a function with fuel. *)

From stdpp Require Import relations.
From S2P Require Import Prelude Triple Code.

Section Machine.
Context {call : Type} `{!Answers call} {E St : Type} `{!Performs E St call}.
Context {A : Type}.

Inductive thread : Type :=
| Run (p : code call A)
| Unwind (e : E).

Record config : Type := Config {
  thread_of : thread;
  state_of : St;
  log : list call;
}.

Inductive step : relation config :=
| step_answer c k s t x s' :
    perform c s = Done x s' ->
    step (Config (Run (Call c k)) s t) (Config (Run (k x)) s' (t ++ [c]))
| step_raise c k s t e s' :
    perform c s = Raise e s' ->
    step (Config (Run (Call c k)) s t) (Config (Unwind e) s' (t ++ [c])).

(** The step as a function. *)
Definition next (cf : config) : option config :=
  match thread_of cf with
  | Run (Call c k) =>
      Some match perform c (state_of cf) with
           | Done x s' => Config (Run (k x)) s' (log cf ++ [c])
           | Raise e s' => Config (Unwind e) s' (log cf ++ [c])
           end
  | _ => None
  end.

Fixpoint run (fuel : nat) (cf : config) : config :=
  match fuel with
  | O => cf
  | S n => match next cf with
           | Some cf' => run n cf'
           | None => cf
           end
  end.

Definition start (p : code call A) (s : St) : config := Config (Run p) s [].

(** The configuration in which a run with outcome [o] stops. *)
Definition stop (o : outcome E St A) (t : list call) : config :=
  match o with
  | Done a s => Config (Run (Ret a)) s t
  | Raise e s => Config (Unwind e) s t
  end.

(** The outcome a stopped configuration stands for. *)
Definition result (cf : config) : option (outcome E St A) :=
  match thread_of cf with
  | Run (Ret a) => Some (Done a (state_of cf))
  | Run (Call _ _) => None
  | Unwind e => Some (Raise e (state_of cf))
  end.

(** The call a configuration is about to make. *)
Definition next_call (cf : config) : option call :=
  match thread_of cf with
  | Run (Call c _) => Some c
  | _ => None
  end.

(** ** The relation and the function *)

Implicit Types (cf : config) (p : code call A) (s : St) (t : list call).

Lemma step_next cf cf' : step cf cf' <-> next cf = Some cf'.
Proof.
  split.
  - intros [c k s t x s' H|c k s t e s' H]; unfold next; cbn; by rewrite H.
  - destruct cf as [[[a|c k]|e] s t]; unfold next; cbn; [done| |done].
    intros [= <-]. destruct (perform c s) eqn:H; by constructor.
Qed.

Lemma step_deterministic : deterministic step.
Proof. intros cf c1 c2 H1%step_next H2%step_next. congruence. Qed.

Lemma stop_nf o t : nf step (stop o t).
Proof. intros [cf' H%step_next]. by destruct o. Qed.

Lemma result_stop o t : result (stop o t) = Some o.
Proof. by destruct o. Qed.

(** A program that has a call left can make it. *)
Lemma step_progress c k s t : red step (Config (Run (Call c k)) s t).
Proof. destruct (perform c s) eqn:H; eexists; by constructor. Qed.

Lemma result_nf cf : is_Some (result cf) <-> nf step cf.
Proof.
  destruct cf as [[[a|c k]|e] s t]; cbn; split; try (by eexists);
    try (by intros _ [cf' H%step_next]).
  - by intros [? ?].
  - intros []. apply step_progress.
Qed.

(** ** Runs *)

Lemma nsteps_deterministic n cf c1 c2 :
  nsteps step n cf c1 -> nsteps step n cf c2 -> c1 = c2.
Proof.
  intros H. revert c2. induction H as [|n x y z Hxy _ IH]; intros c2 H2.
  - by inversion H2.
  - inversion H2 as [|? ? y' ? Hxy' H2']; simplify_eq.
    rewrite (step_deterministic _ _ _ Hxy Hxy') in IH. by apply IH.
Qed.

(** A run that has stopped is the longest one. *)
Lemma nsteps_longest n m cf c1 c2 :
  nsteps step n cf c1 -> nf step c1 -> nsteps step m cf c2 -> m <= n.
Proof.
  intros H. revert m c2. induction H as [x|n x y z Hxy _ IH]; intros m c2 Hnf H2.
  - destruct H2 as [|m ? y]; [lia|]. destruct Hnf. by exists y.
  - destruct H2 as [|m ? y' ? Hxy' H2]; [lia|].
    rewrite <- (step_deterministic _ _ _ Hxy Hxy') in H2.
    specialize (IH _ _ Hnf H2). lia.
Qed.

(** The calls in the log are made in order: a run appends to it. *)
Lemma nsteps_log n cf cf' :
  nsteps step n cf cf' -> exists t, log cf' = log cf ++ t /\ length t = n.
Proof.
  induction 1 as [x|n x y z Hxy _ (t & -> & <-)].
  - exists []. by rewrite app_nil_r.
  - destruct Hxy; cbn; eexists (_ :: t); by rewrite <- app_assoc.
Qed.

Lemma snoc_trace t c (l : list call) : t ++ c :: l = (t ++ [c]) ++ l.
Proof. by rewrite <- app_assoc. Qed.

(** A run from a program: one step for each call of its trace, into the
    outcome the program denotes. *)
Lemma steps_denote p s t :
  nsteps step (length (trace p s)) (Config (Run p) s t)
    (stop (denote p s) (t ++ trace p s)).
Proof.
  revert s t. induction p as [a|c k IH]; intros s t.
  - cbn. rewrite app_nil_r. constructor.
  - cbn [trace denote length]. unfold bind.
    destruct (perform c s) as [x s'|e s'] eqn:H.
    + eapply nsteps_l; [by apply step_answer|].
      rewrite (snoc_trace t c (trace (k x) s')). apply IH.
    + eapply nsteps_l; [by apply step_raise|]. constructor.
Qed.

(** The first part of a program runs as it would alone, and hands its
    result to the rest. *)
Lemma steps_cbind {X} (p : code call X) (k : X -> code call A) s t a s' :
  denote p s = Done a s' ->
  nsteps step (length (trace p s)) (Config (Run (cbind p k)) s t)
    (Config (Run (k a)) s' (t ++ trace p s)).
Proof.
  revert s t. induction p as [x|c h IH]; intros s t.
  - intros [= -> ->]. cbn. rewrite app_nil_r. constructor.
  - cbn [trace denote cbind length]. unfold bind.
    destruct (perform c s) as [x s1|e s1] eqn:H; [|done]. intros Hd.
    eapply nsteps_l; [by apply step_answer|].
    rewrite (snoc_trace t c (trace (h x) s1)). by apply IH.
Qed.

(** Every run is finite. *)
Lemma step_sn cf : sn step cf.
Proof.
  destruct cf as [[p|e] s t].
  - revert s t. induction p as [a|c k IH]; intros s t.
    + constructor. by intros cf' H%step_next.
    + constructor. intros cf' [= <-]%step_next.
      destruct (perform c s); [apply IH|].
      constructor. by intros cf'' H'%step_next.
  - constructor. by intros cf' H%step_next.
Qed.

(** A run that has stopped goes through every shorter run. *)
Lemma nsteps_rest n m cf c1 c2 :
  nsteps step n cf c1 -> nf step c1 -> nsteps step m cf c2 ->
  nsteps step (n - m) c2 c1.
Proof.
  intros H. revert m c2. induction H as [x|n x y z Hxy Hyz IH]; intros m c2 Hnf H2.
  - destruct H2 as [|m ? y]; [constructor|]. destruct Hnf. by exists y.
  - destruct H2 as [|m ? y' ? Hxy' H2]; [by econstructor|].
    rewrite <- (step_deterministic _ _ _ Hxy Hxy') in H2. by apply IH.
Qed.

(** The log of a configuration on the run of a program is the trace of the
    program up to there. *)
Lemma steps_log_prefix p s cf :
  rtc step (start p s) cf -> log cf `prefix_of` trace p s.
Proof.
  intros [n Hn]%rtc_nsteps.
  pose proof (nsteps_rest _ _ _ _ _ (steps_denote p s []) (stop_nf _ _) Hn) as Hr.
  apply nsteps_log in Hr as (t & Ht & _). exists t.
  destruct (denote p s); apply Ht.
Qed.

Lemma nf_nsteps n cf cf' : nf step cf -> nsteps step n cf cf' -> cf = cf'.
Proof.
  intros Hnf H. destruct H as [|? ? y ? Hy]; [done|]. destruct Hnf. by exists y.
Qed.

(** A run of a program stops in one configuration only. *)
Lemma stops_unique p s cf :
  rtc step (start p s) cf -> nf step cf -> cf = stop (denote p s) (trace p s).
Proof.
  intros [n Hn]%rtc_nsteps Hnf.
  pose proof (nsteps_rest _ _ _ _ _ (steps_denote p s []) (stop_nf _ _) Hn) as Hr.
  by eapply nf_nsteps.
Qed.

Lemma stops_denote p s :
  rtc step (start p s) (stop (denote p s) (trace p s)).
Proof. eapply rtc_nsteps_2, (steps_denote p s []). Qed.

(** What every call keeps, every program keeps. *)
Lemma denote_invariant {X} (I : St -> Prop) (p : code call X) :
  (forall c, invariant I (perform c)) -> invariant I (denote p).
Proof.
  intros Hc. induction p as [a|c k IH]; [apply invariant_pure|].
  by apply invariant_bind.
Qed.

(** What holds of the state before and after every call holds along every
    run. *)
Lemma rtc_invariant (I : St -> Prop) cf cf' :
  (forall c, invariant I (perform c)) ->
  rtc step cf cf' -> I (state_of cf) -> I (state_of cf').
Proof.
  intros Hc. induction 1 as [|x y z Hxy _ IH]; [done|]. intros Hx. apply IH.
  destruct Hxy as [c k s t a s' H|c k s t e s' H];
    specialize (Hc c s Hx); by rewrite H in Hc.
Qed.

(** A call the machine is about to make, with the state it finds, is in
    the history of the program. *)
Lemma reachable_call p s t cf c :
  rtc step (Config (Run p) s t) cf -> next_call cf = Some c ->
  (c, state_of cf) ∈ history p s.
Proof.
  revert s t. induction p as [a|c0 k0 IH]; intros s t Hrun Hcf.
  - apply rtc_nf in Hrun; [by subst|]. by intros [cf' ?%step_next].
  - apply rtc_inv in Hrun as [<-|(y & [= <-]%step_next & Hrun)].
    { injection Hcf as ->. left. }
    cbn [history state_of] in *. right.
    destruct (perform c0 s) as [x s'|e s']; [by eapply IH|].
    apply rtc_nf in Hrun; [by subst|]. by intros [cf' ?%step_next].
Qed.

(** A condition on the calls of a program holds of every call the machine
    comes to. *)
Lemma reachable_call_ok (ok : call -> St -> Prop) (P : St -> Prop)
    (Q : A -> St -> Prop) p s cf c :
  calls_ok ok P p Q -> P s ->
  rtc step (start p s) cf -> next_call cf = Some c -> ok c (state_of cf).
Proof.
  intros Hp Hs Hrun Hcf. destruct (Hp s Hs) as [Hh _].
  rewrite Forall_forall in Hh. apply (Hh (c, state_of cf)).
  by eapply reachable_call.
Qed.

(** ** Liveness *)

(** Every run from [cf] comes to a configuration that satisfies [P]. *)
Inductive eventually (P : config -> Prop) : config -> Prop :=
| eventually_now cf : P cf -> eventually P cf
| eventually_step cf :
    red step cf -> (forall cf', step cf cf' -> eventually P cf') -> eventually P cf.

Lemma eventually_rtc (P : config -> Prop) cf cf' :
  rtc step cf cf' -> P cf' -> eventually P cf.
Proof.
  induction 1 as [|x y z Hxy _ IH]; intros HP; [by apply eventually_now|].
  apply eventually_step; [by exists y|]. intros y' Hxy'.
  rewrite (step_deterministic _ _ _ Hxy' Hxy). by apply IH.
Qed.

Lemma eventually_mono (P Q : config -> Prop) cf :
  (forall cf', P cf' -> Q cf') -> eventually P cf -> eventually Q cf.
Proof.
  intros HPQ. induction 1 as [|cf Hred _ IH];
    [by apply eventually_now, HPQ | by apply eventually_step].
Qed.

(** ** The function with fuel *)

Lemma run_nsteps fuel n cf cf' :
  nsteps step n cf cf' -> nf step cf' -> n <= fuel -> run fuel cf = cf'.
Proof.
  intros H. revert fuel. induction H as [x|n x y z Hxy%step_next _ IH];
    intros fuel Hnf Hle.
  - destruct fuel; [done|]. cbn. destruct (next x) eqn:Hx; [|done].
    destruct Hnf. eexists. by apply step_next.
  - destruct fuel; [lia|]. cbn. rewrite Hxy. apply IH; [done|lia].
Qed.

Lemma run_rtc fuel cf : rtc step cf (run fuel cf).
Proof.
  revert cf. induction fuel as [|fuel IH]; intros cf; [done|]. cbn.
  destruct (next cf) as [cf'|] eqn:H; [|done].
  eapply rtc_l; [by apply step_next | apply IH].
Qed.

Lemma run_enough fuel p s :
  length (trace p s) <= fuel ->
  run fuel (start p s) = stop (denote p s) (trace p s).
Proof.
  intros. eapply run_nsteps; [apply (steps_denote p s [])|apply stop_nf|done].
Qed.

End Machine.

Arguments thread {call _} E A.
Arguments config {call _} E St A.
