(* ===== verification/Vector.v ===== *)
(** * Vector: three-component vectors of the host's math library

    The script stores every coordinate in a [mathutils.Vector] of size three
    and passes directions and plane points as Python 3-tuples of integers.
    This file models both: [Vec] with exact rational components and
    [tuple3] with integer components, the operators the script uses on them
    ([+=], [-=], [*] by a scalar, indexing) and the equivalence [≡] under
    which two vectors denote the same point. *)

From S2P Require Import Prelude.

Local Open Scope Q_scope.

(** ** Data *)

Record Vec : Type := mkVec { vx : Q; vy : Q; vz : Q }.

Definition tuple3 : Type := (Z * Z * Z)%type.

#[export] Instance Q_equiv : Equiv Q := Qeq.

Definition veq (u v : Vec) : Prop :=
  vx u == vx v /\ vy u == vy v /\ vz u == vz v.

#[export] Instance vec_equiv : Equiv Vec := veq.

Definition veqb (u v : Vec) : bool :=
  Qeq_bool (vx u) (vx v) && Qeq_bool (vy u) (vy v) && Qeq_bool (vz u) (vz v).

(** ** Operations *)

Definition vzero : Vec := mkVec 0 0 0.

Definition vadd (u v : Vec) : Vec :=
  mkVec (vx u + vx v) (vy u + vy v) (vz u + vz v).

Definition vsub (u v : Vec) : Vec :=
  mkVec (vx u - vx v) (vy u - vy v) (vz u - vz v).

Definition vscale (v : Vec) (k : Q) : Vec :=
  mkVec (vx v * k) (vy v * k) (vz v * k).

Definition dot (u v : Vec) : Q :=
  vx u * vx v + vy u * vy v + vz u * vz v.

Definition vec_of_ints (a b c : Z) : Vec :=
  mkVec (inject_Z a) (inject_Z b) (inject_Z c).

Definition vec_of_tuple (t : tuple3) : Vec :=
  let '(a, b, c) := t in vec_of_ints a b c.

(** The linear part of an object's transform (rotation and scale), by its
    columns: the images of the three unit vectors. *)
Record Mat3 : Type := mkMat3 { col_x : Vec; col_y : Vec; col_z : Vec }.

Definition mat_id : Mat3 :=
  mkMat3 (mkVec 1 0 0) (mkVec 0 1 0) (mkVec 0 0 1).

Definition mat_apply (M : Mat3) (v : Vec) : Vec :=
  vadd (vadd (vscale (col_x M) (vx v)) (vscale (col_y M) (vy v)))
       (vscale (col_z M) (vz v)).

(** The three coordinate axes, and the component of a vector along one
    (Python's [vec[0]], [vec[1]], [vec[2]]). *)
Inductive axis : Type := AxisX | AxisY | AxisZ.

Definition coord (a : axis) (v : Vec) : Q :=
  match a with AxisX => vx v | AxisY => vy v | AxisZ => vz v end.

(** Componentwise order, used to state that a point lies in a box. *)
Definition vle (u v : Vec) : Prop :=
  vx u <= vx v /\ vy u <= vy v /\ vz u <= vz v.

Definition vlt (u v : Vec) : Prop :=
  vx u < vx v /\ vy u < vy v /\ vz u < vz v.

Declare Scope vec_scope.
Delimit Scope vec_scope with vec.
Bind Scope vec_scope with Vec.
Infix "+" := vadd : vec_scope.
Infix "-" := vsub : vec_scope.
Infix "*" := vscale : vec_scope.
Infix "<=" := vle : vec_scope.
Infix "<" := vlt : vec_scope.

(** ** Automation *)

(** [vec_simpl] exposes the components of every vector in sight; [vec_solve]
    then closes goals that are linear in them. *)
Ltac vec_simpl :=
  repeat match goal with
  | v : Vec |- _ => destruct v
  | t : tuple3 |- _ => destruct t as [[? ?] ?]
  end;
  unfold equiv, vec_equiv, Q_equiv, veq, vle, vlt, vadd, vsub, vscale, dot,
    vzero, vec_of_tuple, vec_of_ints in *;
  simpl in *.

Ltac vec_solve := intros; vec_simpl; repeat split; intuition qlra.

(** [vec_decide] settles closed comparisons of concrete vectors by
    evaluation. *)
Ltac vec_decide :=
  unfold equiv, vec_equiv, Q_equiv, veq, vle, vlt; repeat split; by vm_compute.

(** ** The equivalence and its morphisms *)

#[export] Instance Q_equivalence : Equivalence (≡@{Q}).
Proof. exact Q_Setoid. Qed.

#[export] Instance veq_equivalence : Equivalence (≡@{Vec}).
Proof. split; repeat intro; vec_solve. Qed.

#[export] Instance vadd_proper : Proper ((≡) ==> (≡) ==> (≡)) vadd.
Proof. repeat intro; vec_solve. Qed.

#[export] Instance vsub_proper : Proper ((≡) ==> (≡) ==> (≡)) vsub.
Proof. repeat intro; vec_solve. Qed.

#[export] Instance vscale_proper : Proper ((≡) ==> Qeq ==> (≡)) vscale.
Proof.
  intros [] [] (H1 & H2 & H3) k k' Hk; vec_simpl.
  by rewrite H1, H2, H3, Hk.
Qed.

#[export] Instance dot_proper : Proper ((≡) ==> (≡) ==> Qeq) dot.
Proof.
  intros [] [] (H1 & H2 & H3) [] [] (H4 & H5 & H6); vec_simpl.
  by rewrite H1, H2, H3, H4, H5, H6.
Qed.

#[export] Instance coord_proper a : Proper ((≡) ==> Qeq) (coord a).
Proof. intros [] [] (H1 & H2 & H3). by destruct a. Qed.

#[export] Instance axis_eq_dec : EqDecision axis.
Proof. solve_decision. Defined.

#[export] Instance mat_apply_proper M : Proper ((≡) ==> (≡)) (mat_apply M).
Proof. intros v v' (H1 & H2 & H3). unfold mat_apply. by rewrite H1, H2, H3. Qed.

#[export] Instance vle_proper : Proper ((≡) ==> (≡) ==> iff) vle.
Proof. repeat intro; vec_solve. Qed.

#[export] Instance vlt_proper : Proper ((≡) ==> (≡) ==> iff) vlt.
Proof. repeat intro; vec_solve. Qed.

Lemma veqb_spec (u v : Vec) : reflect (u ≡ v) (veqb u v).
Proof.
  apply iff_reflect. unfold veqb. rewrite !andb_true_iff, !Qeq_bool_iff.
  unfold equiv, vec_equiv, veq. tauto.
Qed.

#[export] Instance vec_equiv_dec : RelDecision (≡@{Vec}).
Proof. intros u v. destruct (veqb_spec u v); [by left | by right]. Defined.

(** ** Algebra of the operators *)

Section Algebra.
Implicit Types u v w : Vec.

Lemma vadd_comm u v : (u + v)%vec ≡ (v + u)%vec.
Proof. vec_solve. Qed.

Lemma vadd_assoc u v w : (u + (v + w))%vec ≡ (u + v + w)%vec.
Proof. vec_solve. Qed.

Lemma vadd_zero_l v : (vzero + v)%vec ≡ v.
Proof. vec_solve. Qed.

Lemma vadd_zero_r v : (v + vzero)%vec ≡ v.
Proof. vec_solve. Qed.

Lemma vsub_add v w : (v - w + w)%vec ≡ v.
Proof. vec_solve. Qed.

Lemma vadd_sub v w : (v + w - w)%vec ≡ v.
Proof. vec_solve. Qed.

Lemma vsub_zero v : (v - vzero)%vec ≡ v.
Proof. vec_solve. Qed.

Lemma vzero_sub_add v w : (v + (vzero - w) + w)%vec ≡ v.
Proof. vec_solve. Qed.

Lemma vscale_add_distr u v k : ((u + v) * k)%vec ≡ (u * k + v * k)%vec.
Proof. vec_solve. Qed.

Lemma dot_comm u v : dot u v == dot v u.
Proof. vec_simpl. ring. Qed.

Lemma dot_zero_l v : dot vzero v == 0.
Proof. vec_simpl. ring. Qed.

Lemma dot_add_l u v w : dot (u + v) w == dot u w + dot v w.
Proof. vec_simpl. ring. Qed.

Lemma dot_sub_l u v w : dot (u - v) w == dot u w - dot v w.
Proof. vec_simpl. ring. Qed.

Lemma dot_scale_l u k w : dot (u * k) w == k * dot u w.
Proof. vec_simpl. ring. Qed.

Lemma coord_vadd a u v : coord a (u + v) = coord a u + coord a v.
Proof. by destruct a. Qed.

Lemma coord_vsub a u v : coord a (u - v) = coord a u - coord a v.
Proof. by destruct a. Qed.

Lemma coord_vscale a v k : coord a (v * k) = coord a v * k.
Proof. by destruct a. Qed.

Lemma veq_coord u v : u ≡ v <-> forall a, coord a u == coord a v.
Proof.
  split; [intros H a; by apply coord_proper | intros H].
  split_and!; [apply (H AxisX) | apply (H AxisY) | apply (H AxisZ)].
Qed.

Lemma vle_coord u v : (u <= v)%vec <-> forall a, coord a u <= coord a v.
Proof.
  split; [intros (? & ? & ?) []; done | intros H].
  split_and!; [apply (H AxisX) | apply (H AxisY) | apply (H AxisZ)].
Qed.

Lemma vlt_coord u v : (u < v)%vec <-> forall a, coord a u < coord a v.
Proof.
  split; [intros (? & ? & ?) []; done | intros H].
  split_and!; [apply (H AxisX) | apply (H AxisY) | apply (H AxisZ)].
Qed.

Lemma mat_apply_id v : mat_apply mat_id v ≡ v.
Proof. destruct v. repeat split; simpl; ring. Qed.

Lemma vle_refl v : (v <= v)%vec.
Proof. vec_solve. Qed.

Lemma vle_trans u v w : (u <= v)%vec -> (v <= w)%vec -> (u <= w)%vec.
Proof. vec_solve. Qed.

Lemma vle_add_r u v w : (u <= v)%vec -> (u + w <= v + w)%vec.
Proof. vec_solve. Qed.

Lemma vle_sub_r u v w : (u <= v)%vec -> (u - w <= v - w)%vec.
Proof. vec_solve. Qed.
End Algebra.

#[export] Hint Resolve vle_refl vle_add_r vle_sub_r : grid.
#[export] Hint Rewrite vadd_zero_l vadd_zero_r vsub_add vadd_sub vsub_zero : vec.
