(* ===== verification/Pivot.v ===== *)
(** * Pivot: the grid index of a bounding box

    Models [floor] and [get_center] of [grid_cut_blender.py]: the centre of
    a bounding box is the sum of its corners scaled by [0.125], and the
    grid index of a piece is the componentwise floor of that centre.  The
    theorems give the centre in closed form, its behaviour under
    translation (where the constant [0.125] meets the eight corners of a
    box) and the cell that the floor selects. *)

From S2P Require Import Prelude Vector.

Local Open Scope Q_scope.

(** ** Definitions *)

(** [floor(vec)]: the floor of each component, as a vector again. *)
Definition floor (vec : Vec) : Vec :=
  vec_of_ints (Qfloor (vx vec)) (Qfloor (vy vec)) (Qfloor (vz vec)).

(** [get_center(bbox)]: accumulate the corners from the zero vector, left
    to right, then scale by [0.125]. *)
Definition get_center (bbox : list Vec) : Vec :=
  let center := fold_left (fun center c => (center + c)%vec) bbox vzero in
  (center * 0.125)%vec.

(** The reference sum of a list of vectors, against which the loop of
    [get_center] is specified. *)
Definition vsum (l : list Vec) : Vec := fold_right vadd vzero l.

(** A vector with integer components. *)
Definition integral (v : Vec) : Prop :=
  exists a b c, v = vec_of_ints a b c.

(** The sum of a list of rationals: the sum of the corners along one axis. *)
Definition qsum (l : list Q) : Q := fold_right Qplus 0 l.

Definition ones : Vec := vec_of_ints 1 1 1.

(** The eight corners of the box from (2, -3, 0) to (3, -1, 1/2), in the
    order the host lists them; used by the witnesses. *)
Definition sample_box : list Vec :=
  [ mkVec 2 (-3) 0; mkVec 2 (-3) 0.5; mkVec 2 (-1) 0.5; mkVec 2 (-1) 0;
    mkVec 3 (-3) 0; mkVec 3 (-3) 0.5; mkVec 3 (-1) 0.5; mkVec 3 (-1) 0 ].

(** ** The accumulation loop *)

Section Accumulate.
Implicit Types (l : list Vec) (a t : Vec).

Lemma fold_vadd_vsum l a :
  fold_left (fun center c => (center + c)%vec) l a ≡ (a + vsum l)%vec.
Proof.
  revert a. induction l as [|c l IH]; intros a; simpl.
  - by rewrite vadd_zero_r.
  - rewrite IH. symmetry. apply vadd_assoc.
Qed.

Lemma vsum_app l1 l2 : vsum (l1 ++ l2) ≡ (vsum l1 + vsum l2)%vec.
Proof.
  induction l1 as [|c l1 IH]; simpl.
  - by rewrite vadd_zero_l.
  - rewrite IH. apply vadd_assoc.
Qed.

Lemma vsum_translate l t :
  vsum ((fun c => (c + t)%vec) <$> l)
  ≡ (vsum l + t * inject_Z (Z.of_nat (length l)))%vec.
Proof.
  induction l as [|c l IH].
  - destruct t; repeat split; simpl; ring.
  - cbn [fmap list_fmap vsum fold_right length]. fold (vsum l).
    fold (vsum ((fun c => (c + t)%vec) <$> l)). rewrite IH.
    rewrite Nat2Z.inj_succ. unfold Z.succ.
    generalize (vsum l) as s, (Z.of_nat (length l)) as n. intros s n.
    destruct c, t, s; repeat split; simpl; rewrite inject_Z_plus; ring.
Qed.

#[export] Instance vsum_proper : Proper ((≡) ==> (≡)) vsum.
Proof. induction 1; simpl; [done|]. by f_equiv. Qed.

#[export] Instance vsum_perm : Proper (Permutation ==> (≡)) vsum.
Proof.
  induction 1 as [|c l l' _ IH|c d l|l l' l'' _ IH1 _ IH2]; simpl.
  - done.
  - by rewrite IH.
  - generalize (vsum l). vec_solve.
  - by rewrite IH1.
Qed.
End Accumulate.

(** ** Centre *)

Section Center.
Implicit Types (bbox : list Vec) (t : Vec).

Lemma get_center_vsum bbox : get_center bbox ≡ (vsum bbox * (1 # 8))%vec.
Proof.
  unfold get_center. rewrite fold_vadd_vsum, vadd_zero_l.
  by apply vscale_proper.
Qed.

#[export] Instance get_center_proper : Proper ((≡) ==> (≡)) get_center.
Proof. intros l l' H. by rewrite !get_center_vsum, H. Qed.

#[export] Instance get_center_perm : Proper (Permutation ==> (≡)) get_center.
Proof. intros l l' H. by rewrite !get_center_vsum, H. Qed.
End Center.

(** ** Floor *)

Section Floor.
Implicit Types (v : Vec).

#[export] Instance floor_proper : Proper ((≡) ==> eq) floor.
Proof.
  intros [] [] (H1 & H2 & H3). unfold floor. simpl in *.
  by rewrite (Qfloor_comp _ _ H1), (Qfloor_comp _ _ H2), (Qfloor_comp _ _ H3).
Qed.

Lemma floor_integral v : integral (floor v).
Proof. unfold floor, integral. eauto. Qed.

Lemma floor_of_ints a b c : floor (vec_of_ints a b c) = vec_of_ints a b c.
Proof. unfold floor, vec_of_ints. cbn [vx vy vz]. by rewrite !Qfloor_Z. Qed.
End Floor.

(** ** Bounds of the sum along one axis *)

Section SumBounds.
Implicit Types (l : list Vec) (a : axis) (lo hi : Q).

Lemma coord_vsum a l : coord a (vsum l) = qsum (coord a <$> l).
Proof.
  induction l as [|c l IH]; [by destruct a|].
  change (coord a (c + vsum l) = coord a c + qsum (coord a <$> l)).
  by rewrite coord_vadd, IH.
Qed.

Lemma qsum_lower (qs : list Q) lo :
  Forall (fun q => lo <= q) qs ->
  lo * inject_Z (Z.of_nat (length qs)) <= qsum qs.
Proof.
  induction 1 as [|q qs Hq _ IH]; cbn [qsum fold_right length].
  - change (inject_Z (Z.of_nat 0)) with 0. lra.
  - rewrite Nat2Z.inj_succ. unfold Z.succ. rewrite inject_Z_plus.
    fold (qsum qs). change (inject_Z 1) with 1. lra.
Qed.

Lemma qsum_upper (qs : list Q) hi :
  Forall (fun q => q <= hi) qs ->
  qsum qs <= hi * inject_Z (Z.of_nat (length qs)).
Proof.
  induction 1 as [|q qs Hq _ IH]; cbn [qsum fold_right length].
  - change (inject_Z (Z.of_nat 0)) with 0. lra.
  - rewrite Nat2Z.inj_succ. unfold Z.succ. rewrite inject_Z_plus.
    fold (qsum qs). change (inject_Z 1) with 1. lra.
Qed.

Lemma qsum_upper_strict (qs : list Q) hi :
  Forall (fun q => q <= hi) qs -> Exists (fun q => q < hi) qs ->
  qsum qs < hi * inject_Z (Z.of_nat (length qs)).
Proof.
  intros Hall Hex. induction Hex as [q qs Hq|q qs _ IH];
    apply Forall_cons_1 in Hall as [Hq' Hall];
    cbn [qsum fold_right length]; fold (qsum qs);
    rewrite Nat2Z.inj_succ; unfold Z.succ; rewrite inject_Z_plus;
    change (inject_Z 1) with 1.
  - pose proof (qsum_upper qs hi Hall). lra.
  - specialize (IH Hall). lra.
Qed.

(** With exactly eight corners the scaled sum is their mean, so it stays
    between any bounds that hold of every corner. *)
Lemma center_coord_bounds a l lo hi :
  length l = 8%nat ->
  Forall (fun c => lo <= coord a c <= hi) l ->
  lo <= coord a (get_center l) <= hi.
Proof.
  intros Hlen Hall.
  rewrite (coord_proper a _ _ (get_center_vsum l)), coord_vscale, coord_vsum.
  pose proof (qsum_lower (coord a <$> l) lo) as Hlo.
  pose proof (qsum_upper (coord a <$> l) hi) as Hhi.
  rewrite length_fmap, Hlen, Forall_fmap in Hlo, Hhi.
  change (inject_Z (Z.of_nat 8)) with 8 in *.
  rewrite Forall_forall in Hall, Hlo, Hhi.
  assert (lo * 8 <= qsum (coord a <$> l)) by (apply Hlo; intros; by apply Hall).
  assert (qsum (coord a <$> l) <= hi * 8) by (apply Hhi; intros; by apply Hall).
  lra.
Qed.

Lemma center_coord_below a l hi :
  length l = 8%nat ->
  Forall (fun c => coord a c <= hi) l ->
  Exists (fun c => coord a c < hi) l ->
  coord a (get_center l) < hi.
Proof.
  intros Hlen Hall Hex.
  rewrite (coord_proper a _ _ (get_center_vsum l)), coord_vscale, coord_vsum.
  pose proof (qsum_upper_strict (coord a <$> l) hi) as Hhi.
  rewrite length_fmap, Hlen, Forall_fmap, Exists_fmap in Hhi.
  change (inject_Z (Z.of_nat 8)) with 8 in *. specialize (Hhi Hall Hex). lra.
Qed.
End SumBounds.

(** ** Properties of [floor] and [get_center] *)

Lemma floor_coord a v : coord a (floor v) = inject_Z (Qfloor (coord a v)).
Proof. by destruct a. Qed.

(** [floor] rounds each component down: the result is at most the
    argument and less than one below it, componentwise. *)
Theorem floor_bounds v : (floor v <= v)%vec /\ (v < floor v + ones)%vec.
Proof.
  rewrite vle_coord, vlt_coord. split; intros a.
  - rewrite floor_coord. apply Qfloor_le.
  - rewrite coord_vadd, floor_coord. pose proof (Qlt_floor (coord a v)).
    replace (coord a ones) with 1 by (by destruct a). qlra.
Qed.

(** [floor] leaves a vector where it is exactly when its components are
    integers. *)
Lemma floor_fixed v : floor v ≡ v <-> forall a, exists k : Z, coord a v == inject_Z k.
Proof.
  rewrite veq_coord. setoid_rewrite floor_coord. split; intros H a.
  - exists (Qfloor (coord a v)). by rewrite H.
  - destruct (H a) as [k Hk]. by rewrite (Qfloor_comp _ _ Hk), Qfloor_Z.
Qed.

(** [floor] selects the unit cell: a vector inside the half-open cell
    with integer corner (a, b, c) is floored to exactly that corner. *)
Theorem floor_cell v a b c :
  (vec_of_ints a b c <= v)%vec ->
  (v < vec_of_ints (a + 1) (b + 1) (c + 1))%vec ->
  floor v = vec_of_ints a b c.
Proof.
  intros (H1 & H2 & H3) (H4 & H5 & H6). unfold floor, vec_of_ints in *.
  cbn [vx vy vz] in *. f_equal; f_equal; by apply Qfloor_unique.
Qed.

Lemma floor_cell_witness :
  floor (mkVec 2.5 (-1.25) 0) = vec_of_ints 2 (-2) 0.
Proof. apply floor_cell; vec_decide. Defined.

(** [floor] commutes with translation by an integer vector. *)
Theorem floor_translate v a b c :
  floor (v + vec_of_ints a b c) ≡ (floor v + vec_of_ints a b c)%vec.
Proof.
  unfold floor, vadd, vec_of_ints. cbn [vx vy vz].
  rewrite !Qfloor_add_Z. repeat split; cbn [vx vy vz]; by rewrite inject_Z_plus.
Qed.


(** On a box of eight corners [get_center] commutes with translation:
    moving every corner by [t] moves the centre by [t]. *)
Theorem get_center_translate bbox t :
  length bbox = 8%nat ->
  get_center ((fun c => (c + t)%vec) <$> bbox) ≡ (get_center bbox + t)%vec.
Proof.
  intros Hlen. rewrite !get_center_vsum, vsum_translate, Hlen.
  generalize (vsum bbox). intros s. vec_simpl. repeat split; simpl; ring.
Qed.

Lemma get_center_translate_witness :
  get_center ((fun c => (c + ones)%vec) <$> sample_box)
  ≡ (get_center sample_box + ones)%vec.
Proof. by apply get_center_translate. Defined.

(** The centre of eight corners lies in every box that contains the
    corners. *)
Theorem get_center_in_box bbox lo hi :
  length bbox = 8%nat ->
  Forall (fun c => (lo <= c)%vec /\ (c <= hi)%vec) bbox ->
  (lo <= get_center bbox)%vec /\ (get_center bbox <= hi)%vec.
Proof.
  intros Hlen Hall. rewrite !vle_coord.
  enough (forall a, coord a lo <= coord a (get_center bbox) <= coord a hi)
    by (split; intros a; by apply H).
  intros a. apply center_coord_bounds; [done|].
  eapply Forall_impl; [exact Hall|]. intros c [H1 H2].
  rewrite vle_coord in H1, H2. split; [apply H1 | apply H2].
Qed.

Lemma get_center_in_box_witness :
  (mkVec 2 (-3) 0 <= get_center sample_box)%vec
  /\ (get_center sample_box <= mkVec 3 (-1) 0.5)%vec.
Proof.
  apply get_center_in_box; [done|].
  repeat constructor; vec_decide.
Defined.
