(* ===== verification/BoundBox.v ===== *)
(** * BoundBox: the host's axis-aligned bounding box

    The host keeps, for every object, the bounding box of its mesh in local
    space as a list of eight corners ([Object.bound_box]).  This file models
    how that list is derived from the vertex coordinates (componentwise
    minimum and maximum, corners in the host's order, the box from -1 to 1
    for a mesh with no vertex) and relates it to [get_center]: the centre
    of a bounding box is the midpoint of its extreme corners. *)

From Stdlib Require Import Qminmax.
From S2P Require Import Prelude Vector Pivot.

Local Open Scope Q_scope.

(** ** Definitions *)

Definition vmin (u v : Vec) : Vec :=
  mkVec (Qmin (vx u) (vx v)) (Qmin (vy u) (vy v)) (Qmin (vz u) (vz v)).

Definition vmax (u v : Vec) : Vec :=
  mkVec (Qmax (vx u) (vx v)) (Qmax (vy u) (vy v)) (Qmax (vz u) (vz v)).

(** Extremes of a non-empty list of coordinates, head given apart. *)
Definition bb_min (c : Vec) (cs : list Vec) : Vec := fold_left vmin cs c.
Definition bb_max (c : Vec) (cs : list Vec) : Vec := fold_left vmax cs c.

(** The eight corners of the box from [lo] to [hi], in the host's order. *)
Definition box_corners (lo hi : Vec) : list Vec :=
  [ mkVec (vx lo) (vy lo) (vz lo); mkVec (vx lo) (vy lo) (vz hi);
    mkVec (vx lo) (vy hi) (vz hi); mkVec (vx lo) (vy hi) (vz lo);
    mkVec (vx hi) (vy lo) (vz lo); mkVec (vx hi) (vy lo) (vz hi);
    mkVec (vx hi) (vy hi) (vz hi); mkVec (vx hi) (vy hi) (vz lo) ].

(** The box the host reports for a mesh without vertices. *)
Definition default_box : list Vec :=
  box_corners (vec_of_ints (-1) (-1) (-1)) (vec_of_ints 1 1 1).

Definition bound_box_of (cs : list Vec) : list Vec :=
  match cs with
  | [] => default_box
  | c :: cs' => box_corners (bb_min c cs') (bb_max c cs')
  end.

(** All points of [cs] have their [a]-coordinate in the interval from [lo]
    to [hi]: the points lie in an axis-aligned slab. *)
Definition in_slab (a : axis) (lo hi : Q) (cs : list Vec) : Prop :=
  Forall (fun p => lo <= coord a p <= hi) cs.

(** ** Minimum and maximum *)

Lemma coord_vmin a u v : coord a (vmin u v) = Qmin (coord a u) (coord a v).
Proof. by destruct a. Qed.

Lemma coord_vmax a u v : coord a (vmax u v) = Qmax (coord a u) (coord a v).
Proof. by destruct a. Qed.

#[export] Instance vmin_proper : Proper ((≡) ==> (≡) ==> (≡)) vmin.
Proof.
  intros u u' Hu v v' Hv. apply veq_coord. intros a.
  by rewrite !coord_vmin, Hu, Hv.
Qed.

#[export] Instance vmax_proper : Proper ((≡) ==> (≡) ==> (≡)) vmax.
Proof.
  intros u u' Hu v v' Hv. apply veq_coord. intros a.
  by rewrite !coord_vmax, Hu, Hv.
Qed.

Lemma vmin_translate u v t : vmin (u + t) (v + t) ≡ (vmin u v + t)%vec.
Proof.
  apply veq_coord. intros a.
  rewrite coord_vmin, !coord_vadd, coord_vmin. apply Q.plus_min_distr_r.
Qed.

Lemma vmax_translate u v t : vmax (u + t) (v + t) ≡ (vmax u v + t)%vec.
Proof.
  apply veq_coord. intros a.
  rewrite coord_vmax, !coord_vadd, coord_vmax. apply Q.plus_max_distr_r.
Qed.

#[export] Instance fold_vmin_proper : Proper ((≡) ==> (≡) ==> (≡)) (fold_left vmin).
Proof.
  intros l l' Hl. induction Hl as [|d d' l l' Hd _ IH]; intros c c' Hc; simpl;
    [done|]. apply IH. by rewrite Hc, Hd.
Qed.

#[export] Instance fold_vmax_proper : Proper ((≡) ==> (≡) ==> (≡)) (fold_left vmax).
Proof.
  intros l l' Hl. induction Hl as [|d d' l l' Hd _ IH]; intros c c' Hc; simpl;
    [done|]. apply IH. by rewrite Hc, Hd.
Qed.

(** ** Extremes of a list *)

Section Extremes.
Implicit Types (c p t : Vec) (cs : list Vec) (a : axis).

Lemma bb_min_coord_le a c cs p :
  p ∈ c :: cs -> coord a (bb_min c cs) <= coord a p.
Proof.
  unfold bb_min. revert c p. induction cs as [|d cs IH]; intros c p Hp; simpl.
  - apply list_elem_of_singleton in Hp as ->. lra.
  - pose proof (IH (vmin c d) (vmin c d) (list_elem_of_here _ _)) as Hstep.
    rewrite coord_vmin in Hstep.
    pose proof (Q.le_min_l (coord a c) (coord a d)).
    pose proof (Q.le_min_r (coord a c) (coord a d)).
    apply elem_of_cons in Hp as [->|Hp]; [lra|].
    apply elem_of_cons in Hp as [->|Hp]; [lra|].
    apply IH. by right.
Qed.

Lemma bb_max_coord_ge a c cs p :
  p ∈ c :: cs -> coord a p <= coord a (bb_max c cs).
Proof.
  unfold bb_max. revert c p. induction cs as [|d cs IH]; intros c p Hp; simpl.
  - apply list_elem_of_singleton in Hp as ->. lra.
  - pose proof (IH (vmax c d) (vmax c d) (list_elem_of_here _ _)) as Hstep.
    rewrite coord_vmax in Hstep.
    pose proof (Q.le_max_l (coord a c) (coord a d)).
    pose proof (Q.le_max_r (coord a c) (coord a d)).
    apply elem_of_cons in Hp as [->|Hp]; [lra|].
    apply elem_of_cons in Hp as [->|Hp]; [lra|].
    apply IH. by right.
Qed.

(** The extremes are attained: along each axis some point of the list has
    the coordinate of the minimum (of the maximum). *)
Lemma bb_min_attained a c cs :
  exists p, p ∈ c :: cs /\ coord a p == coord a (bb_min c cs).
Proof.
  unfold bb_min. revert c. induction cs as [|d cs IH]; intros c; simpl.
  - exists c. split; [left | reflexivity].
  - destruct (IH (vmin c d)) as (p & Hp & Heq).
    apply elem_of_cons in Hp as [->|Hp]; [|exists p; split; [by do 2 right|done]].
    rewrite coord_vmin in Heq.
    destruct (Q.min_dec (coord a c) (coord a d)) as [Hm|Hm]; rewrite Hm in Heq.
    + exists c. split; [left | done].
    + exists d. split; [right; left | done].
Qed.

Lemma bb_max_attained a c cs :
  exists p, p ∈ c :: cs /\ coord a p == coord a (bb_max c cs).
Proof.
  unfold bb_max. revert c. induction cs as [|d cs IH]; intros c; simpl.
  - exists c. split; [left | reflexivity].
  - destruct (IH (vmax c d)) as (p & Hp & Heq).
    apply elem_of_cons in Hp as [->|Hp]; [|exists p; split; [by do 2 right|done]].
    rewrite coord_vmax in Heq.
    destruct (Q.max_dec (coord a c) (coord a d)) as [Hm|Hm]; rewrite Hm in Heq.
    + exists c. split; [left | done].
    + exists d. split; [right; left | done].
Qed.

Lemma bb_min_translate c cs t :
  bb_min (c + t) ((fun p => (p + t)%vec) <$> cs) ≡ (bb_min c cs + t)%vec.
Proof.
  unfold bb_min. revert c. induction cs as [|d cs IH]; intros c; [done|].
  cbn [fmap list_fmap fold_left]. rewrite <- IH.
  apply fold_vmin_proper; [done|]. apply vmin_translate.
Qed.

Lemma bb_max_translate c cs t :
  bb_max (c + t) ((fun p => (p + t)%vec) <$> cs) ≡ (bb_max c cs + t)%vec.
Proof.
  unfold bb_max. revert c. induction cs as [|d cs IH]; intros c; [done|].
  cbn [fmap list_fmap fold_left]. rewrite <- IH.
  apply fold_vmax_proper; [done|]. apply vmax_translate.
Qed.
End Extremes.

(** ** Corners *)

Section Corners.
Implicit Types (lo hi c p t : Vec) (cs : list Vec) (a : axis).

Lemma box_corners_length lo hi : length (box_corners lo hi) = 8%nat.
Proof. reflexivity. Qed.

Lemma bound_box_length cs : length (bound_box_of cs) = 8%nat.
Proof. by destruct cs. Qed.

Lemma corner_coord a lo hi p :
  p ∈ box_corners lo hi -> coord a p = coord a lo \/ coord a p = coord a hi.
Proof.
  unfold box_corners. rewrite !elem_of_cons, elem_of_nil.
  intros H. destruct_or!; subst; destruct a; auto.
Qed.

Lemma box_corners_translate lo hi t :
  box_corners (lo + t) (hi + t) = (fun p => (p + t)%vec) <$> box_corners lo hi.
Proof. reflexivity. Qed.

#[export] Instance box_corners_proper : Proper ((≡) ==> (≡) ==> (≡)) box_corners.
Proof.
  intros [a b c] [a' b' c'] (H1 & H2 & H3) [d e f] [d' e' f'] (H4 & H5 & H6).
  simpl in *. unfold box_corners. cbn [vx vy vz]. repeat constructor; done.
Qed.

Lemma get_center_corners lo hi :
  get_center (box_corners lo hi) ≡ ((lo + hi) * (1 # 2))%vec.
Proof.
  rewrite get_center_vsum. destruct lo, hi. repeat split; simpl; ring.
Qed.

Lemma corners_in_slab a lo hi l h :
  l <= coord a lo -> coord a hi <= h -> coord a lo <= coord a hi ->
  in_slab a l h (box_corners lo hi).
Proof.
  intros Hl Hh Hle. apply Forall_forall. intros p Hp.
  destruct (corner_coord a lo hi p Hp) as [-> | ->]; lra.
Qed.

Lemma bound_box_in_slab a l h cs :
  cs <> [] -> in_slab a l h cs -> in_slab a l h (bound_box_of cs).
Proof.
  destruct cs as [|c cs]; [done|]. intros _ Hin. unfold in_slab in Hin.
  rewrite Forall_forall in Hin. cbn [bound_box_of].
  destruct (bb_min_attained a c cs) as (p & Hp & Hpe).
  destruct (bb_max_attained a c cs) as (q & Hq & Hqe).
  pose proof (Hin p Hp). pose proof (Hin q Hq).
  pose proof (bb_min_coord_le a c cs q Hq).
  apply corners_in_slab; lra.
Qed.

Lemma bound_box_translate cs t :
  cs <> [] ->
  bound_box_of ((fun p => (p + t)%vec) <$> cs)
  ≡ (fun p => (p + t)%vec) <$> bound_box_of cs.
Proof.
  destruct cs as [|c cs]; [done|]. intros _.
  cbn [fmap list_fmap bound_box_of]. rewrite <- box_corners_translate.
  apply box_corners_proper; [apply bb_min_translate | apply bb_max_translate].
Qed.
End Corners.

#[export] Instance bound_box_of_proper : Proper ((≡) ==> (≡)) bound_box_of.
Proof.
  intros cs cs' H. destruct H as [|c c' cs cs' Hc Hcs]; [done|].
  cbn [bound_box_of]. apply box_corners_proper; unfold bb_min, bb_max;
    [by apply fold_vmin_proper | by apply fold_vmax_proper].
Qed.

#[export] Instance in_slab_proper a l h : Proper ((≡) ==> iff) (in_slab a l h).
Proof.
  intros cs cs' H. unfold in_slab. induction H as [|c c' cs cs' Hc _ IH]; [done|].
  by rewrite !Forall_cons, IH, Hc.
Qed.

Lemma in_slab_proper_bounds a l h l' h' cs :
  l' == l -> h' == h -> in_slab a l h cs -> in_slab a l' h' cs.
Proof.
  intros Hl Hh H. unfold in_slab. eapply Forall_impl; [exact H|].
  intros v. cbn beta. lra.
Qed.

(** ** The centre and the index of a bounding box *)

Lemma center_coord_mid a c cs :
  coord a (get_center (bound_box_of (c :: cs)))
  == (coord a (bb_min c cs) + coord a (bb_max c cs)) * (1 # 2).
Proof.
  cbn [bound_box_of].
  by rewrite (coord_proper a _ _ (get_center_corners _ _)), coord_vscale, coord_vadd.
Qed.

Lemma center_coord_in_slab a l h cs :
  cs <> [] -> in_slab a l h cs ->
  l <= coord a (get_center (bound_box_of cs)) <= h.
Proof.
  intros Hne Hin. apply center_coord_bounds; [apply bound_box_length|].
  by apply bound_box_in_slab.
Qed.

(** A mesh that no plane among [k] and [k + 1] crosses, and whose centre
    has [k] as the integer part of its coordinate, lies between the two
    planes. *)
Lemma cell_of_floor a k cs :
  Qfloor (coord a (get_center (bound_box_of cs))) = k ->
  Forall (fun v => inject_Z k <= coord a v) cs
    \/ Forall (fun v => coord a v <= inject_Z k) cs ->
  Forall (fun v => inject_Z (k + 1) <= coord a v) cs
    \/ Forall (fun v => coord a v <= inject_Z (k + 1)) cs ->
  in_slab a (inject_Z k) (inject_Z (k + 1)) cs.
Proof.
  destruct cs as [|c cs]; [constructor|]. intros Hk Hlo Hhi.
  pose proof (Qfloor_le (coord a (get_center (bound_box_of (c :: cs))))) as Hfl.
  pose proof (Qlt_floor (coord a (get_center (bound_box_of (c :: cs))))) as Hfu.
  rewrite Hk in Hfl, Hfu. revert Hfl Hfu. rewrite center_coord_mid.
  destruct (bb_min_attained a c cs) as (p & Hp & Hpe).
  destruct (bb_max_attained a c cs) as (q & Hq & Hqe).
  intros Hfl Hfu. rewrite !Forall_forall in Hlo, Hhi. apply Forall_forall.
  intros v Hv. pose proof (bb_min_coord_le a c cs v Hv).
  pose proof (bb_max_coord_ge a c cs v Hv).
  destruct Hlo as [Hlo|Hlo], Hhi as [Hhi|Hhi];
    pose proof (Hlo p Hp); pose proof (Hlo q Hq); pose proof (Hlo v Hv);
    pose proof (Hhi p Hp); pose proof (Hhi q Hq); pose proof (Hhi v Hv);
    push_inject; lra.
Qed.

(** The grid index selects the cell: when the vertices of a mesh lie
    between the planes [k] and [k + 1] of an axis, and not all of them on
    the upper plane, the floor of the centre of its bounding box is [k]
    along that axis. *)
Theorem index_of_slab a k cs :
  in_slab a (inject_Z k) (inject_Z (k + 1)) cs ->
  Exists (fun p => coord a p < inject_Z (k + 1)) cs ->
  coord a (floor (get_center (bound_box_of cs))) = inject_Z k.
Proof.
  intros Hin Hex. rewrite floor_coord. f_equal.
  assert (Hne : cs <> []) by (intros ->; by apply Exists_nil in Hex).
  pose proof (center_coord_in_slab a _ _ cs Hne Hin) as [Hlo _].
  apply Qfloor_unique; [done|].
  destruct cs as [|c cs]; [done|]. rewrite center_coord_mid.
  destruct (bb_min_attained a c cs) as (p & Hp & Hpe).
  apply Exists_exists in Hex as (q & Hq & Hlt).
  pose proof (bb_min_coord_le a c cs q Hq).
  unfold in_slab in Hin. rewrite Forall_forall in Hin.
  destruct (bb_max_attained a c cs) as (r & Hr & Hre).
  pose proof (Hin r Hr). lra.
Qed.

Lemma index_of_slab_witness :
  coord AxisZ (floor (get_center (bound_box_of [mkVec 2 0 4; mkVec 3 1 5])))
  = inject_Z 4.
Proof.
  apply index_of_slab.
  - repeat constructor; by vm_compute.
  - apply Exists_cons_hd. by vm_compute.
Defined.

(** The cell of the index holds the whole mesh: when [floor] of the
    centre of the bounding box is [k] along an axis and no vertex is
    strictly on the other side of the grid planes [k] and [k + 1], then
    every vertex lies between these two planes. *)
Theorem slab_of_index a k cs :
  coord a (floor (get_center (bound_box_of cs))) = inject_Z k ->
  Forall (fun v => inject_Z k <= coord a v) cs
    \/ Forall (fun v => coord a v <= inject_Z k) cs ->
  Forall (fun v => inject_Z (k + 1) <= coord a v) cs
    \/ Forall (fun v => coord a v <= inject_Z (k + 1)) cs ->
  in_slab a (inject_Z k) (inject_Z (k + 1)) cs.
Proof.
  rewrite floor_coord. intros Hk. injection Hk as Hk. by apply cell_of_floor.
Qed.

Lemma slab_of_index_witness :
  in_slab AxisX (inject_Z 2) (inject_Z (2 + 1)) [mkVec 2 0 4; mkVec 3 1 5].
Proof.
  apply slab_of_index; [done|left|right]; repeat constructor; by vm_compute.
Defined.
