(* ===== verification/Mesh.v ===== *)
(** * Mesh: the interface of the host's mesh kernel

    The script edits a mesh through two operators of the host's [bmesh]
    module, [bisect_plane] and [split_edges], and later asks the host to
    separate the mesh by loose parts.  None of that code belongs to the
    repository, so this file states what the script relies on as an
    interface: [BMeshOps] names the operations, [BMeshLaws] the promises
    the theorems about the script are proved against.  [cut_plane] is the
    way the script combines the two operators for one plane; the laws are
    about that combination.  That a cut separates the mesh along its plane
    is no law: it depends on the mesh.  [cuts_separate] says it of a mesh
    and a sequence of planes, and [BMeshSeparates] of a kernel on which it
    holds for every mesh.  [PolySoup] is such a kernel; [Weld] satisfies
    the laws, and separates the meshes without a pinch. *)

From S2P Require Import Prelude Vector.

Local Open Scope Q_scope.

(** ** Planes and half-spaces *)

(** Signed distance of [v] from the plane through [co] with normal [no],
    scaled by the length of [no]. *)
Definition plane_dist (co no v : Vec) : Q := dot (v - co) no.

Definition above (co no : Vec) (cs : list Vec) : Prop :=
  Forall (fun v => 0 <= plane_dist co no v) cs.

Definition below (co no : Vec) (cs : list Vec) : Prop :=
  Forall (fun v => plane_dist co no v <= 0) cs.

(** No point of [cs] is strictly on the other side of the plane than
    another: the plane does not cross the set. *)
Definition one_sided (co no : Vec) (cs : list Vec) : Prop :=
  above co no cs \/ below co no cs.

(** The closed half-space of the points [v] with [dot a v <= b]. *)
Definition within (a : Vec) (b : Q) (cs : list Vec) : Prop :=
  Forall (fun v => dot a v <= b) cs.

(** ** Operations of the kernel *)

Class BMeshOps (mesh elem : Type) : Type := {
  (** [bm.verts[:]], [bm.edges[:]], [bm.faces[:]] *)
  bm_verts : mesh -> list elem;
  bm_edges : mesh -> list elem;
  bm_faces : mesh -> list elem;
  (** [isinstance(e, bmesh.types.BMEdge)] *)
  is_edge : elem -> bool;
  (** coordinates of the vertices *)
  coords : mesh -> list Vec;
  (** [bmesh.ops.bisect_plane(bm, geom, plane_co, plane_no)]: the mesh after
      the cut and the output slot [geom_cut] *)
  bisect_plane : mesh -> list elem -> Vec -> Vec -> mesh * list elem;
  (** [bmesh.ops.split_edges(bm, edges)] *)
  split_edges : mesh -> list elem -> mesh;
  (** the pieces [mesh.separate(type='LOOSE')] makes objects of *)
  loose_parts : mesh -> list mesh;
  (** the mesh with every vertex moved by [f] *)
  transform : (Vec -> Vec) -> mesh -> mesh;
}.

Section Protocol.
Context {mesh elem : Type} `{!BMeshOps mesh elem}.

(** All geometry of a mesh, as the script passes it to [bisect_plane]. *)
Definition bm_geom (m : mesh) : list elem :=
  bm_verts m ++ bm_edges m ++ bm_faces m.

(** One cut: bisect all geometry by the plane, then split the mesh along
    the edges among the geometry the bisection reports on the plane. *)
Definition cut_plane (m : mesh) (co no : Vec) : mesh :=
  let '(m1, geom_cut) := bisect_plane m (bm_geom m) co no in
  split_edges m1 (List.filter is_edge geom_cut).

(** A sequence of cuts, one plane after the other. *)
Definition cut_planes (m : mesh) (planes : list (Vec * Vec)) : mesh :=
  fold_left (fun m pl => cut_plane m pl.1 pl.2) planes m.

(** Every loose part of [m] is on one side of the plane. *)
Definition parts_one_sided (co no : Vec) (m : mesh) : Prop :=
  forall p, p ∈ loose_parts m -> one_sided co no (coords p).

(** Every cut of the sequence separates the mesh it is made on: after it
    no loose part crosses the plane of the cut. *)
Fixpoint cuts_separate (m : mesh) (planes : list (Vec * Vec)) : Prop :=
  match planes with
  | [] => True
  | pl :: planes' =>
      parts_one_sided pl.1 pl.2 (cut_plane m pl.1 pl.2) /\
      cuts_separate (cut_plane m pl.1 pl.2) planes'
  end.
End Protocol.

(** ** Laws of the kernel *)

Class BMeshLaws (mesh elem : Type) `{!BMeshOps mesh elem} : Prop := {
  (** moving a mesh moves its coordinates *)
  coords_transform (f : Vec -> Vec) (m : mesh) :
    coords (transform f m) = f <$> coords m;
  (** the loose parts partition the vertices *)
  coords_loose_parts (m : mesh) (v : Vec) :
    v ∈ coords m <-> exists p, p ∈ loose_parts m /\ v ∈ coords p;
  (** a cut refines the parts and stays inside their convex hulls: every
      part after the cut comes from a part before it, and lies in every
      half-space that part lay in *)
  cut_refines (m : mesh) (co no : Vec) (p' : mesh) :
    p' ∈ loose_parts (cut_plane m co no) ->
    exists p, p ∈ loose_parts m /\
      forall a b, within a b (coords p) -> within a b (coords p');
  (** a cut keeps every vertex of the mesh *)
  cut_keeps (m : mesh) (co no : Vec) (v : Vec) :
    v ∈ coords m -> v ∈ coords (cut_plane m co no);
  (** the vertices a cut adds are on the plane *)
  cut_adds (m : mesh) (co no : Vec) (v : Vec) :
    v ∈ coords (cut_plane m co no) -> v ∈ coords m \/ plane_dist co no v == 0;
}.

(** A kernel whose cuts separate every mesh. *)
Class BMeshSeparates (mesh elem : Type) `{!BMeshOps mesh elem} : Prop :=
  cut_one_sided (m : mesh) (co no : Vec) :
    parts_one_sided co no (cut_plane m co no).

(** ** Consequences of the laws *)

Section HalfSpaces.
Implicit Types (co no a v : Vec) (cs : list Vec).

#[export] Instance plane_dist_proper :
  Proper ((≡) ==> (≡) ==> (≡) ==> Qeq) plane_dist.
Proof. intros co co' Hco no no' Hno v v' Hv. unfold plane_dist. by rewrite Hco, Hno, Hv. Qed.

#[export] Instance above_proper co no : Proper ((≡) ==> iff) (above co no).
Proof.
  intros cs cs' H. unfold above. induction H as [|c c' cs cs' Hc _ IH]; [done|].
  by rewrite !Forall_cons, IH, Hc.
Qed.

#[export] Instance below_proper co no : Proper ((≡) ==> iff) (below co no).
Proof.
  intros cs cs' H. unfold below. induction H as [|c c' cs cs' Hc _ IH]; [done|].
  by rewrite !Forall_cons, IH, Hc.
Qed.

#[export] Instance one_sided_proper co no : Proper ((≡) ==> iff) (one_sided co no).
Proof. intros cs cs' H. unfold one_sided. by rewrite H. Qed.

Lemma plane_dist_dot co no v : plane_dist co no v == dot no v - dot no co.
Proof. unfold plane_dist. rewrite dot_sub_l, !(dot_comm _ no). reflexivity. Qed.

Lemma below_within co no cs : below co no cs <-> within no (dot no co) cs.
Proof.
  unfold below, within. apply Forall_proper; [|done]. intros v.
  rewrite plane_dist_dot. split; lra.
Qed.

Lemma above_within co no cs :
  above co no cs <-> within (vzero - no) (- dot no co) cs.
Proof.
  unfold above, within. apply Forall_proper; [|done]. intros v.
  rewrite plane_dist_dot, dot_sub_l, dot_zero_l. split; lra.
Qed.
End HalfSpaces.

Section Cuts.
Context {mesh elem : Type} `{!BMeshOps mesh elem} `{!BMeshLaws mesh elem}.
Implicit Types (m p : mesh) (co no : Vec) (planes : list (Vec * Vec)).

(** A cut keeps the parts on the side of every plane they did not cross
    before. *)
Lemma cut_preserves_one_sided m co no co' no' :
  parts_one_sided co' no' m -> parts_one_sided co' no' (cut_plane m co no).
Proof.
  intros Hm p' Hp'. destruct (cut_refines m co no p' Hp') as (p & Hp & Hin).
  destruct (Hm p Hp) as [Ha|Hb].
  - left. apply (proj2 (above_within co' no' (coords p'))), Hin.
    exact (proj1 (above_within co' no' (coords p)) Ha).
  - right. apply (proj2 (below_within co' no' (coords p'))), Hin.
    exact (proj1 (below_within co' no' (coords p)) Hb).
Qed.

Lemma cut_planes_snoc m planes co no :
  cut_planes m (planes ++ [(co, no)]) = cut_plane (cut_planes m planes) co no.
Proof. unfold cut_planes. by rewrite fold_left_app. Qed.

(** Cuts made before stay in force when more planes follow. *)
Lemma cut_planes_preserve m planes co no :
  parts_one_sided co no m -> parts_one_sided co no (cut_planes m planes).
Proof.
  intros Hm. induction planes as [|[co' no'] planes IH] using rev_ind; [done|].
  rewrite cut_planes_snoc. by apply cut_preserves_one_sided.
Qed.

(** After a sequence of cuts that separate, no loose part crosses any of
    the planes. *)
Lemma cut_planes_one_sided m planes co no :
  cuts_separate m planes -> (co, no) ∈ planes ->
  parts_one_sided co no (cut_planes m planes).
Proof.
  revert m. induction planes as [|[co' no'] planes IH]; intros m;
    [by intros _ ?%elem_of_nil|].
  cbn [cuts_separate fst snd]. intros [Hcut Hrest] [[= <- <-]|Hin]%elem_of_cons.
  - by apply (cut_planes_preserve (cut_plane m co no)).
  - by apply (IH (cut_plane m co' no')).
Qed.

(** On a kernel that separates, every sequence of cuts does. *)
Lemma cuts_separate_always `{!BMeshSeparates mesh elem} m planes :
  cuts_separate m planes.
Proof.
  revert m. induction planes as [|[co no] planes IH]; intros m; [done|].
  split; [apply cut_one_sided | apply IH].
Qed.

(** A cut adds no vertex outside a half-space that holds the mesh. *)
Lemma cut_plane_within m co no a b :
  within a b (coords m) -> within a b (coords (cut_plane m co no)).
Proof.
  unfold within at 1. rewrite Forall_forall. intros Hm.
  apply Forall_forall. intros v (p' & Hp' & Hv)%coords_loose_parts.
  destruct (cut_refines m co no p' Hp') as (p & Hp & Hin).
  revert v Hv. apply Forall_forall, Hin, Forall_forall. intros v Hv.
  apply Hm, coords_loose_parts. eauto.
Qed.

Lemma cut_planes_within m planes a b :
  within a b (coords m) -> within a b (coords (cut_planes m planes)).
Proof.
  intros Hm. induction planes as [|[co no] planes IH] using rev_ind; [done|].
  rewrite cut_planes_snoc. by apply cut_plane_within.
Qed.

(** A sequence of cuts keeps every vertex, and adds vertices on its planes
    only. *)
Lemma cut_planes_keeps m planes v :
  v ∈ coords m -> v ∈ coords (cut_planes m planes).
Proof.
  intros Hv. induction planes as [|[co no] planes IH] using rev_ind; [done|].
  rewrite cut_planes_snoc. by apply cut_keeps.
Qed.

Lemma cut_planes_adds m planes v :
  v ∈ coords (cut_planes m planes) ->
  v ∈ coords m \/ exists pl, pl ∈ planes /\ plane_dist pl.1 pl.2 v == 0.
Proof.
  induction planes as [|[co no] planes IH] using rev_ind; [by left|].
  rewrite cut_planes_snoc. intros [Hv|Hv]%cut_adds.
  - destruct (IH Hv) as [?|(pl & ? & ?)]; [by left|right].
    exists pl. split; [|done]. apply elem_of_app. by left.
  - right. exists (co, no). split; [|done]. apply elem_of_app. right. left.
Qed.
End Cuts.
