(* ===== verification/PolySoup.v ===== *)
(** * PolySoup: a reference implementation of the mesh kernel

    A mesh is a list of loose parts, a part a list of faces, a face the
    loop of its corner positions.  Two faces of a part hang together
    through an edge they share, with the same end points.  [bisect_plane]
    clips every selected face by the plane and reports the geometry on it;
    [split_edges] takes a part apart along the reported edges and regroups
    its faces by the edges that remain.  The file ends with the proof that
    these operations satisfy the laws of [Mesh]: the theorems about the
    script therefore speak of at least this kernel, and can be run on it. *)

From stdpp Require Import numbers.
From S2P Require Import Prelude Vector Mesh.

Local Open Scope Q_scope.

(** ** Data *)

Abbreviation face := (list Vec).
Abbreviation part := (list face).
Abbreviation soup := (list part).

Inductive selem : Type :=
| SVert (p : Vec)
| SEdge (p q : Vec)
| SFace (i j : nat).

(** ** Decisions *)

#[export] Instance Q_eq_dec : EqDecision Q.
Proof. solve_decision. Defined.

#[export] Instance Vec_eq_dec : EqDecision Vec.
Proof. solve_decision. Defined.

#[export] Instance selem_eq_dec : EqDecision selem.
Proof. solve_decision. Defined.

#[export] Instance Qle_dec : RelDecision Qle.
Proof.
  intros x y. destruct (Qlt_le_dec y x); [right | by left].
  by apply Qlt_not_le.
Defined.

#[export] Instance Qlt_dec : RelDecision Qlt.
Proof.
  intros x y. destruct (Qlt_le_dec x y); [by left | right].
  by apply Qle_not_lt.
Defined.

#[export] Instance Qeq_dec' : RelDecision Qeq.
Proof. intros x y. apply Qeq_dec. Defined.

#[export] Instance one_sided_dec co no cs : Decision (one_sided co no cs).
Proof. unfold one_sided, above, below. apply _. Defined.

(** ** Faces *)

(** The edges of a face: each corner with the next, the last with the
    first. *)
Definition loop_edges (f : face) : list (Vec * Vec) :=
  match f with
  | [] => []
  | v :: f' => zip f (f' ++ [v])
  end.

(** A vector with its components as reduced fractions. *)
Definition vred (v : Vec) : Vec := mkVec (Qred (vx v)) (Qred (vy v)) (Qred (vz v)).

(** The point where the segment from [u] to [w] meets the plane, when the
    end points are strictly on opposite sides. *)
Definition crossing (co no u w : Vec) : list Vec :=
  let du := plane_dist co no u in
  let dw := plane_dist co no w in
  if decide (du * dw < 0)
  then [vred (u + (w - u) * (du / (du - dw)))]
  else [].

(** The loop with the crossing points inserted on the edges they cut. *)
Definition refine (co no : Vec) (f : face) : face :=
  loop_edges f ≫= fun e => e.1 :: crossing co no e.1 e.2.

Definition straddles (co no : Vec) (f : face) : Prop :=
  Exists (fun v => 0 < plane_dist co no v) f /\
  Exists (fun v => plane_dist co no v < 0) f.

#[export] Instance straddles_dec co no f : Decision (straddles co no f).
Proof. unfold straddles. apply _. Defined.

(** A face cut by the plane: the part on the side of the normal and the
    part on the other side, or the face itself when the plane does not
    cross it. *)
Definition bisect_face (co no : Vec) (f : face) : list face :=
  if decide (straddles co no f)
  then [ filter (fun v => 0 <= plane_dist co no v) (refine co no f);
         filter (fun v => plane_dist co no v <= 0) (refine co no f) ]
  else [f].

Definition on_plane (co no v : Vec) : Prop := plane_dist co no v == 0.

#[export] Instance on_plane_dec co no v : Decision (on_plane co no v).
Proof. unfold on_plane. apply _. Defined.

(** The vertices and the edges of a list of faces that lie on the plane. *)
Definition verts_on_plane (co no : Vec) (fs : list face) : list selem :=
  SVert <$> filter (on_plane co no) (mjoin fs).

Definition edges_on_plane (co no : Vec) (fs : list face) : list selem :=
  (fun e => SEdge e.1 e.2)
    <$> filter (fun e => on_plane co no e.1 /\ on_plane co no e.2)
               (fs ≫= loop_edges).

(** ** Adjacency *)

Definition same_edge (e e' : Vec * Vec) : bool :=
  (veqb e.1 e'.1 && veqb e.2 e'.2) || (veqb e.1 e'.2 && veqb e.2 e'.1).

Definition tags (x : selem) (e : Vec * Vec) : bool :=
  match x with
  | SEdge p q => same_edge e (p, q)
  | _ => false
  end.

Definition tagged (es : list selem) (e : Vec * Vec) : bool :=
  existsb (fun x => tags x e) es.

(** Two faces share an edge that is not among [es]. *)
Definition adjacent (es : list selem) (f g : face) : bool :=
  existsb (fun e => negb (tagged es e) && existsb (same_edge e) (loop_edges g))
          (loop_edges f).

(** The faces of a part regrouped by adjacency: a face joins the groups it
    touches and merges them. *)
Fixpoint group_faces (adj : face -> face -> bool) (fs : list face) : list part :=
  match fs with
  | [] => []
  | f :: fs' =>
      let gs := group_faces adj fs' in
      (f :: mjoin (List.filter (fun g => existsb (adj f) g) gs))
        :: List.filter (fun g => negb (existsb (adj f) g)) gs
  end.

(** ** The operations *)

Definition soup_coords (m : soup) : list Vec := mjoin (mjoin m).

Definition soup_verts (m : soup) : list selem := SVert <$> soup_coords m.

Definition soup_edges (m : soup) : list selem :=
  (fun e => SEdge e.1 e.2) <$> (mjoin m ≫= loop_edges).

Definition soup_faces (m : soup) : list selem :=
  mjoin (imap (fun i p => imap (fun j _ => SFace i j) p) m).

Definition soup_is_edge (x : selem) : bool :=
  match x with SEdge _ _ => true | _ => false end.

(** The faces of part [i], each cut when it is among [geom]. *)
Definition bisect_part (geom : list selem) (co no : Vec) (i : nat) (p : part)
    : part :=
  mjoin (imap (fun j f => if decide (SFace i j ∈ geom)
                          then bisect_face co no f else [f]) p).

(** Every face of every part cut: what [bisect_part] does when all the
    geometry is selected. *)
Definition bisect_all (co no : Vec) (m : soup) : soup :=
  (fun p => mjoin (bisect_face co no <$> p)) <$> m.

Definition soup_bisect_plane (m : soup) (geom : list selem) (co no : Vec)
    : soup * list selem :=
  let m1 := imap (bisect_part geom co no) m in
  (m1, verts_on_plane co no (mjoin m1) ++ edges_on_plane co no (mjoin m1)).

Definition soup_split_edges (m : soup) (es : list selem) : soup :=
  m ≫= group_faces (adjacent es).

(** One cut on a kernel that regroups the faces of a part by [adj]: every
    face is clipped, and the faces of every part are regrouped with the
    edges on the plane taken out. *)
Definition cut_with (adj : list selem -> face -> face -> bool) (co no : Vec)
    (m : soup) : soup :=
  bisect_all co no m
    ≫= group_faces (adj (edges_on_plane co no (mjoin (bisect_all co no m)))).

Definition soup_loose_parts (m : soup) : list soup := (fun p => [p]) <$> m.

Definition face_transform (f : Vec -> Vec) (fc : face) : face := f <$> fc.

Definition part_transform (f : Vec -> Vec) (p : part) : part :=
  face_transform f <$> p.

Definition soup_transform (f : Vec -> Vec) (m : soup) : soup :=
  part_transform f <$> m.

#[export] Instance soup_ops : BMeshOps soup selem := {
  bm_verts := soup_verts;
  bm_edges := soup_edges;
  bm_faces := soup_faces;
  is_edge := soup_is_edge;
  coords := soup_coords;
  bisect_plane := soup_bisect_plane;
  split_edges := soup_split_edges;
  loose_parts := soup_loose_parts;
  transform := soup_transform;
}.

(** ** Samples *)

(** A square in the plane z = 0 from (-1, -1) to (1, 1). *)
Definition square : soup :=
  [[[mkVec (-1) (-1) 0; mkVec 1 (-1) 0; mkVec 1 1 0; mkVec (-1) 1 0]]].

(** Two triangles that share the edge from (0, 0, 0) to (0, 2, 0), left
    and right of the plane x = 0. *)
Definition wedge : soup :=
  [[[mkVec 0 0 0; mkVec 0 2 0; mkVec (-1) 1 0];
    [mkVec 0 0 0; mkVec 1 1 0; mkVec 0 2 0]]].

(** ** Faces: edges, crossings and clipping *)

Section Faces.
Context (co no : Vec).
Implicit Types (f g : face) (u w v a : Vec) (e : Vec * Vec) (b : Q).

Lemma vred_equiv v : vred v ≡ v.
Proof. destruct v. repeat split; apply Qred_correct. Qed.

Lemma loop_edges_ends f e : e ∈ loop_edges f -> e.1 ∈ f /\ e.2 ∈ f.
Proof.
  destruct f as [|v f'], e as [x y]; [by intros ?%elem_of_nil|].
  unfold loop_edges. intros He. split.
  - eapply elem_of_zip_l, He.
  - apply elem_of_zip_r in He. simpl.
    apply elem_of_app in He as [?|Hy]; [by right|].
    apply list_elem_of_singleton in Hy as ->. left.
Qed.

(** The crossing point is strictly between the end points of its edge. *)
Lemma crossing_param u w :
  plane_dist co no u * plane_dist co no w < 0 ->
  let t := plane_dist co no u / (plane_dist co no u - plane_dist co no w) in
  0 < t < 1 /\ t * (plane_dist co no u - plane_dist co no w) == plane_dist co no u.
Proof.
  intros H t. set (du := plane_dist co no u) in *.
  set (dw := plane_dist co no w) in *.
  assert (Hne : ~ du - dw == 0) by nra.
  assert (Ht : t * (du - dw) == du) by (unfold t; field; exact Hne).
  split; [split; nra | done].
Qed.

Lemma dot_segment a u w t :
  dot a (u + (w - u) * t) == dot a u + t * (dot a w - dot a u).
Proof. unfold dot, vadd, vsub, vscale. cbn [vx vy vz]. ring. Qed.

Lemma plane_dist_segment u w t :
  plane_dist co no (u + (w - u) * t)
  == plane_dist co no u + t * (plane_dist co no w - plane_dist co no u).
Proof. rewrite !plane_dist_dot, dot_segment. ring. Qed.

Lemma crossing_on_plane u w v : v ∈ crossing co no u w -> on_plane co no v.
Proof.
  unfold crossing. case_decide as H; [|by intros ?%elem_of_nil].
  intros Hv%list_elem_of_singleton; subst. unfold on_plane.
  rewrite vred_equiv, plane_dist_segment.
  destruct (crossing_param u w H) as [_ Ht]. lra.
Qed.

(** A crossing point stays in every half-space that holds both end points
    of its edge. *)
Lemma crossing_within a b u w v :
  v ∈ crossing co no u w -> dot a u <= b -> dot a w <= b -> dot a v <= b.
Proof.
  unfold crossing. case_decide as H; [|by intros ?%elem_of_nil].
  intros Hv%list_elem_of_singleton Hu Hw; subst. rewrite vred_equiv, dot_segment.
  destruct (crossing_param u w H) as [[? ?] _]. nra.
Qed.

Lemma refine_elem f v :
  v ∈ refine co no f ->
  v ∈ f \/ exists e, e ∈ loop_edges f /\ v ∈ crossing co no e.1 e.2.
Proof.
  unfold refine. rewrite list_elem_of_bind. intros (e & Hv & He).
  apply elem_of_cons in Hv as [->|Hv]; [left | right; eauto].
  by apply loop_edges_ends.
Qed.

Lemma refine_within a b f : within a b f -> within a b (refine co no f).
Proof.
  unfold within. rewrite !Forall_forall. intros Hf v Hv.
  apply refine_elem in Hv as [Hv|(e & He & Hv)]; [by apply Hf|].
  apply loop_edges_ends in He as [H1 H2].
  eapply crossing_within; eauto.
Qed.

Lemma bisect_face_within a b f g :
  g ∈ bisect_face co no f -> within a b f -> within a b g.
Proof.
  unfold bisect_face. case_decide.
  - rewrite !elem_of_cons, elem_of_nil. intros [->|[->|[]]] Hf;
      apply Forall_filter_keep, refine_within, Hf.
  - by intros Hv%list_elem_of_singleton; subst.
Qed.

Lemma loop_edges_starts f v : v ∈ f -> exists e, e ∈ loop_edges f /\ e.1 = v.
Proof.
  intros Hv. destruct f as [|v0 f']; [by apply elem_of_nil in Hv|].
  unfold loop_edges. rewrite <- (fst_zip (v0 :: f') (f' ++ [v0])) in Hv
    by (rewrite length_app; cbn; lia).
  apply list_elem_of_fmap in Hv as (e & -> & He). eauto.
Qed.

(** Clipping keeps the corners of a face and adds corners on the plane. *)
Lemma refine_keeps f v : v ∈ f -> v ∈ refine co no f.
Proof.
  intros (e & He & <-)%loop_edges_starts. unfold refine.
  apply list_elem_of_bind. exists e. split; [left | done].
Qed.

Lemma bisect_face_keeps f v :
  v ∈ f -> exists g, g ∈ bisect_face co no f /\ v ∈ g.
Proof.
  intros Hv. unfold bisect_face. case_decide; [|exists f; split; [left|done]].
  apply refine_keeps in Hv.
  destruct (Qlt_le_dec (plane_dist co no v) 0) as [Hlt|Hle]; eexists.
  - split; [right; left|]. apply list_elem_of_filter. split; [lra|done].
  - split; [left|]. by apply list_elem_of_filter.
Qed.

Lemma bisect_face_adds f g v :
  g ∈ bisect_face co no f -> v ∈ g -> v ∈ f \/ on_plane co no v.
Proof.
  unfold bisect_face. case_decide.
  - rewrite !elem_of_cons, elem_of_nil.
    intros [->|[->|[]]] [_ [?|(e & _ & ?)]%refine_elem]%list_elem_of_filter;
      eauto using crossing_on_plane.
  - by intros ->%list_elem_of_singleton; left.
Qed.

Lemma not_straddles_one_sided f : ~ straddles co no f -> one_sided co no f.
Proof.
  unfold straddles, one_sided, above, below. intros H.
  apply not_and_l in H as [H|H]; [right|left];
    apply not_Exists_Forall in H; try (intros; apply _);
    (eapply Forall_impl; [exact H|]); simpl; intros; lra.
Qed.

Lemma bisect_face_one_sided f g :
  g ∈ bisect_face co no f -> one_sided co no g.
Proof.
  unfold bisect_face. case_decide.
  - rewrite !elem_of_cons, elem_of_nil. intros [->|[->|[]]]; [left|right];
      apply Forall_filter_holds.
  - intros Hv%list_elem_of_singleton; subst. by apply not_straddles_one_sided.
Qed.
End Faces.

(** ** Regrouping the faces of a part *)

Section Grouping.
Context (adj : face -> face -> bool).
Implicit Types (f : face) (g : part) (fs : list face).

Lemma group_faces_elem fs g f : g ∈ group_faces adj fs -> f ∈ g -> f ∈ fs.
Proof.
  revert g. induction fs as [|f0 fs IH]; intros g; [by intros ?%elem_of_nil|].
  cbn [group_faces]. rewrite elem_of_cons. intros [->|Hg] Hf.
  - apply elem_of_cons in Hf as [->|Hf]; [left|right].
    apply list_elem_of_join in Hf as (g' & Hf & Hg').
    apply elem_of_bool_filter in Hg' as [Hg' _]. eauto.
  - apply elem_of_bool_filter in Hg as [Hg _]. right. eauto.
Qed.

Lemma group_faces_cover fs f :
  f ∈ fs -> exists g, g ∈ group_faces adj fs /\ f ∈ g.
Proof.
  induction fs as [|f0 fs IH]; [by intros ?%elem_of_nil|].
  cbn [group_faces]. intros [->|Hf]%elem_of_cons.
  { eexists. split; [left|left]. }
  destruct (IH Hf) as (g & Hg & Hfg).
  destruct (existsb (adj f0) g) eqn:Hadj.
  - eexists. split; [left|]. right. apply list_elem_of_join.
    exists g. split; [done|]. by apply elem_of_bool_filter.
  - exists g. split; [|done]. right. apply elem_of_bool_filter.
    by rewrite Hadj.
Qed.

(** A face that [adj] joins to the face in front of the list is in the
    group of that face. *)
Lemma group_faces_head f0 fs f :
  f ∈ fs -> adj f0 f = true ->
  f ∈ mjoin (List.filter (fun g => existsb (adj f0) g) (group_faces adj fs)).
Proof.
  intros (g & Hg & Hf)%group_faces_cover Hadj. apply list_elem_of_join.
  exists g. split; [done|]. apply elem_of_bool_filter. split; [done|].
  apply existsb_elem_of. eauto.
Qed.

(** Faces that [adj] joins, in both directions, end up in one group. *)
Lemma group_faces_joins fs f f' :
  f ∈ fs -> f' ∈ fs -> adj f f' = true -> adj f' f = true ->
  exists g, g ∈ group_faces adj fs /\ f ∈ g /\ f' ∈ g.
Proof.
  induction fs as [|f0 fs IH]; [by intros ?%elem_of_nil|].
  cbn [group_faces]. intros [->|Hf]%elem_of_cons [->|Hf']%elem_of_cons H1 H2.
  - eexists. split; [left|]. split; left.
  - eexists. split; [left|]. split; [left|right]. by apply group_faces_head.
  - eexists. split; [left|]. split; [right|left]. by apply group_faces_head.
  - destruct (IH Hf Hf' H1 H2) as (g & Hg & Hfg & Hfg').
    destruct (existsb (adj f0) g) eqn:Hadj.
    + eexists. split; [left|].
      split; right; apply list_elem_of_join; exists g;
        (split; [done|]); by apply elem_of_bool_filter.
    + exists g. split; [|done]. right. apply elem_of_bool_filter.
      by rewrite Hadj.
Qed.

(** When adjacent faces are always on the same strict side, every group
    lies on one side. *)
Lemma group_faces_homogeneous (A B : face -> Prop) fs :
  (forall f, f ∈ fs -> A f \/ B f) ->
  (forall f f', f ∈ fs -> f' ∈ fs -> adj f f' = true ->
     (A f /\ ~ B f /\ A f' /\ ~ B f') \/ (B f /\ ~ A f /\ B f' /\ ~ A f')) ->
  forall g, g ∈ group_faces adj fs -> Forall A g \/ Forall B g.
Proof.
  induction fs as [|f0 fs IH]; intros Hone Hadj g; [by intros ?%elem_of_nil|].
  assert (IH' : forall g, g ∈ group_faces adj fs -> Forall A g \/ Forall B g).
  { apply IH; intros; [apply Hone | apply Hadj]; by try right. }
  assert (Hnear : forall g, g ∈ group_faces adj fs -> existsb (adj f0) g = true ->
            (~ B f0 /\ Forall A g) \/ (~ A f0 /\ Forall B g)).
  { intros g' Hg' (h & Hh & Hfh)%existsb_elem_of.
    pose proof (group_faces_elem _ _ _ Hg' Hh) as Hhfs.
    destruct (Hadj f0 h) as [(_ & ? & _ & HnB)|(_ & ? & _ & HnA)];
      [left|by right|done|..]; destruct (IH' g' Hg') as [HA|HB];
      rewrite ?Forall_forall in *; naive_solver. }
  cbn [group_faces]. rewrite elem_of_cons. intros [->|Hg].
  - destruct (Hone f0) as [HA|HB]; [left|left|right];
      (apply Forall_cons; split; [done|]); apply Forall_join, Forall_forall;
      intros g' [Hg' Hadj']%elem_of_bool_filter;
      destruct (Hnear g' Hg' Hadj') as [[? ?]|[? ?]]; done.
  - apply elem_of_bool_filter in Hg as [Hg _]. by apply IH'.
Qed.
End Grouping.

(** ** Adjacency through edges that are not on the plane *)

Section Adjacency.
Context (co no : Vec).
Implicit Types (f g : face) (fs : list face) (e : Vec * Vec) (x : Vec).

Lemma same_edge_spec e e' :
  same_edge e e' = true <->
  (e.1 ≡ e'.1 /\ e.2 ≡ e'.2) \/ (e.1 ≡ e'.2 /\ e.2 ≡ e'.1).
Proof.
  unfold same_edge. rewrite orb_true_iff, !andb_true_iff.
  by rewrite !(reflect_iff _ _ (veqb_spec _ _)).
Qed.

Lemma same_edge_refl e : same_edge e e = true.
Proof. apply same_edge_spec. by left. Qed.

#[export] Instance on_plane_proper : Proper ((≡) ==> iff) (on_plane co no).
Proof. intros x x' Hx. unfold on_plane. by rewrite Hx. Qed.

(** The edges the bisection reports: those among the vertices and edges on
    the plane. *)
Lemma reported_edges fs :
  List.filter soup_is_edge (verts_on_plane co no fs ++ edges_on_plane co no fs)
  = edges_on_plane co no fs.
Proof.
  rewrite List.filter_app. unfold verts_on_plane, edges_on_plane.
  generalize (filter (on_plane co no) (mjoin fs)).
  generalize (filter (fun e => on_plane co no e.1 /\ on_plane co no e.2)
                (fs ≫= loop_edges)).
  intros es vs. replace (List.filter soup_is_edge (SVert <$> vs)) with (@nil selem)
    by (induction vs; [done|by cbn]).
  induction es as [|e es IH]; [done|]. cbn in *. by rewrite IH.
Qed.

(** Every edge of [fs] with both ends on the plane is reported. *)
Lemma tagged_on_plane fs e :
  e ∈ fs ≫= loop_edges -> on_plane co no e.1 -> on_plane co no e.2 ->
  tagged (edges_on_plane co no fs) e = true.
Proof.
  intros He H1 H2. apply existsb_elem_of. exists (SEdge e.1 e.2). split.
  - unfold edges_on_plane. apply list_elem_of_fmap. exists e.
    split; [done|]. by apply list_elem_of_filter.
  - simpl. destruct e. apply same_edge_refl.
Qed.

(** Faces that hang together after the split share a corner off the
    plane. *)
Lemma adjacent_strict fs f g :
  f ∈ fs -> adjacent (edges_on_plane co no fs) f g = true ->
  exists x x', x ∈ f /\ x' ∈ g /\ x ≡ x' /\ ~ on_plane co no x.
Proof.
  intros Hf (e & He & Hadj)%existsb_elem_of.
  apply andb_true_iff in Hadj as [Hun (e' & He' & Hsame)%existsb_elem_of].
  apply negb_true_iff in Hun.
  assert (Hoff : ~ (on_plane co no e.1 /\ on_plane co no e.2)).
  { intros [H1 H2]. rewrite tagged_on_plane in Hun; [done| |done..].
    apply list_elem_of_bind. eauto. }
  apply loop_edges_ends in He as [He1 He2].
  apply loop_edges_ends in He' as [He1' He2'].
  apply same_edge_spec in Hsame.
  destruct (decide (on_plane co no e.1)) as [H1|H1].
  - exists e.2. destruct Hsame as [[_ ?]|[_ ?]];
      [exists e'.2 | exists e'.1]; split_and!; try done; tauto.
  - exists e.1. destruct Hsame as [[? _]|[? _]];
      [exists e'.1 | exists e'.2]; by split_and!.
Qed.

(** One-sided faces that share a corner off the plane are strictly on the
    same side. *)
Lemma shared_corner_side f g x x' :
  one_sided co no f -> one_sided co no g ->
  x ∈ f -> x' ∈ g -> x ≡ x' -> ~ on_plane co no x ->
  (above co no f /\ ~ below co no f /\ above co no g /\ ~ below co no g) \/
  (below co no f /\ ~ above co no f /\ below co no g /\ ~ above co no g).
Proof.
  unfold one_sided, above, below, on_plane. rewrite !Forall_forall.
  intros Hf Hg Hx Hx' Heq Hoff.
  assert (Hd : plane_dist co no x' == plane_dist co no x) by by rewrite Heq.
  destruct (Qlt_le_dec 0 (plane_dist co no x)) as [Hpos|Hneg].
  - left. assert (~ forall v, v ∈ f -> plane_dist co no v <= 0)
      by (intros Hb; specialize (Hb x Hx); lra).
    assert (~ forall v, v ∈ g -> plane_dist co no v <= 0)
      by (intros Hb; specialize (Hb x' Hx'); lra).
    tauto.
  - right. assert (~ forall v, v ∈ f -> 0 <= plane_dist co no v)
      by (intros Ha; specialize (Ha x Hx); lra).
    assert (~ forall v, v ∈ g -> 0 <= plane_dist co no v)
      by (intros Ha; specialize (Ha x' Hx'); lra).
    tauto.
Qed.
End Adjacency.

(** ** The laws of the kernel *)

Section Laws.
Implicit Types (m : soup) (p : part) (co no : Vec).

Lemma soup_coords_single p : soup_coords [p] = mjoin p.
Proof. unfold soup_coords. cbn. by rewrite app_nil_r. Qed.

Lemma soup_faces_elem m i p j f :
  m !! i = Some p -> p !! j = Some f -> SFace i j ∈ bm_geom m.
Proof.
  intros Hi Hj. unfold bm_geom. rewrite !elem_of_app. right. right.
  apply list_elem_of_join. exists (imap (fun j _ => SFace i j) p).
  split; apply elem_of_lookup_imap; eauto.
Qed.

Lemma bisect_plane_all m co no :
  (soup_bisect_plane m (bm_geom m) co no).1 = bisect_all co no m.
Proof.
  unfold soup_bisect_plane, bisect_all. cbn [fst].
  etransitivity; [|apply imap_const]. apply imap_ext. intros i p Hi.
  unfold bisect_part, const. f_equal.
  etransitivity; [|apply imap_const]. apply imap_ext. intros j f Hj.
  rewrite decide_True; [done|]. by eapply soup_faces_elem.
Qed.

Lemma bisect_all_elem co no m q f :
  q ∈ bisect_all co no m -> f ∈ q ->
  exists p f0, p ∈ m /\ f0 ∈ p /\ f ∈ bisect_face co no f0.
Proof.
  unfold bisect_all. intros (p & -> & Hp)%list_elem_of_fmap Hf.
  apply list_elem_of_join in Hf as (fs & Hf & Hfs).
  apply list_elem_of_fmap in Hfs as (f0 & -> & Hf0). eauto 6.
Qed.

Lemma elem_of_soup_coords m v :
  v ∈ soup_coords m <-> exists p f, p ∈ m /\ f ∈ p /\ v ∈ f.
Proof.
  unfold soup_coords. rewrite list_elem_of_join.
  setoid_rewrite list_elem_of_join. split.
  - intros (f & ? & p & ? & ?). eauto.
  - intros (p & f & ? & ? & ?). eauto.
Qed.

Lemma soup_coords_transform (h : Vec -> Vec) m :
  soup_coords (soup_transform h m) = h <$> soup_coords m.
Proof.
  unfold soup_coords, soup_transform, part_transform, face_transform.
  by rewrite !fmap_join.
Qed.

Lemma soup_coords_loose_parts m v :
  v ∈ soup_coords m <->
  exists p' : soup, p' ∈ soup_loose_parts m /\ v ∈ soup_coords p'.
Proof.
  unfold soup_loose_parts. split.
  - intros (f & Hv & (p & Hf & Hp)%list_elem_of_join)%list_elem_of_join.
    exists [p]. split; [apply list_elem_of_fmap; eauto|].
    rewrite soup_coords_single. apply list_elem_of_join. eauto.
  - intros (? & (p & -> & Hp)%list_elem_of_fmap & Hv).
    rewrite soup_coords_single in Hv.
    apply list_elem_of_join in Hv as (f & Hv & Hf).
    apply list_elem_of_join. exists f. split; [done|].
    apply list_elem_of_join. eauto.
Qed.

Lemma bisect_all_one_sided co no m q f :
  q ∈ bisect_all co no m -> f ∈ q -> one_sided co no f.
Proof.
  intros Hq Hf. destruct (bisect_all_elem _ _ _ _ _ Hq Hf) as (? & ? & _ & _ & ?).
  by eapply bisect_face_one_sided.
Qed.

(** *** Cuts with any way of regrouping *)

Section CutWith.
Context (adj : list selem -> face -> face -> bool).

(** The faces after a cut are the clipped faces of the mesh before it. *)
Lemma cut_with_faces m co no g :
  (exists q, q ∈ cut_with adj co no m /\ g ∈ q) <->
  exists p f, p ∈ m /\ f ∈ p /\ g ∈ bisect_face co no f.
Proof.
  unfold cut_with. setoid_rewrite list_elem_of_bind. split.
  - intros (q & (q0 & Hq & Hq0) & Hg).
    apply (group_faces_elem _ _ _ _ Hq) in Hg.
    by eapply bisect_all_elem.
  - intros (p & f & Hp & Hf & Hg).
    set (q0 := mjoin (bisect_face co no <$> p)).
    destruct (group_faces_cover
                (adj (edges_on_plane co no (mjoin (bisect_all co no m)))) q0 g)
      as (q & Hq & Hgq).
    { apply list_elem_of_join. eexists. split; [exact Hg|].
      by apply list_elem_of_fmap_2. }
    exists q. split; [|done]. exists q0. split; [done|].
    unfold bisect_all. apply list_elem_of_fmap. by exists p.
Qed.

(** Every part after a cut comes from a part before it and stays in the
    half-spaces that held it. *)
Lemma cut_with_refines m co no g :
  g ∈ cut_with adj co no m ->
  exists p, p ∈ m /\ forall a b, within a b (mjoin p) -> within a b (mjoin g).
Proof.
  unfold cut_with. intros (q & Hg & Hq)%list_elem_of_bind.
  apply list_elem_of_fmap in Hq as (p & -> & Hp).
  exists p. split; [done|]. intros a b. unfold within.
  rewrite !Forall_join_iff, !Forall_forall. intros Hin f Hf.
  apply (group_faces_elem _ _ _ _ Hg) in Hf.
  apply list_elem_of_join in Hf as (fs & Hf & Hfs).
  apply list_elem_of_fmap in Hfs as (f0 & -> & Hf0).
  eapply bisect_face_within; [exact Hf|]. by apply Hin.
Qed.

Lemma cut_with_keeps m co no v :
  v ∈ soup_coords m -> v ∈ soup_coords (cut_with adj co no m).
Proof.
  rewrite !elem_of_soup_coords. intros (p & f & Hp & Hf & Hv).
  destruct (bisect_face_keeps co no f v Hv) as (g & Hg & Hvg).
  destruct (proj2 (cut_with_faces m co no g)) as (q & Hq & Hgq); eauto 6.
Qed.

Lemma cut_with_adds m co no v :
  v ∈ soup_coords (cut_with adj co no m) ->
  v ∈ soup_coords m \/ plane_dist co no v == 0.
Proof.
  rewrite !elem_of_soup_coords. intros (q & g & Hq & Hg & Hv).
  destruct (proj1 (cut_with_faces m co no g)) as (p & f & Hp & Hf & Hgf);
    [eauto|].
  destruct (bisect_face_adds co no f g v Hgf Hv); eauto 6.
Qed.

(** When the faces that [adj] joins are strictly on the same side of the
    plane, no part after the cut crosses it. *)
Lemma cut_with_one_sided m co no :
  (forall q f f', q ∈ bisect_all co no m -> f ∈ q -> f' ∈ q ->
     adj (edges_on_plane co no (mjoin (bisect_all co no m))) f f' = true ->
     (above co no f /\ ~ below co no f /\ above co no f' /\ ~ below co no f') \/
     (below co no f /\ ~ above co no f /\ below co no f' /\ ~ above co no f')) ->
  forall g, g ∈ cut_with adj co no m -> one_sided co no (mjoin g).
Proof.
  intros Hadj g (q & Hg & Hq)%list_elem_of_bind.
  destruct (group_faces_homogeneous _ (above co no) (below co no) q
              (fun f => bisect_all_one_sided co no m q f Hq)
              (fun f f' Hf Hf' => Hadj q f f' Hq Hf Hf') g Hg) as [HA|HB].
  - left. by apply Forall_join_iff.
  - right. by apply Forall_join_iff.
Qed.
End CutWith.

(** *** The reference kernel *)

(** One cut of the script on this kernel: clip every face, then regroup
    the faces of every part by the edges off the plane. *)
Lemma cut_plane_soup m co no : cut_plane m co no = cut_with adjacent co no m.
Proof.
  unfold cut_plane, cut_with. cbn [bisect_plane split_edges is_edge soup_ops].
  pose proof (bisect_plane_all m co no) as Hall.
  unfold soup_bisect_plane in *. cbn [fst] in Hall. rewrite Hall.
  by rewrite reported_edges.
Qed.

Lemma soup_cut_one_sided m co no : parts_one_sided co no (cut_plane m co no).
Proof.
  intros p'. rewrite cut_plane_soup. intros (g & -> & Hg)%list_elem_of_fmap.
  cbn [coords soup_ops]. rewrite soup_coords_single.
  revert g Hg. apply cut_with_one_sided. intros q f f' Hq Hf Hf' Hadj.
  apply adjacent_strict in Hadj as (x & x' & ? & ? & ? & ?);
    [|apply list_elem_of_join; eauto].
  eapply shared_corner_side; eauto using bisect_all_one_sided.
Qed.

Lemma soup_cut_refines m co no (p' : soup) :
  p' ∈ soup_loose_parts (cut_plane m co no) ->
  exists p0 : soup, p0 ∈ soup_loose_parts m /\
    forall a b, within a b (soup_coords p0) -> within a b (soup_coords p').
Proof.
  rewrite cut_plane_soup. intros (g & -> & Hg)%list_elem_of_fmap.
  destruct (cut_with_refines _ _ _ _ _ Hg) as (p & Hp & Hin).
  exists [p]. split; [apply list_elem_of_fmap; eauto|].
  intros a b. rewrite !soup_coords_single. apply Hin.
Qed.

Lemma soup_cut_keeps m co no v :
  v ∈ soup_coords m -> v ∈ soup_coords (cut_plane m co no).
Proof. rewrite cut_plane_soup. apply cut_with_keeps. Qed.

Lemma soup_cut_adds m co no v :
  v ∈ soup_coords (cut_plane m co no) ->
  v ∈ soup_coords m \/ plane_dist co no v == 0.
Proof. rewrite cut_plane_soup. apply cut_with_adds. Qed.

#[export] Instance soup_laws : BMeshLaws soup selem.
Proof.
  split.
  - exact soup_coords_transform.
  - exact soup_coords_loose_parts.
  - exact soup_cut_refines.
  - exact soup_cut_keeps.
  - exact soup_cut_adds.
Qed.

#[export] Instance soup_separates : BMeshSeparates soup selem.
Proof. exact soup_cut_one_sided. Qed.
End Laws.

(** ** The cuts of the script on the reference kernel *)

(** On the reference kernel the sequence of cuts separates the mesh:
    after [cut_planes] no loose part has vertices strictly on both sides
    of one of the planes. *)
Theorem soup_cut_planes_separates (m : soup) planes co no :
  (co, no) ∈ planes -> parts_one_sided co no (cut_planes m planes).
Proof. apply cut_planes_one_sided, cuts_separate_always. Qed.

Lemma soup_cut_planes_separates_witness :
  parts_one_sided (mkVec 0 0 0) (mkVec 1 0 0)
    (cut_planes square [(mkVec 0 0 0, mkVec 1 0 0); (mkVec 0 0 0, mkVec 0 1 0)]).
Proof. apply soup_cut_planes_separates. left. Defined.

(** On the reference kernel the cuts add no geometry outside the
    mesh: a half-space that holds every vertex before [cut_planes] holds
    every vertex after it. *)
Theorem soup_cut_planes_within (m : soup) planes a b :
  within a b (soup_coords m) -> within a b (soup_coords (cut_planes m planes)).
Proof. exact (cut_planes_within (mesh := soup) m planes a b). Qed.

Lemma soup_cut_planes_within_witness :
  within (mkVec 1 0 0) 1
    (soup_coords
       (cut_planes square [(mkVec 0 0 0, mkVec 1 0 0); (mkVec 0 0 0, mkVec 0 1 0)])).
Proof.
  apply soup_cut_planes_within. repeat constructor; by vm_compute.
Defined.
