(* ===== verification/Scene.v ===== *)
(** * Scene: the host state the script runs against

    The script reads and writes the host's scene: the objects with their
    transform, mesh data and selection flag, the active object and the
    interaction mode.  This file models that state and the host calls the
    script makes on it ([bpy.ops.object.*], [bpy.ops.mesh.separate],
    [bpy.context.*], [bmesh.from_edit_mesh] and the two [bmesh.ops] on the
    mesh under edit), each as a program over the scene that either returns
    or raises a host exception and leaves the scene as it was at that
    point.  Objects are named by their position in the scene's object
    list; a [bmesh] obtained from [from_edit_mesh] is the mesh of its
    object, shared and not copied, so it is named by the object too. *)

From S2P Require Import Prelude Vector Pivot BoundBox Mesh.

(** ** Data *)

Inductive Mode : Type := OBJECT | EDIT.

(** The Python exceptions through which the host reports failures. *)
Inductive error : Type :=
| RuntimeError      (* an operator's poll failed, or it reported an error *)
| TypeError         (* [from_edit_mesh] on data that is not a mesh *)
| ValueError        (* [from_edit_mesh] outside edit mode, [range] with step 0,
                       [math.floor] of what is not a number *)
| AttributeError    (* attribute of [None], assignment to a read-only member *)
| ReferenceError    (* use of an object that is not in the scene *)
| OverflowError.    (* [math.floor] of an infinite float *)

Section Scene.
Context {mesh elem : Type} `{!BMeshOps mesh elem}.

Record Object : Type := mkObject {
  location : Vec;          (* [ob.location] *)
  basis : Mat3;            (* rotation and scale of [ob] *)
  data : option mesh;      (* [ob.data] when it is a mesh *)
  selected : bool;         (* [ob.select_get()] *)
}.

Record Scene : Type := mkScene {
  objects : list Object;
  active : option nat;     (* [view_layer.objects.active], [context.object] *)
  mode : Mode;
}.

Definition host : Type -> Type := prog error Scene.

(** ** Views of an object *)

Definition world_of (o : Object) (v : Vec) : Vec :=
  (mat_apply (basis o) v + location o)%vec.

Definition local_coords (o : Object) : list Vec :=
  from_option coords [] (data o).

Definition world_coords (o : Object) : list Vec :=
  world_of o <$> local_coords o.

(** [ob.bound_box]: the bounding box of the mesh, in local space. *)
Definition bound_box (o : Object) : list Vec := bound_box_of (local_coords o).

(** ** Updates of the state *)

Definition with_objects (s : Scene) (os : list Object) : Scene :=
  mkScene os (active s) (mode s).

Definition with_location (v : Vec) (o : Object) : Object :=
  mkObject v (basis o) (data o) (selected o).

Definition with_data (m : mesh) (o : Object) : Object :=
  mkObject (location o) (basis o) (Some m) (selected o).

Definition with_selected (b : bool) (o : Object) : Object :=
  mkObject (location o) (basis o) (data o) b.

(** What is left of an object when its selection flag is ignored. *)
Definition body (o : Object) : Vec * Mat3 * option mesh :=
  (location o, basis o, data o).

(** The transform of an object folded into its mesh: the vertices take
    their world positions and the transform becomes the identity. *)
Definition apply_transform (o : Object) : Object :=
  match data o with
  | Some m => mkObject vzero mat_id (Some (transform (world_of o) m)) (selected o)
  | None => o
  end.

Definition apply_if_selected (o : Object) : Object :=
  if selected o then apply_transform o else o.

(** The object a separated part becomes: a selected copy of the original
    that holds the part. *)
Definition part_object (o : Object) (p : mesh) : Object :=
  mkObject (location o) (basis o) (Some p) true.

(** Whether the object at position [i] is selected. *)
Definition is_selected (os : list Object) (i : nat) : bool :=
  from_option selected false (os !! i).

(** The positions of the selected objects, in scene order. *)
Definition selected_ids (os : list Object) : list nat :=
  List.filter (is_selected os) (seq 0 (length os)).

Definition deselect_all (os : list Object) : list Object :=
  with_selected false <$> os.

(** ** Host calls *)

(** [ob], dereferenced. *)
Definition object_ref (ob : nat) : host Object := fun s =>
  match objects s !! ob with
  | Some o => Done o s
  | None => Raise ReferenceError s
  end.

Definition update_object (ob : nat) (f : Object -> Object) : host unit := fun s =>
  match objects s !! ob with
  | Some o => Done tt (with_objects s (<[ob := f o]> (objects s)))
  | None => Raise ReferenceError s
  end.

(** [bpy.ops.object.select_all(action='DESELECT')] *)
Definition select_all_deselect : host unit := fun s =>
  match mode s with
  | OBJECT => Done tt (with_objects s (deselect_all (objects s)))
  | EDIT => Raise RuntimeError s
  end.

(** [bpy.context.view_layer.objects.active = ob] *)
Definition set_active (ob : nat) : host unit := fun s =>
  match objects s !! ob with
  | Some _ => Done tt (mkScene (objects s) (Some ob) (mode s))
  | None => Raise ReferenceError s
  end.

(** [ob.select_set(state)] *)
Definition select_set (ob : nat) (state : bool) : host unit :=
  update_object ob (with_selected state).

(** [bpy.ops.object.mode_set(mode=m)] *)
Definition mode_set (m : Mode) : host unit := fun s =>
  match active s with
  | Some ob => Done tt (mkScene (objects s) (active s) m)
  | None => Raise RuntimeError s
  end.

(** [bpy.context.object], about to be dereferenced. *)
Definition context_object : host nat := fun s =>
  match active s with
  | Some ob => Done ob s
  | None => Raise AttributeError s
  end.

(** [bmesh.from_edit_mesh(ob.data)]: the mesh under edit, by reference. *)
Definition from_edit_mesh (ob : nat) : host nat := fun s =>
  match objects s !! ob with
  | Some o =>
      match data o, mode s with
      | Some _, EDIT => Done ob s
      | Some _, OBJECT => Raise ValueError s
      | None, _ => Raise TypeError s
      end
  | None => Raise ReferenceError s
  end.

(** An attribute of the mesh under edit, read through its [bmesh]. *)
Definition bm_read {A : Type} (bm : nat) (f : mesh -> A) : host A := fun s =>
  match objects s !! bm with
  | Some o =>
      match data o with
      | Some m => Done (f m) s
      | None => Raise ReferenceError s
      end
  | None => Raise ReferenceError s
  end.

(** The mesh under edit, replaced in place. *)
Definition bm_write (bm : nat) (m : mesh) : host unit :=
  update_object bm (with_data m).

(** [bmesh.ops.bisect_plane(bm, geom=.., plane_co=.., plane_no=..)], which
    returns the slot [geom_cut]. *)
Definition bm_bisect_plane (bm : nat) (geom : list elem) (plane_co plane_no : Vec)
    : host (list elem) :=
  bind (bm_read bm (fun m => bisect_plane m geom plane_co plane_no)) (fun r =>
  bind (bm_write bm r.1) (fun _ => pure r.2)).

(** [bmesh.ops.split_edges(bm, edges=..)] *)
Definition bm_split_edges (bm : nat) (edges : list elem) : host unit :=
  bind (bm_read bm (fun m => split_edges m edges)) (bm_write bm).

(** [bmesh.update_edit_mesh(ob.data)]: the mesh under edit is shared with
    its [bmesh], so nothing of the modelled state changes. *)
Definition update_edit_mesh (ob : nat) : host unit :=
  bind (object_ref ob) (fun _ => pure tt).

(** [bpy.ops.mesh.separate(type='LOOSE')]: the mesh under edit keeps its
    last loose part and every other part becomes a new selected object
    with the transform of the original, appended to the scene. *)
Definition separate_parts (o : Object) (parts : list mesh) : Object * list Object :=
  match last parts with
  | Some p => (with_data p o, part_object o <$> take (length parts - 1) parts)
  | None => (o, [])
  end.

Definition separate_loose : host unit := fun s =>
  match mode s, active s with
  | EDIT, Some ob =>
      match objects s !! ob with
      | Some o =>
          match data o with
          | Some m =>
              let '(o', new) := separate_parts o (loose_parts m) in
              Done tt (with_objects s (<[ob := o']> (objects s) ++ new))
          | None => Raise RuntimeError s
          end
      | None => Raise ReferenceError s
      end
  | _, _ => Raise RuntimeError s
  end.

(** [bpy.ops.object.transform_apply(location=True, rotation=True,
    scale=True)]: applies to every selected object. *)
Definition transform_apply : host unit := fun s =>
  match mode s with
  | OBJECT =>
      if existsb selected (objects s)
      then Done tt (with_objects s (apply_if_selected <$> objects s))
      else Raise RuntimeError s
  | EDIT => Raise RuntimeError s
  end.

(** [bpy.context.selected_objects], read: a fresh list. *)
Definition selected_objects : host (list nat) := fun s =>
  Done (selected_ids (objects s)) s.

(** [bpy.context.selected_objects = targets]: context members are
    read-only. *)
Definition set_selected_objects (targets : list nat) : host unit :=
  throw AttributeError.

(** [ob.location], read and assigned. *)
Definition get_location (ob : nat) : host Vec :=
  bind (object_ref ob) (fun o => pure (location o)).

Definition set_location (ob : nat) (v : Vec) : host unit :=
  update_object ob (with_location v).

(** [ob.bound_box], read. *)
Definition get_bound_box (ob : nat) : host (list Vec) :=
  bind (object_ref ob) (fun o => pure (bound_box o)).

(** ** Well-formed scenes *)

(** The active object, if any, is an object of the scene. *)
Definition wf_scene (s : Scene) : Prop :=
  forall ob, active s = Some ob -> is_Some (objects s !! ob).

(** ** Facts about the state *)

Implicit Types (o : Object) (os : list Object) (s : Scene) (i ob : nat).

Lemma elem_of_selected_ids os i :
  i ∈ selected_ids os <-> exists o, os !! i = Some o /\ selected o = true.
Proof.
  unfold selected_ids, is_selected. rewrite elem_of_bool_filter, elem_of_seq.
  split.
  - intros [_ Hs]. destruct (os !! i) as [o|]; [eauto | done].
  - intros (o & Hi & Hs). rewrite Hi. split; [|done].
    apply lookup_lt_Some in Hi. lia.
Qed.

Lemma NoDup_selected_ids os : NoDup (selected_ids os).
Proof.
  unfold selected_ids. apply NoDup_ListNoDup, List.NoDup_filter.
  apply NoDup_ListNoDup, NoDup_seq.
Qed.

Lemma deselect_all_lookup os i :
  deselect_all os !! i = with_selected false <$> os !! i.
Proof. apply list_lookup_fmap. Qed.

Lemma length_deselect_all os : length (deselect_all os) = length os.
Proof. apply length_fmap. Qed.

Lemma apply_deselected os :
  apply_if_selected <$> deselect_all os = deselect_all os.
Proof. unfold deselect_all. rewrite <- list_fmap_compose. by apply list_fmap_ext. Qed.

Lemma existsb_selected_insert os i o :
  i < length os -> selected o = true -> existsb selected (<[i := o]> os) = true.
Proof.
  intros Hi Hs. apply existsb_elem_of. exists o. split; [|done].
  apply list_elem_of_lookup. exists i. by apply list_lookup_insert_eq.
Qed.

Lemma existsb_selected_lookup os i o :
  os !! i = Some o -> selected o = true -> existsb selected os = true.
Proof.
  intros Hi Hs. apply existsb_elem_of. exists o. split; [|done].
  apply list_elem_of_lookup. eauto.
Qed.

(** ** Separation *)

Lemma separate_parts_nil o : separate_parts o [] = (o, []).
Proof. reflexivity. Qed.

Lemma separate_parts_snoc o parts (p : mesh) :
  separate_parts o (parts ++ [p]) = (with_data p o, part_object o <$> parts).
Proof.
  unfold separate_parts. rewrite last_snoc, length_app. cbn [length].
  replace (length parts + 1 - 1) with (length parts) by lia.
  by rewrite take_app_length.
Qed.

(** Every object that comes out of a separation has the transform of the
    original and holds one of the parts (the original mesh when it has no
    part at all). *)
Lemma separate_parts_pieces o parts x :
  x ∈ (separate_parts o parts).1 :: (separate_parts o parts).2 ->
  location x = location o /\ basis x = basis o /\
  ((parts = [] /\ data x = data o) \/ exists p, p ∈ parts /\ data x = Some p).
Proof.
  destruct parts as [|p0 parts _] using rev_ind.
  - rewrite separate_parts_nil. intros ->%list_elem_of_singleton. auto.
  - rewrite separate_parts_snoc. cbn [fst snd]. intros [->|Hx]%elem_of_cons.
    + split_and!; [done..|]. right. exists p0. split; [|done].
      apply elem_of_app. right. left.
    + apply list_elem_of_fmap in Hx as (p & -> & Hp).
      split_and!; [done..|]. right. exists p. split; [|done].
      apply elem_of_app. by left.
Qed.

Lemma separate_parts_selected o parts x :
  x ∈ (separate_parts o parts).2 -> selected x = true.
Proof.
  destruct parts as [|p0 parts _] using rev_ind.
  - rewrite separate_parts_nil. by intros ?%elem_of_nil.
  - rewrite separate_parts_snoc. cbn [snd].
    by intros (p & -> & Hp)%list_elem_of_fmap.
Qed.

Lemma separate_parts_original o parts :
  selected (separate_parts o parts).1 = selected o.
Proof.
  destruct parts as [|p0 parts _] using rev_ind;
    [done | by rewrite separate_parts_snoc].
Qed.

(** ** The host calls on a scene where they succeed *)

Lemma object_ref_run s ob o : objects s !! ob = Some o -> object_ref ob s = Done o s.
Proof. unfold object_ref. by intros ->. Qed.

Lemma update_object_run s ob o f :
  objects s !! ob = Some o ->
  update_object ob f s = Done tt (with_objects s (<[ob := f o]> (objects s))).
Proof. unfold update_object. by intros ->. Qed.

Lemma get_location_run s ob o :
  objects s !! ob = Some o -> get_location ob s = Done (location o) s.
Proof. intros H. unfold get_location, bind. by rewrite (object_ref_run _ _ _ H). Qed.

Lemma get_bound_box_run s ob o :
  objects s !! ob = Some o -> get_bound_box ob s = Done (bound_box o) s.
Proof. intros H. unfold get_bound_box, bind. by rewrite (object_ref_run _ _ _ H). Qed.

Lemma transform_apply_run s :
  mode s = OBJECT -> existsb selected (objects s) = true ->
  transform_apply s
  = Done tt (with_objects s (apply_if_selected <$> objects s)).
Proof. unfold transform_apply. by intros -> ->. Qed.

Lemma mode_set_run s ob (m : Mode) :
  active s = Some ob -> mode_set m s = Done tt (mkScene (objects s) (active s) m).
Proof. unfold mode_set. by intros ->. Qed.

Lemma context_object_run s ob : active s = Some ob -> context_object s = Done ob s.
Proof. unfold context_object. by intros ->. Qed.

Lemma from_edit_mesh_run s ob o (m : mesh) :
  objects s !! ob = Some o -> data o = Some m -> mode s = EDIT ->
  from_edit_mesh ob s = Done ob s.
Proof. unfold from_edit_mesh. by intros -> -> ->. Qed.

Lemma update_edit_mesh_run s ob o :
  objects s !! ob = Some o -> update_edit_mesh ob s = Done tt s.
Proof. intros H. unfold update_edit_mesh, bind. by rewrite (object_ref_run _ _ _ H). Qed.

Lemma separate_loose_run s ob o (m : mesh) :
  mode s = EDIT -> active s = Some ob ->
  objects s !! ob = Some o -> data o = Some m ->
  separate_loose s
  = Done tt (with_objects s
               (<[ob := (separate_parts o (loose_parts m)).1]> (objects s)
                  ++ (separate_parts o (loose_parts m)).2)).
Proof.
  unfold separate_loose. intros -> -> -> ->.
  by destruct (separate_parts _ _).
Qed.

Lemma bm_read_run {A} s bm o m (f : mesh -> A) :
  objects s !! bm = Some o -> data o = Some m -> bm_read bm f s = Done (f m) s.
Proof. unfold bm_read. by intros -> ->. Qed.

End Scene.

Arguments Object mesh : clear implicits.
Arguments Scene mesh : clear implicits.
Arguments host mesh : clear implicits.
