(* ===== verification/SceneRules.v ===== *)
(** * SceneRules: what every host call keeps

    Two properties of the scene survive each host call of [Scene], on the
    path that returns and on the path that raises:
    - [kept n]: the scene is well formed and has at least [n] objects (no
      call removes an object or leaves the active object dangling);
    - [untouched i o]: the object at position [i] is [o] and is not the
      active one; a call keeps this for a deselected [o] unless it is told
      to work on [i].
    The calls that only read are classified by [reads]; the rules for the
    others are stated as [invariant]s, so the procedures of the script
    inherit them through the rules of [Triple]. *)

From S2P Require Import Prelude Triple Vector Pivot BoundBox Mesh Scene.

Section Rules.
Context {mesh elem : Type} `{!BMeshOps mesh elem}.
Implicit Types (s : Scene mesh) (o : Object mesh) (i ob n : nat).

Definition kept (n : nat) (s : Scene mesh) : Prop :=
  wf_scene s /\ n <= length (objects s).

Definition untouched (i : nat) (o : Object mesh) (s : Scene mesh) : Prop :=
  objects s !! i = Some o /\ active s <> Some i.

(** ** The calls that only read *)

Lemma reads_object_ref ob : reads (object_ref (mesh := mesh) ob).
Proof. intros s. unfold object_ref. by destruct (objects s !! ob). Qed.

Lemma reads_context_object : reads (context_object (mesh := mesh)).
Proof. intros s. unfold context_object. by destruct (active s). Qed.

Lemma reads_from_edit_mesh ob : reads (from_edit_mesh (mesh := mesh) ob).
Proof.
  intros s. unfold from_edit_mesh.
  by destruct (objects s !! ob) as [[? ? [?|] ?]|], (mode s).
Qed.

Lemma reads_bm_read {A} bm (f : mesh -> A) : reads (bm_read bm f).
Proof.
  intros s. unfold bm_read. by destruct (objects s !! bm) as [[? ? [?|] ?]|].
Qed.

Lemma reads_selected_objects : reads (selected_objects (mesh := mesh)).
Proof. done. Qed.

Lemma reads_set_selected_objects targets :
  reads (set_selected_objects (mesh := mesh) targets).
Proof. done. Qed.

Lemma reads_update_edit_mesh ob : reads (update_edit_mesh (mesh := mesh) ob).
Proof. apply reads_bind; [apply reads_object_ref | intros; apply reads_pure]. Qed.

Lemma reads_get_location ob : reads (get_location (mesh := mesh) ob).
Proof. apply reads_bind; [apply reads_object_ref | intros; apply reads_pure]. Qed.

Lemma reads_get_bound_box ob : reads (get_bound_box (mesh := mesh) ob).
Proof. apply reads_bind; [apply reads_object_ref | intros; apply reads_pure]. Qed.

(** What the reading calls return. *)
Lemma context_object_active s ob s' :
  context_object (mesh := mesh) s = Done ob s' -> active s = Some ob.
Proof. unfold context_object. destruct (active s); by intros [= <- _]. Qed.

Lemma from_edit_mesh_same s ob bm s' : from_edit_mesh ob s = Done bm s' -> bm = ob.
Proof.
  unfold from_edit_mesh.
  destruct (objects s !! ob) as [[? ? [?|] ?]|], (mode s); by intros [= <- _].
Qed.

Lemma selected_objects_ids s targets s' :
  selected_objects s = Done targets s' -> targets = selected_ids (objects s).
Proof. by intros [= <- _]. Qed.

(** ** Well-formedness and the number of objects *)

Lemma wf_with_objects s os :
  wf_scene s -> length (objects s) <= length os -> wf_scene (with_objects s os).
Proof.
  intros Hwf Hlen ob Ha. apply lookup_lt_is_Some. cbn.
  destruct (Hwf ob Ha) as [o Ho]. apply lookup_lt_Some in Ho. lia.
Qed.

Lemma kept_with_objects n s os :
  kept n s -> length (objects s) <= length os -> kept n (with_objects s os).
Proof. intros [Hwf Hn] Hlen. split; [by apply wf_with_objects | cbn; lia]. Qed.

Lemma kept_update_object n ob f :
  invariant (kept n) (update_object (mesh := mesh) ob f).
Proof.
  intros s Hs. unfold update_object. destruct (objects s !! ob); [|done].
  apply kept_with_objects; [done | by rewrite length_insert].
Qed.

Lemma kept_select_all_deselect n :
  invariant (kept n) (select_all_deselect (mesh := mesh)).
Proof.
  intros s Hs. unfold select_all_deselect. destruct (mode s); [|done].
  apply kept_with_objects; [done | by rewrite length_deselect_all].
Qed.

Lemma kept_set_active n ob : invariant (kept n) (set_active (mesh := mesh) ob).
Proof.
  intros s [Hwf Hn]. unfold set_active. destruct (objects s !! ob) eqn:E; [|done].
  split; [|done]. intros ob' [= <-]. by eexists.
Qed.

Lemma kept_mode_set n m : invariant (kept n) (mode_set (mesh := mesh) m).
Proof.
  intros s Hs. unfold mode_set. destruct (active s) eqn:E; [|done].
  rewrite <- E. exact Hs.
Qed.

Lemma kept_transform_apply n : invariant (kept n) (transform_apply (mesh := mesh)).
Proof.
  intros s Hs. unfold transform_apply.
  destruct (mode s), (existsb selected (objects s)); try done.
  apply kept_with_objects; [done | by rewrite length_fmap].
Qed.

Lemma kept_separate_loose n : invariant (kept n) (separate_loose (mesh := mesh)).
Proof.
  intros s Hs. unfold separate_loose.
  destruct (mode s), (active s) as [ob|]; try done.
  destruct (objects s !! ob) as [o|]; [|done]. destruct (data o); [|done].
  destruct (separate_parts _ _). apply kept_with_objects; [done|].
  rewrite length_app, length_insert. lia.
Qed.

(** ** Objects the calls leave alone *)

Lemma untouched_with_objects i o s os :
  untouched i o s -> os !! i = Some o -> untouched i o (with_objects s os).
Proof. by intros [_ Ha] Hi. Qed.

Lemma deselected_same o : selected o = false -> with_selected false o = o.
Proof. destruct o. by intros [= ->]. Qed.

Lemma untouched_update_object i o ob f :
  ob <> i -> invariant (untouched i o) (update_object (mesh := mesh) ob f).
Proof.
  intros Hne s Hs. unfold update_object. destruct (objects s !! ob); [|done].
  apply untouched_with_objects; [done|].
  rewrite list_lookup_insert_ne by done. apply Hs.
Qed.

Lemma untouched_select_all_deselect i o :
  selected o = false ->
  invariant (untouched i o) (select_all_deselect (mesh := mesh)).
Proof.
  intros Hsel s Hs. unfold select_all_deselect. destruct (mode s); [|done].
  apply untouched_with_objects; [done|].
  by rewrite deselect_all_lookup, (proj1 Hs); cbn; rewrite deselected_same.
Qed.

Lemma untouched_set_active i o ob :
  ob <> i -> invariant (untouched i o) (set_active (mesh := mesh) ob).
Proof.
  intros Hne s [Ho Ha]. unfold set_active. destruct (objects s !! ob); [|done].
  split; [done|]. cbn. congruence.
Qed.

Lemma untouched_mode_set i o m :
  invariant (untouched i o) (mode_set (mesh := mesh) m).
Proof.
  intros s Hs. unfold mode_set. destruct (active s) eqn:E; [|done].
  rewrite <- E. exact Hs.
Qed.

Lemma untouched_transform_apply i o :
  selected o = false -> invariant (untouched i o) (transform_apply (mesh := mesh)).
Proof.
  intros Hsel s Hs. unfold transform_apply.
  destruct (mode s), (existsb selected (objects s)); try done.
  apply untouched_with_objects; [done|].
  rewrite list_lookup_fmap, (proj1 Hs). cbn. unfold apply_if_selected.
  by rewrite Hsel.
Qed.

Lemma untouched_separate_loose i o :
  invariant (untouched i o) (separate_loose (mesh := mesh)).
Proof.
  intros s Hs. pose proof Hs as [Ho Ha]. unfold separate_loose.
  destruct (mode s); [done|]. destruct (active s) as [ob|] eqn:Eob; [|done].
  destruct (objects s !! ob) as [o'|] eqn:E; [|done]. destruct (data o'); [|done].
  destruct (separate_parts _ _). split; [|cbn; congruence]. cbn.
  rewrite lookup_app_l by (rewrite length_insert; by eapply lookup_lt_Some).
  rewrite list_lookup_insert_ne by congruence. done.
Qed.

(** What a reading call returns, told apart from the active object. *)
Lemma untouched_context_object i o :
  triple (untouched i o) (context_object (mesh := mesh))
    (fun ob s => untouched i o s /\ ob <> i) (fun _ => untouched i o).
Proof.
  intros s Hs. pose proof (context_object_active s) as Hob.
  pose proof (reads_context_object s) as Hr.
  destruct (context_object s) as [ob s'|e s']; cbn in *; subst; [|done].
  split; [done|]. intros ->. by destruct Hs as [_ []]; eauto.
Qed.

Lemma untouched_from_edit_mesh i o ob :
  triple (untouched i o) (from_edit_mesh (mesh := mesh) ob)
    (fun bm s => untouched i o s /\ bm = ob) (fun _ => untouched i o).
Proof.
  apply reads_triple; [apply reads_from_edit_mesh|].
  intros s bm s'. apply from_edit_mesh_same.
Qed.

Lemma untouched_selected_objects i o :
  selected o = false ->
  triple (untouched i o) (selected_objects (mesh := mesh))
    (fun targets s => untouched i o s /\ i ∉ targets) (fun _ => untouched i o).
Proof.
  intros Hsel s Hs. split; [done|].
  intros (o' & Ho' & Hs')%elem_of_selected_ids. destruct Hs as [Ho _].
  congruence.
Qed.

End Rules.

#[export] Hint Resolve reads_object_ref reads_context_object reads_from_edit_mesh
  reads_bm_read reads_selected_objects reads_set_selected_objects
  reads_update_edit_mesh reads_get_location reads_get_bound_box : grid.
#[export] Hint Resolve kept_update_object kept_select_all_deselect kept_set_active
  kept_mode_set kept_transform_apply kept_separate_loose : grid.
#[export] Hint Resolve untouched_update_object untouched_select_all_deselect
  untouched_set_active untouched_mode_set untouched_transform_apply
  untouched_separate_loose : grid.

(** ** The operators on the mesh under edit *)

Section Derived.
Context {mesh elem : Type} `{!BMeshOps mesh elem}.
Implicit Types (s : Scene mesh) (o : Object mesh) (i bm n : nat).

Lemma kept_bm_bisect_plane n bm geom co no :
  invariant (kept n) (bm_bisect_plane (mesh := mesh) bm geom co no).
Proof. unfold bm_bisect_plane, bm_write. eauto 8 with grid. Qed.

Lemma kept_bm_split_edges n bm es :
  invariant (kept n) (bm_split_edges (mesh := mesh) bm es).
Proof. unfold bm_split_edges, bm_write. eauto 8 with grid. Qed.

Lemma untouched_bm_bisect_plane i o bm geom co no :
  bm <> i -> invariant (untouched i o) (bm_bisect_plane (mesh := mesh) bm geom co no).
Proof. unfold bm_bisect_plane, bm_write. eauto 8 with grid. Qed.

Lemma untouched_bm_split_edges i o bm es :
  bm <> i -> invariant (untouched i o) (bm_split_edges (mesh := mesh) bm es).
Proof. unfold bm_split_edges, bm_write. eauto 8 with grid. Qed.

End Derived.

#[export] Hint Resolve kept_bm_bisect_plane kept_bm_split_edges
  untouched_bm_bisect_plane untouched_bm_split_edges : grid.
