(* ===== verification/Script.v ===== *)
(** * Script: the procedures of [grid_cut_blender.py]

    One definition per function of the script, in the order of the file:
    [select], [perform_cuts], [cut], [get_index], [fix_pivots], [grid_cut]
    and the call at module level ([main]).  [floor] and [get_center] are in
    [Pivot].  The host calls are those of [Scene]; the mesh kernel is any
    implementation of the interface of [Mesh]. *)

From S2P Require Import Prelude Vector Pivot BoundBox Mesh PolySoup Scene.

Local Open Scope prog_scope.

(** ** Python's [range] *)

(** The number of elements of [range(start, stop, step)] for [step <> 0]. *)
Definition range_len (start stop step : Z) : Z :=
  if (0 <? step)%Z then Z.max 0 ((stop - start + step - 1) / step)
  else Z.max 0 ((start - stop - step - 1) / - step).

(** [range(start, stop, step)] as the list a [for] loop runs through;
    [None] for the [ValueError] of a zero step. *)
Definition range (start stop step : Z) : option (list Z) :=
  if (step =? 0)%Z then None
  else Some ((fun k => (start + Z.of_nat k * step)%Z)
               <$> seq 0 (Z.to_nat (range_len start stop step))).

Section Script.
Context {mesh elem : Type} `{!BMeshOps mesh elem}.

Abbreviation host := (host mesh).

(** ** [select] *)

Definition select (ob : nat) : host unit :=
  select_all_deselect ;;
  set_active ob ;;
  select_set ob true.

(** ** [perform_cuts] *)

(** [plane_co=(dir[0]*i, dir[1]*i, dir[2]*i)] *)
Definition plane_co (dir : tuple3) (i : Z) : tuple3 :=
  let '(d0, d1, d2) := dir in ((d0 * i)%Z, (d1 * i)%Z, (d2 * i)%Z).

(** The body of the loop: bisect all geometry of [target] by the plane at
    offset [i], then split the edges among the geometry on the cut. *)
Definition perform_cut (target : nat) (dir : tuple3) (i : Z) : host unit :=
  geom <- bm_read target (fun bm => bm_verts bm ++ bm_edges bm ++ bm_faces bm) ;;
  ret <- bm_bisect_plane target geom
           (vec_of_tuple (plane_co dir i)) (vec_of_tuple dir) ;;
  bm_split_edges target (List.filter is_edge ret).

Definition perform_cuts (target : nat) (_range : list Z) (dir : tuple3)
    : host unit :=
  for_each _range (perform_cut target dir).

(** ** [cut] *)

Definition cut (_range : list Z) : host unit :=
  mode_set EDIT ;;
  ob <- context_object ;;
  bm <- from_edit_mesh ob ;;
  perform_cuts bm _range (1, 0, 0)%Z ;;
  perform_cuts bm _range (0, 1, 0)%Z ;;
  perform_cuts bm _range (0, 0, 1)%Z ;;
  ob' <- context_object ;;
  update_edit_mesh ob' ;;
  separate_loose ;;
  mode_set OBJECT.

(** ** [get_index] *)

Definition get_index (target : nat) : host Vec :=
  bound_box <- get_bound_box target ;;
  pure (floor (get_center bound_box)).

(** ** [fix_pivots] *)

(** The body of the loop, for one target. *)
Definition fix_pivot (target : nat) : host unit :=
  select target ;;
  index <- get_index target ;;
  loc <- get_location target ;;
  set_location target (loc - index)%vec ;;
  transform_apply ;;
  set_location target index.

Definition fix_pivots : host unit :=
  targets <- selected_objects ;;
  for_each targets fix_pivot ;;
  set_selected_objects targets.

(** ** [grid_cut] and the call at module level *)

Definition grid_cut (_range : list Z) : host unit :=
  transform_apply ;;
  cut _range ;;
  fix_pivots.


(** ** What the procedures leave behind *)

(** The scene after [select(ob)]: every object deselected except [ob],
    which is selected and active. *)
Definition selected_only (ob : nat) (s : Scene mesh) : Scene mesh :=
  mkScene (alter (with_selected true) ob (deselect_all (objects s)))
          (Some ob) (mode s).

(** The directions [cut] passes to [perform_cuts], by axis. *)
Definition axis_dir (a : axis) : tuple3 :=
  match a with
  | AxisX => (1, 0, 0)%Z
  | AxisY => (0, 1, 0)%Z
  | AxisZ => (0, 0, 1)%Z
  end.

(** The plane of the grid at offset [k] along axis [a], as [perform_cuts]
    passes it to the bisection. *)
Definition grid_plane (a : axis) (k : Z) : Vec * Vec :=
  (vec_of_tuple (plane_co (axis_dir a) k), vec_of_tuple (axis_dir a)).

(** The planes [perform_cuts] runs through, each as point and normal. *)
Definition planes (dir : tuple3) (_range : list Z) : list (Vec * Vec) :=
  (fun i => (vec_of_tuple (plane_co dir i), vec_of_tuple dir)) <$> _range.

(** The planes of [cut]: the range along x, then along y, then along z. *)
Definition grid_planes (_range : list Z) : list (Vec * Vec) :=
  planes (1, 0, 0)%Z _range ++ planes (0, 1, 0)%Z _range
    ++ planes (0, 0, 1)%Z _range.

(** The scene with the mesh of object [bm] replaced. *)
Definition with_mesh (bm : nat) (m : mesh) (s : Scene mesh) : Scene mesh :=
  with_objects s (alter (with_data m) bm (objects s)).

(** The objects after [cut], when the active object [ob] is [o] with mesh
    [m]: the mesh is cut by the planes of the grid and separated into its
    loose parts. *)
Definition cut_objects (_range : list Z) (ob : nat) (o : Object mesh) (m : mesh)
    (os : list (Object mesh)) : list (Object mesh) :=
  let m' := cut_planes m (grid_planes _range) in
  let '(o', new) := separate_parts (with_data m' o) (loose_parts m') in
  <[ob := o']> os ++ new.

(** The pieces of the object [ob] in a scene that had [n] objects before
    the cut: the object itself and the objects added since. *)
Definition pieces (ob n : nat) (os : list (Object mesh)) : list (Object mesh) :=
  option_list (os !! ob) ++ drop n os.

(** The positions of the pieces of the object [ob] in a scene that had
    [n] objects before the cut: [ob] itself and the objects added. *)
Definition is_piece (ob n i : nat) : Prop := i = ob \/ n <= i.

(** The objects between [cut] and [fix_pivots], when [grid_cut] runs on a
    scene whose active object [ob] is [o] with mesh [m]. *)
Definition cut_stage (r : list Z) (ob : nat) (o : Object mesh) (m : mesh)
    (s : Scene mesh) : list (Object mesh) :=
  cut_objects r ob (apply_transform o) (transform (world_of o) m)
    (apply_if_selected <$> objects s).

(** The target of [fix_pivots] after its turn of the loop: moved back by
    its index, the transform applied, then placed at the index. *)
Definition fixed_pivot (o : Object mesh) : Object mesh :=
  let index := floor (get_center (bound_box o)) in
  with_location index
    (apply_transform
       (with_location (location o - index)%vec (with_selected true o))).

(** The object at position [i] after the loop of [fix_pivots] over
    [targets]: the targets have their pivot fixed and the last of them is
    the one left selected. *)
Definition after_pivots (targets : list nat) (i : nat) (o : Object mesh)
    : Object mesh :=
  match targets with
  | [] => o
  | _ =>
      if decide (i ∈ targets)
      then with_selected (bool_decide (last targets = Some i)) (fixed_pivot o)
      else with_selected false o
  end.

End Script.

(** ** Sample scenes on the reference kernel *)

(** A flat strip from (1/2, 1/2) to (5/2, 3/2) in the plane z = 0. *)
Definition strip : soup :=
  [[[mkVec 0.5 0.5 0; mkVec 2.5 0.5 0; mkVec 2.5 1.5 0; mkVec 0.5 1.5 0]]].

(** The strip as the one object of a scene, selected and active, moved by
    (10, 0, 0) and scaled by two. *)
Definition strip_object : Object soup :=
  mkObject (mkVec 10 0 0) (mkMat3 (mkVec 2 0 0) (mkVec 0 2 0) (mkVec 0 0 2))
           (Some strip) true.

Definition strip_scene : Scene soup := mkScene [strip_object] (Some 0%nat) OBJECT.



(** A scene of two objects, the second one not selected. *)
Definition pair_scene : Scene soup :=
  mkScene [strip_object; mkObject (mkVec 1 2 3) mat_id (Some square) false]
          (Some 0%nat) OBJECT.

(** A scene of two selected objects, the first one active. *)
Definition two_selected : Scene soup :=
  mkScene [strip_object; mkObject (mkVec 1 2 3) mat_id (Some square) true]
          (Some 0%nat) OBJECT.


(** ** [range] *)

Lemma range_len_spec start stop step k :
  (0 < step)%Z -> (0 <= k)%Z ->
  (k < range_len start stop step)%Z <-> (start + k * step < stop)%Z.
Proof.
  intros Hstep Hk. unfold range_len. rewrite (proj2 (Z.ltb_lt 0 step) Hstep).
  set (d := (stop - start + step - 1)%Z).
  pose proof (Z.div_mod d step ltac:(lia)) as Hd.
  pose proof (Z.mod_pos_bound d step Hstep) as Hm. subst d. split; intros H; nia.
Qed.

(** For a positive step [range(start, stop, step)] runs through
    exactly the values [start + k * step], for [k] from zero on, that are
    below [stop], in increasing order. *)
Theorem range_positive start stop step :
  (0 < step)%Z ->
  exists l, range start stop step = Some l /\
    (forall x, x ∈ l <->
       exists k, (0 <= k)%Z /\ x = (start + k * step)%Z /\ (x < stop)%Z) /\
    forall i x, l !! i = Some x -> x = (start + Z.of_nat i * step)%Z.
Proof.
  intros Hstep. unfold range. rewrite (proj2 (Z.eqb_neq step 0)) by lia.
  eexists. split; [done|]. split.
  - intros x. rewrite list_elem_of_fmap. setoid_rewrite elem_of_seq. split.
    + intros (n & -> & Hn). exists (Z.of_nat n). split_and!; [lia|done|].
      apply range_len_spec; lia.
    + intros (k & Hk & -> & Hlt). exists (Z.to_nat k).
      apply range_len_spec in Hlt; [|lia..]. split; [f_equal; lia | lia].
  - intros i x. rewrite list_lookup_fmap.
    intros (n & Hn & ->)%fmap_Some. apply lookup_seq in Hn as [-> _]. done.
Qed.

Lemma range_positive_witness :
  exists l, range 0 10 1 = Some l /\
    (forall x, x ∈ l <->
       exists k, (0 <= k)%Z /\ x = (0 + k * 1)%Z /\ (x < 10)%Z) /\
    forall i x, l !! i = Some x -> x = (0 + Z.of_nat i * 1)%Z.
Proof. apply range_positive. lia. Defined.

(** ** [select] *)

Section Select.
Context {mesh elem : Type} `{!BMeshOps mesh elem}.
Implicit Types (s : Scene mesh) (o : Object mesh) (ob i : nat).

Lemma select_run s ob :
  mode s = OBJECT -> ob < length (objects s) ->
  select ob s = Done tt (selected_only ob s).
Proof.
  intros Hm Hob. unfold select, bind, select_all_deselect. rewrite Hm.
  destruct (lookup_lt_is_Some_2 (deselect_all (objects s)) ob) as [o Ho];
    [by rewrite length_deselect_all|].
  unfold set_active, select_set, update_object, with_objects, selected_only.
  cbn [objects active mode]. rewrite Ho. cbn [objects]. rewrite Ho, Hm.
  do 2 f_equal. by apply insert_as_alter.
Qed.

Lemma selected_only_ids s ob :
  ob < length (objects s) -> selected_ids (objects (selected_only ob s)) = [ob].
Proof.
  intros Hob. apply NoDup_only; [apply NoDup_selected_ids|]. intros i.
  rewrite elem_of_selected_ids. cbn [objects selected_only]. split.
  - intros (o & Ho & Hs). destruct (decide (i = ob)) as [|Hne]; [done|].
    rewrite list_lookup_alter_ne, deselect_all_lookup in Ho by done.
    destruct (objects s !! i); by simplify_eq/=.
  - intros ->. destruct (lookup_lt_is_Some_2 _ _ Hob) as [o Ho].
    exists (with_selected true o).
    by rewrite list_lookup_alter_eq, deselect_all_lookup, Ho.
Qed.

(** C31. [select] makes its argument the one selected object and the active
    one, and changes nothing else of any object. *)
Theorem select_isolates s ob :
  mode s = OBJECT -> ob < length (objects s) ->
  raised (select ob s) = None /\
  selected_ids (objects (final_state (select ob s))) = [ob] /\
  active (final_state (select ob s)) = Some ob /\
  body <$> objects (final_state (select ob s)) = body <$> objects s.
Proof.
  intros Hm Hob. rewrite (select_run s ob Hm Hob). cbn [raised final_state].
  split_and!; [done | by apply selected_only_ids | done |].
  cbn [objects selected_only]. apply list_eq. intros i.
  rewrite !list_lookup_fmap. destruct (decide (i = ob)) as [->|Hne].
  - rewrite list_lookup_alter_eq, deselect_all_lookup.
    by destruct (objects s !! ob).
  - rewrite list_lookup_alter_ne, deselect_all_lookup by done.
    by destruct (objects s !! i).
Qed.

(** In edit mode [select] fails at its first call, with the scene
    untouched: the host refuses to change the selection of objects
    there. *)
Theorem select_in_edit_mode s ob :
  mode s = EDIT -> select ob s = Raise RuntimeError s.
Proof. intros Hm. unfold select, bind, select_all_deselect. by rewrite Hm. Qed.

End Select.

Lemma select_isolates_witness :
  raised (select 1%nat pair_scene) = None /\
  selected_ids (objects (final_state (select 1%nat pair_scene))) = [1%nat] /\
  active (final_state (select 1%nat pair_scene)) = Some 1%nat /\
  body <$> objects (final_state (select 1%nat pair_scene))
  = body <$> objects pair_scene.
Proof. apply select_isolates; [done | cbn; lia]. Defined.

Lemma select_in_edit_mode_witness :
  select 0%nat (mkScene (objects strip_scene) (Some 0%nat) EDIT)
  = Raise RuntimeError (mkScene (objects strip_scene) (Some 0%nat) EDIT).
Proof. by apply select_in_edit_mode. Defined.

(** ** [perform_cuts] and [cut] *)

Section Cut.
Context {mesh elem : Type} `{!BMeshOps mesh elem}.
Implicit Types (s : Scene mesh) (o : Object mesh) (m : mesh) (bm ob : nat)
  (dir : tuple3) (r : list Z).

Lemma with_mesh_lookup s bm o m :
  objects s !! bm = Some o ->
  objects (with_mesh bm m s) !! bm = Some (with_data m o).
Proof. intros Ho. cbn. by rewrite list_lookup_alter_eq, Ho. Qed.

Lemma with_mesh_twice s bm m m' :
  with_mesh bm m' (with_mesh bm m s) = with_mesh bm m' s.
Proof.
  unfold with_mesh, with_objects. cbn. f_equal.
  rewrite list_alter_alter_eq. by apply list_alter_ext.
Qed.

Lemma bm_write_run s bm o m :
  objects s !! bm = Some o -> bm_write bm m s = Done tt (with_mesh bm m s).
Proof.
  intros Ho. unfold bm_write. rewrite (update_object_run _ _ _ _ Ho).
  unfold with_mesh. by rewrite (insert_as_alter (with_data m) _ _ _ Ho).
Qed.

(** One turn of the loop of [perform_cuts] replaces the mesh under edit
    by its cut along the plane of the turn. *)
Lemma perform_cut_run s bm o m dir i :
  objects s !! bm = Some o -> data o = Some m ->
  perform_cut bm dir i s
  = Done tt (with_mesh bm (cut_plane m (vec_of_tuple (plane_co dir i))
                                       (vec_of_tuple dir)) s).
Proof.
  intros Ho Hm. unfold perform_cut, bm_bisect_plane, bm_split_edges.
  rewrite (bind_done _ _ _ _ _ (bm_read_run s bm o m _ Ho Hm)), bind_assoc.
  rewrite (bind_done _ _ _ _ _ (bm_read_run s bm o m _ Ho Hm)), bind_assoc.
  rewrite (bind_done _ _ _ _ _ (bm_write_run s bm o _ Ho)). cbn [pure bind].
  erewrite bind_done by (eapply bm_read_run; [by apply with_mesh_lookup|done]).
  erewrite bm_write_run by by apply with_mesh_lookup.
  rewrite with_mesh_twice. unfold cut_plane, bm_geom.
  by destruct (bisect_plane _ _ _ _).
Qed.

Lemma perform_cuts_run s bm o m dir r :
  objects s !! bm = Some o -> data o = Some m ->
  perform_cuts bm r dir s
  = Done tt (with_mesh bm (cut_planes m (planes dir r)) s).
Proof.
  unfold perform_cuts. revert s o m.
  induction r as [|i r IH]; intros s o m Ho Hm.
  - cbn [for_each fmap list_fmap planes pure]. f_equal.
    unfold with_mesh, with_objects, cut_planes. cbn [fold_left].
    rewrite <- (insert_as_alter (with_data m) _ _ o Ho).
    rewrite list_insert_id; [by destruct s|]. rewrite Ho.
    destruct o. by simplify_eq/=.
  - cbn [for_each]. rewrite (bind_done _ _ _ _ _ (perform_cut_run s bm o m dir i Ho Hm)).
    erewrite IH; [|by apply with_mesh_lookup|done]. by rewrite with_mesh_twice.
Qed.

Lemma cut_planes_app m (l1 l2 : list (Vec * Vec)) :
  cut_planes (cut_planes m l1) l2 = cut_planes m (l1 ++ l2).
Proof. unfold cut_planes. by rewrite fold_left_app. Qed.

Lemma cut_run s ob o m r :
  active s = Some ob -> objects s !! ob = Some o -> data o = Some m ->
  cut r s = Done tt (mkScene (cut_objects r ob o m (objects s)) (Some ob) OBJECT).
Proof.
  intros Ha Ho Hm. unfold cut.
  erewrite bind_done by by eapply mode_set_run.
  erewrite bind_done by by eapply context_object_run.
  erewrite bind_done by by eapply from_edit_mesh_run.
  erewrite bind_done by by eapply perform_cuts_run.
  erewrite bind_done by (eapply perform_cuts_run; [by apply with_mesh_lookup|done]).
  erewrite bind_done
    by (eapply perform_cuts_run; [by apply with_mesh_lookup, with_mesh_lookup|done]).
  rewrite !with_mesh_twice, !cut_planes_app. fold (grid_planes r).
  erewrite bind_done by by eapply context_object_run.
  erewrite bind_done by by eapply update_edit_mesh_run, with_mesh_lookup.
  erewrite bind_done by by eapply separate_loose_run; [..|by apply with_mesh_lookup|].
  erewrite mode_set_run by done.
  unfold cut_objects, with_mesh, with_objects. cbn [objects active mode].
  destruct (separate_parts _ _) as [o' new]. cbn [fst snd]. rewrite Ha.
  do 3 f_equal. rewrite <- (insert_as_alter (with_data _) _ _ o Ho).
  by rewrite list_insert_insert_eq.
Qed.

(** C6. [perform_cuts] refines the sequence of cuts: the loop over the
    range, which edits the mesh under edit in place through its handle,
    leaves it as the fold of [cut_plane] over the planes of the range
    leaves the mesh it started from, and touches nothing else. *)
Theorem perform_cuts_refines s bm o m dir r :
  objects s !! bm = Some o -> data o = Some m ->
  perform_cuts bm r dir s
  = Done tt (with_mesh bm (cut_planes m (planes dir r)) s).
Proof. apply perform_cuts_run. Qed.

(** C38. Without an active object [cut] fails at its first call and
    leaves the scene untouched. *)
Theorem cut_without_active_object s r :
  active s = None -> cut r s = Raise RuntimeError s.
Proof. intros Ha. unfold cut, bind, mode_set. by rewrite Ha. Qed.

(** C39. On an active object that is not a mesh [cut] fails with a
    [TypeError] when it asks for the mesh under edit; the scene is left in
    edit mode. *)
Theorem cut_not_a_mesh s ob o r :
  active s = Some ob -> objects s !! ob = Some o -> data o = None ->
  cut r s = Raise TypeError (mkScene (objects s) (active s) EDIT).
Proof.
  intros Ha Ho Hd. unfold cut.
  erewrite bind_done by by eapply mode_set_run.
  erewrite bind_done by by eapply context_object_run.
  apply bind_raise. unfold from_edit_mesh. cbn [objects]. by rewrite Ho, Hd.
Qed.

End Cut.

(** ** The pieces [cut] makes *)

Section Pieces.
Context {mesh elem : Type} `{!BMeshOps mesh elem} `{!BMeshLaws mesh elem}.
Implicit Types (s : Scene mesh) (o x : Object mesh) (m : mesh) (ob i : nat)
  (r : list Z) (os : list (Object mesh)).

Lemma elem_of_pieces ob n (os : list (Object mesh)) x :
  x ∈ pieces ob n os -> exists i, is_piece ob n i /\ os !! i = Some x.
Proof.
  unfold pieces, is_piece. intros [Hx|Hx]%elem_of_app.
  - exists ob. split; [by left|]. destruct (os !! ob); [|by apply elem_of_nil in Hx].
    by apply list_elem_of_singleton in Hx as ->.
  - apply list_elem_of_lookup in Hx as [j Hj]. rewrite lookup_drop in Hj.
    exists (n + j)%nat. split; [right; lia | done].
Qed.

Lemma no_parts_no_coords m : loose_parts m = [] -> coords m = [].
Proof.
  intros Hp. destruct (coords m) as [|v cs] eqn:E; [done|].
  assert (Hv : v ∈ coords m) by (rewrite E; left).
  apply coords_loose_parts in Hv as (p & Hin & _). rewrite Hp in Hin.
  by apply elem_of_nil in Hin.
Qed.

Lemma cut_objects_lookup r ob o m os i x :
  ob < length os -> cut_objects r ob o m os !! i = Some x ->
  let m' := cut_planes m (grid_planes r) in
  let sp := separate_parts (with_data m' o) (loose_parts m') in
  (i = ob /\ x = sp.1) \/ (length os <= i /\ x ∈ sp.2)
  \/ (i <> ob /\ os !! i = Some x).
Proof.
  intros Hob. unfold cut_objects. cbn zeta.
  destruct (separate_parts _ _) as [o' new]. cbn [fst snd].
  intros [H|[H Hn]]%lookup_app_Some.
  - destruct (decide (i = ob)) as [->|Hne].
    + rewrite list_lookup_insert_eq in H by done. left. by simplify_eq.
    + rewrite list_lookup_insert_ne in H by done. auto.
  - rewrite length_insert in H, Hn. right. left. split; [lia|].
    apply list_elem_of_lookup. eauto.
Qed.

(** The objects that are not cut stay where they are in the scene. *)
Lemma cut_objects_other r ob o m os i :
  i <> ob -> i < length os -> cut_objects r ob o m os !! i = os !! i.
Proof.
  intros Hne Hi. unfold cut_objects. destruct (separate_parts _ _).
  rewrite lookup_app_l by by rewrite length_insert.
  by rewrite list_lookup_insert_ne.
Qed.

(** A piece keeps the transform of the cut object and, when the cuts
    separate the mesh, lies on one side of every plane of the grid. *)
Lemma cut_objects_piece r ob o m os i x :
  ob < length os -> cut_objects r ob o m os !! i = Some x ->
  is_piece ob (length os) i ->
  location x = location o /\ basis x = basis o /\ is_Some (data x) /\
  (selected o = true -> selected x = true) /\
  (cuts_separate m (grid_planes r) ->
   forall pl, pl ∈ grid_planes r -> one_sided pl.1 pl.2 (local_coords x)).
Proof.
  intros Hob Hx Hpiece. set (m' := cut_planes m (grid_planes r)).
  set (sp := separate_parts (with_data m' o) (loose_parts m')).
  assert (Hin : x ∈ sp.1 :: sp.2 /\ (selected o = true -> selected x = true)).
  { destruct (cut_objects_lookup r ob o m os i x Hob Hx) as [[_ ->]|[[_ H]|[Hne H]]].
    - split; [left|]. unfold sp. by rewrite separate_parts_original.
    - split; [by right|]. intros _. by eapply separate_parts_selected.
    - apply lookup_lt_Some in H. destruct Hpiece; [done|lia]. }
  destruct Hin as [Hin Hsel].
  apply separate_parts_pieces in Hin as (Hl & Hb & Hd). split_and!; [done..| |done|].
  - destruct Hd as [[_ ->]|(p & _ & ->)]; by eexists.
  - intros Hsep [co no] Hpl. unfold local_coords. cbn [fst snd].
    destruct Hd as [[Hnil ->]|(p & Hp & ->)]; cbn [data with_data from_option].
    + rewrite (no_parts_no_coords m' Hnil). left. constructor.
    + by apply (cut_planes_one_sided m (grid_planes r) co no Hsep Hpl p).
Qed.

(** C5. After [perform_cuts], when each cut separates the mesh along
    its own plane, no loose part of the mesh under edit crosses a plane of
    the range: for every offset [i] of the range, every part lies on one
    side of the plane through [dir * i] with normal [dir].  Later cuts do
    not join what earlier cuts have separated. *)
Theorem perform_cuts_separates s bm o m dir r (k : Z) :
  objects s !! bm = Some o -> data o = Some m -> k ∈ r ->
  cuts_separate m (planes dir r) ->
  exists o' m',
    objects (final_state (perform_cuts bm r dir s)) !! bm = Some o' /\
    data o' = Some m' /\
    parts_one_sided (vec_of_tuple (plane_co dir k)) (vec_of_tuple dir) m'.
Proof.
  intros Ho Hm Hk Hsep. rewrite (perform_cuts_run s bm o m dir r Ho Hm).
  eexists _, _. split_and!; [by apply with_mesh_lookup | done |].
  apply cut_planes_one_sided; [done|]. apply list_elem_of_fmap. by exists k.
Qed.

(** C7. [cut] leaves the scene in object mode with the active object
    cut along the three axes and separated: when the cuts separate the
    mesh, every piece keeps the transform of the object and lies on one
    side of every plane of the grid, and the other objects are as they
    were. *)
Theorem cut_confines s ob o m r :
  active s = Some ob -> objects s !! ob = Some o -> data o = Some m ->
  cuts_separate m (grid_planes r) ->
  raised (cut r s) = None /\ mode (final_state (cut r s)) = OBJECT /\
  Forall (fun x => location x = location o /\ basis x = basis o /\
            forall pl, pl ∈ grid_planes r -> one_sided pl.1 pl.2 (local_coords x))
    (pieces ob (length (objects s)) (objects (final_state (cut r s)))) /\
  forall i, i <> ob -> i < length (objects s) ->
    objects (final_state (cut r s)) !! i = objects s !! i.
Proof.
  intros Ha Ho Hm Hsep. rewrite (cut_run s ob o m r Ha Ho Hm).
  cbn [raised final_state mode objects].
  pose proof (lookup_lt_Some _ _ _ Ho) as Hob. split_and!; [done..| |].
  - apply Forall_forall. intros x (i & Hp & Hx)%elem_of_pieces.
    destruct (cut_objects_piece r ob o m (objects s) i x) as (? & ? & _ & _ & ?);
      auto.
  - intros i Hne Hi. by apply cut_objects_other.
Qed.

End Pieces.

(** ** [fix_pivots] *)

Section FixPivots.
Context {mesh elem : Type} `{!BMeshOps mesh elem}.
Implicit Types (s : Scene mesh) (o : Object mesh) (target i : nat).

Lemma fix_pivot_run s target o :
  mode s = OBJECT -> objects s !! target = Some o ->
  fix_pivot target s
  = Done tt (mkScene (<[target := fixed_pivot o]> (deselect_all (objects s)))
                     (Some target) OBJECT).
Proof.
  intros Hm Ho. pose proof (lookup_lt_Some _ _ _ Ho) as Hlt.
  unfold fix_pivot, get_index, set_location.
  rewrite (bind_done _ _ _ _ _ (select_run s target Hm Hlt)).
  assert (Hsel : objects (selected_only target s) !! target
                 = Some (with_selected true o)).
  { cbn. by rewrite list_lookup_alter_eq, deselect_all_lookup, Ho. }
  rewrite bind_assoc.
  rewrite (bind_done _ _ _ _ _ (get_bound_box_run _ _ _ Hsel)). cbn [pure bind].
  rewrite (bind_done _ _ _ _ _ (get_location_run _ _ _ Hsel)).
  rewrite (bind_done _ _ _ _ _ (update_object_run _ _ _ _ Hsel)).
  erewrite bind_done.
  2:{ apply transform_apply_run; [by rewrite <- Hm|]. cbn [objects with_objects].
      apply existsb_selected_insert; [|done]. by eapply lookup_lt_Some. }
  erewrite update_object_run.
  2:{ cbn [objects with_objects].
      rewrite list_lookup_fmap, list_lookup_insert_eq; [done|].
      by eapply lookup_lt_Some. }
  unfold with_objects, selected_only. cbn [objects active mode].
  rewrite Hm. do 2 f_equal.
  rewrite list_fmap_insert, list_insert_insert_eq.
  rewrite <- (insert_as_alter (with_selected true) _ _ (with_selected false o))
    by (by rewrite deselect_all_lookup, Ho).
  by rewrite list_fmap_insert, list_insert_insert_eq, apply_deselected.
Qed.

Lemma fixed_pivot_with_selected b o :
  fixed_pivot (with_selected b o) = fixed_pivot o.
Proof. reflexivity. Qed.

Lemma fixed_pivot_selected o : with_selected true (fixed_pivot o) = fixed_pivot o.
Proof. unfold fixed_pivot, apply_transform. cbn. by destruct (data o). Qed.

(** One turn of the loop followed by the rest of the loop. *)
Lemma after_pivots_step t ts i o :
  t ∉ ts ->
  after_pivots ts i (if decide (i = t) then fixed_pivot o else with_selected false o)
  = after_pivots (t :: ts) i o.
Proof.
  intros Ht. destruct ts as [|t' ts]; cbn [after_pivots].
  - destruct (decide (i = t)) as [->|Hne].
    + rewrite decide_True by left. cbn [last].
      by rewrite bool_decide_eq_true_2, fixed_pivot_selected.
    + rewrite decide_False; [done|]. by intros ?%list_elem_of_singleton.
  - change (last (t :: t' :: ts)) with (last (t' :: ts)).
    destruct (decide (i = t)) as [->|Hne].
    + rewrite decide_False, decide_True by (done || left).
      f_equal. rewrite bool_decide_eq_false_2; [done|].
      intros Hl%last_Some_elem_of. done.
    + destruct (decide (i ∈ t' :: ts)) as [Hin|Hin].
      * by rewrite decide_True by by right.
      * rewrite decide_False; [done|]. by intros [?|?]%elem_of_cons.
Qed.

Lemma fix_pivot_loop targets s :
  NoDup targets -> mode s = OBJECT ->
  (forall t, t ∈ targets -> t < length (objects s)) ->
  exists s', for_each targets fix_pivot s = Done tt s' /\ mode s' = OBJECT /\
    length (objects s') = length (objects s) /\
    forall i o, objects s !! i = Some o ->
                objects s' !! i = Some (after_pivots targets i o).
Proof.
  intros Hnd. revert s. induction Hnd as [|t ts Ht _ IH]; intros s Hm Hlt.
  { exists s. by split_and!. }
  destruct (lookup_lt_is_Some_2 (objects s) t) as [o Ho]; [apply Hlt; left|].
  cbn [for_each]. rewrite (bind_done _ _ _ _ _ (fix_pivot_run s t o Hm Ho)).
  edestruct IH as (s' & -> & Hm' & Hlen & Hobj); [done| |].
  { intros t' Ht'. cbn [objects].
    rewrite length_insert, length_deselect_all. apply Hlt. by right. }
  exists s'. split_and!; [done..| |].
  { rewrite Hlen. cbn [objects]. by rewrite length_insert, length_deselect_all. }
  intros i oi Hi.
  rewrite <- after_pivots_step by done. apply Hobj. cbn [objects].
  destruct (decide (i = t)) as [->|Hne].
  - rewrite list_lookup_insert_eq; [congruence|].
    rewrite length_deselect_all. by eapply lookup_lt_Some.
  - by rewrite list_lookup_insert_ne, deselect_all_lookup, Hi.
Qed.

(** The loop leaves its last target active. *)
Lemma fix_pivot_loop_active targets s :
  mode s = OBJECT -> (forall t, t ∈ targets -> t < length (objects s)) ->
  active (final_state (for_each targets fix_pivot s))
  = from_option Some (active s) (last targets).
Proof.
  revert s. induction targets as [|t ts IH]; intros s Hm Hlt; [done|].
  destruct (lookup_lt_is_Some_2 (objects s) t) as [o Ho]; [apply Hlt; left|].
  cbn [for_each]. rewrite (bind_done _ _ _ _ _ (fix_pivot_run s t o Hm Ho)).
  rewrite IH, last_cons; [by destruct (last ts) | done |].
  intros t' Ht'. cbn [objects]. rewrite length_insert, length_deselect_all.
  apply Hlt. by right.
Qed.

End FixPivots.

(** ** The pivot of a target *)

Section Pivot.
Context {mesh elem : Type} `{!BMeshOps mesh elem} `{!BMeshLaws mesh elem}.
Implicit Types (s : Scene mesh) (o : Object mesh) (m : mesh).

Lemma fixed_pivot_location o :
  location (fixed_pivot o) = floor (get_center (bound_box o)).
Proof. reflexivity. Qed.

Lemma fixed_pivot_local o m :
  data o = Some m ->
  local_coords (fixed_pivot o)
  = (fun v => (mat_apply (basis o) v
               + (location o - floor (get_center (bound_box o))))%vec)
      <$> coords m.
Proof.
  intros Hm. unfold fixed_pivot, apply_transform, local_coords. cbn.
  rewrite Hm. cbn. by rewrite coords_transform.
Qed.

Lemma fixed_pivot_basis o m : data o = Some m -> basis (fixed_pivot o) = mat_id.
Proof. intros Hm. unfold fixed_pivot, apply_transform. cbn. by rewrite Hm. Qed.

Lemma fixed_pivot_world o m :
  data o = Some m -> world_coords (fixed_pivot o) ≡ world_coords o.
Proof.
  intros Hm. unfold world_coords. rewrite (fixed_pivot_local o m Hm).
  unfold local_coords. rewrite Hm. cbn [from_option].
  rewrite <- list_fmap_compose. apply list_fmap_equiv_ext. intros _ v _.
  unfold compose, world_of.
  rewrite (fixed_pivot_basis o m Hm), fixed_pivot_location, mat_apply_id.
  generalize (mat_apply (basis o) v), (location o). vec_solve.
Qed.

Lemma fix_pivots_run s :
  mode s = OBJECT ->
  exists s', fix_pivots s = Raise AttributeError s' /\ mode s' = OBJECT /\
    length (objects s') = length (objects s) /\
    forall i o, objects s !! i = Some o ->
      objects s' !! i = Some (after_pivots (selected_ids (objects s)) i o).
Proof.
  intros Hm. unfold fix_pivots, selected_objects, bind.
  destruct (fix_pivot_loop (selected_ids (objects s)) s) as (s' & -> & ? & ? & ?);
    [apply NoDup_selected_ids | done | | by exists s'].
  intros t (o & Ho & _)%elem_of_selected_ids. by eapply lookup_lt_Some.
Qed.

(** C4. [fix_pivots] moves the pivot of every selected mesh object to its
    grid index and leaves the object where it is in the world: the new
    location is the floor of the centre of the bounding box, the rotation
    and scale are applied, and the world positions of the vertices are
    unchanged. *)
Theorem fix_pivots_fixes s i o m :
  mode s = OBJECT -> objects s !! i = Some o ->
  selected o = true -> data o = Some m ->
  exists o', objects (final_state (fix_pivots s)) !! i = Some o' /\
    location o' = floor (get_center (bound_box o)) /\
    basis o' = mat_id /\
    world_coords o' ≡ world_coords o.
Proof.
  intros Hm Ho Hsel Hd. destruct (fix_pivots_run s Hm) as (s' & -> & _ & _ & Hobj).
  assert (Hin : i ∈ selected_ids (objects s)) by (apply elem_of_selected_ids; eauto).
  eexists. split; [by apply Hobj|]. unfold after_pivots.
  destruct (selected_ids (objects s)) as [|t ts] eqn:E; [by apply elem_of_nil in Hin|].
  rewrite decide_True by done. split_and!.
  - apply fixed_pivot_location.
  - by eapply fixed_pivot_basis.
  - by eapply fixed_pivot_world.
Qed.

(** C10. The pivot [fix_pivots] gives a target is the lower corner of the
    unit cell that holds the centre of its bounding box, and not that
    centre: the centre is at most one beyond the new location along every
    axis, and the two are the same point only when the centre has integer
    coordinates. *)
Theorem fix_pivots_corner s i o m :
  mode s = OBJECT -> objects s !! i = Some o ->
  selected o = true -> data o = Some m ->
  exists o', objects (final_state (fix_pivots s)) !! i = Some o' /\
    (location o' <= get_center (bound_box o))%vec /\
    (get_center (bound_box o) < location o' + ones)%vec /\
    (location o' ≡ get_center (bound_box o)
     <-> forall a, exists k : Z, coord a (get_center (bound_box o)) == inject_Z k).
Proof.
  intros Hm Ho Hsel Hd. destruct (fix_pivots_run s Hm) as (s' & -> & _ & _ & Hobj).
  assert (Hin : i ∈ selected_ids (objects s)) by (apply elem_of_selected_ids; eauto).
  eexists. split; [by apply Hobj|]. unfold after_pivots.
  destruct (selected_ids (objects s)) as [|t ts] eqn:E; [by apply elem_of_nil in Hin|].
  rewrite decide_True by done. cbn [location with_selected].
  rewrite fixed_pivot_location. split_and!; [apply floor_bounds.. | apply floor_fixed].
Qed.

(** [fix_pivots] leaves the objects that are not selected as they
    are. *)
Theorem fix_pivots_frame s i o :
  mode s = OBJECT -> objects s !! i = Some o -> selected o = false ->
  objects (final_state (fix_pivots s)) !! i = Some o.
Proof.
  intros Hm Ho Hsel. destruct (fix_pivots_run s Hm) as (s' & -> & _ & _ & Hobj).
  cbn [final_state]. rewrite (Hobj i o Ho). f_equal. unfold after_pivots.
  destruct (selected_ids (objects s)) as [|t ts] eqn:E; [done|].
  rewrite decide_False.
  - destruct o. by simplify_eq/=.
  - rewrite <- E. intros (o' & ? & ?)%elem_of_selected_ids. congruence.
Qed.

(** The objects [fix_pivots] leaves selected: the last target alone. *)
Lemma fix_pivots_selected s t :
  mode s = OBJECT -> last (selected_ids (objects s)) = Some t ->
  forall i o', objects (final_state (fix_pivots s)) !! i = Some o' ->
    (selected o' = true <-> i = t).
Proof.
  intros Hm Ht. destruct (fix_pivots_run s Hm) as (s' & -> & _ & Hlen & Hobj).
  cbn [final_state]. intros i o' Hi.
  destruct (lookup_lt_is_Some_2 (objects s) i) as [o Ho].
  { rewrite <- Hlen. by eapply lookup_lt_Some. }
  rewrite (Hobj i o Ho) in Hi. injection Hi as <-. unfold after_pivots.
  destruct (selected_ids (objects s)) as [|t0 ts] eqn:E; [done|].
  rewrite Ht. case_decide as Hi; cbn [selected with_selected].
  - rewrite bool_decide_eq_true. split; congruence.
  - split; [done|]. intros ->. by apply last_Some_elem_of in Ht.
Qed.

(** C22. [fix_pivots] does not restore the selection: when it ends, the
    last of the objects that were selected is the active object and the
    only selected one. *)
Theorem fix_pivots_selection s t :
  mode s = OBJECT -> last (selected_ids (objects s)) = Some t ->
  active (final_state (fix_pivots s)) = Some t /\
  forall i o', objects (final_state (fix_pivots s)) !! i = Some o' ->
    (selected o' = true <-> i = t).
Proof.
  intros Hm Ht. split; [|by apply fix_pivots_selected].
  assert (Hlt : forall t', t' ∈ selected_ids (objects s) -> t' < length (objects s))
    by (intros t' (o & Ho & _)%elem_of_selected_ids; by eapply lookup_lt_Some).
  pose proof (fix_pivot_loop_active _ s Hm Hlt) as Ha. rewrite Ht in Ha.
  destruct (fix_pivot_loop (selected_ids (objects s)) s)
    as (s' & Hloop & _); [apply NoDup_selected_ids | done..|].
  unfold fix_pivots, selected_objects, bind. by rewrite Hloop in *.
Qed.

(** C8. [fix_pivots] ends with an [AttributeError]: its last statement
    assigns to [bpy.context.selected_objects], which the host does not
    allow. *)
Theorem fix_pivots_raises s :
  mode s = OBJECT -> raised (fix_pivots s) = Some AttributeError.
Proof. intros Hm. by destruct (fix_pivots_run s Hm) as (s' & -> & _). Qed.

End Pivot.

Lemma fix_pivots_fixes_witness :
  exists o', objects (final_state (fix_pivots strip_scene)) !! 0%nat = Some o' /\
    location o' = floor (get_center (bound_box strip_object)) /\
    basis o' = mat_id /\
    world_coords o' ≡ world_coords strip_object.
Proof. by eapply (fix_pivots_fixes strip_scene 0 strip_object strip). Defined.

Lemma fix_pivots_corner_witness :
  exists o', objects (final_state (fix_pivots strip_scene)) !! 0%nat = Some o' /\
    (location o' <= get_center (bound_box strip_object))%vec /\
    (get_center (bound_box strip_object) < location o' + ones)%vec /\
    (location o' ≡ get_center (bound_box strip_object)
     <-> forall a, exists k : Z,
           coord a (get_center (bound_box strip_object)) == inject_Z k).
Proof. by eapply (fix_pivots_corner strip_scene 0 strip_object strip). Defined.

Lemma fix_pivots_frame_witness :
  objects (final_state (fix_pivots pair_scene)) !! 1%nat
  = Some (mkObject (mkVec 1 2 3) mat_id (Some square) false).
Proof. by apply fix_pivots_frame. Defined.

Lemma fix_pivots_selection_witness :
  active (final_state (fix_pivots strip_scene)) = Some 0%nat /\
  forall i o', objects (final_state (fix_pivots strip_scene)) !! i = Some o' ->
    (selected o' = true <-> i = 0%nat).
Proof. by apply fix_pivots_selection. Defined.

Lemma fix_pivots_raises_witness :
  raised (fix_pivots strip_scene) = Some AttributeError.
Proof. by apply fix_pivots_raises. Defined.

(** ** [grid_cut] *)

Section GridCut.
Context {mesh elem : Type} `{!BMeshOps mesh elem} `{!BMeshLaws mesh elem}.
Implicit Types (s : Scene mesh) (o x : Object mesh) (m : mesh) (ob i : nat)
  (r : list Z).

Lemma grid_cut_run s ob o m r :
  mode s = OBJECT -> active s = Some ob -> objects s !! ob = Some o ->
  selected o = true -> data o = Some m ->
  exists s', grid_cut r s = Raise AttributeError s' /\ mode s' = OBJECT /\
    length (objects s') = length (cut_stage r ob o m s) /\
    forall i x, cut_stage r ob o m s !! i = Some x ->
      objects s' !! i
      = Some (after_pivots (selected_ids (cut_stage r ob o m s)) i x).
Proof.
  intros Hm Ha Ho Hsel Hd. unfold grid_cut.
  erewrite bind_done
    by (apply transform_apply_run; [done|by eapply existsb_selected_lookup]).
  erewrite bind_done.
  2:{ eapply (cut_run _ ob (apply_transform o)); [done| |].
      - cbn [objects with_objects]. rewrite list_lookup_fmap, Ho. cbn.
        unfold apply_if_selected. by rewrite Hsel.
      - unfold apply_transform. rewrite Hd. done. }
  apply fix_pivots_run. done.
Qed.

Lemma flat_world x :
  basis x = mat_id -> location x = vzero -> world_coords x ≡ local_coords x.
Proof.
  intros Hb Hl. unfold world_coords. rewrite <- (list_fmap_id (local_coords x)) at 2.
  apply list_fmap_equiv_ext. intros _ v _. unfold world_of.
  by rewrite Hb, Hl, mat_apply_id, vadd_zero_r.
Qed.

(** The pivot of a piece that had no transform left: the piece stays in
    place and its location becomes the index of its bounding box in the
    world. *)
Lemma fixed_pivot_flat x :
  basis x = mat_id -> location x = vzero -> is_Some (data x) ->
  basis (fixed_pivot x) = mat_id /\
  world_coords (fixed_pivot x) ≡ local_coords x /\
  location (fixed_pivot x)
  = floor (get_center (bound_box_of (world_coords (fixed_pivot x)))).
Proof.
  intros Hb Hl [m Hd].
  assert (Hw : world_coords (fixed_pivot x) ≡ local_coords x)
    by by rewrite (fixed_pivot_world x m Hd), flat_world.
  split_and!; [by eapply fixed_pivot_basis | done |].
  by rewrite fixed_pivot_location, Hw.
Qed.

Local Open Scope Q_scope.

Lemma grid_plane_in_grid a k r : k ∈ r -> grid_plane a k ∈ grid_planes r.
Proof.
  intros Hk. unfold grid_planes. rewrite !elem_of_app.
  destruct a; [left | right; left | right; right];
    apply list_elem_of_fmap; by exists k.
Qed.

Lemma grid_plane_dist a k v :
  plane_dist (grid_plane a k).1 (grid_plane a k).2 v == coord a v - inject_Z k.
Proof.
  rewrite plane_dist_dot. unfold grid_plane, plane_co, vec_of_tuple, vec_of_ints, dot.
  destruct a, v as [x y z]; cbn [axis_dir fst snd vx vy vz coord];
    rewrite ?Z.mul_0_l, ?Z.mul_1_l; change (inject_Z 0) with 0;
    change (inject_Z 1) with 1; ring.
Qed.

Lemma one_sided_grid_plane a k cs :
  one_sided (grid_plane a k).1 (grid_plane a k).2 cs ->
  Forall (fun v => inject_Z k <= coord a v) cs
  \/ Forall (fun v => coord a v <= inject_Z k) cs.
Proof.
  unfold one_sided, above, below.
  intros [H|H]; [left|right]; (eapply Forall_impl; [exact H|]); cbn beta;
    intros v; rewrite grid_plane_dist; lra.
Qed.

(** The local coordinates of an object without rotation and scale are its
    world coordinates moved back by its location. *)
Lemma local_of_world x a lo hi :
  basis x = mat_id ->
  in_slab a (lo + coord a (location x)) (hi + coord a (location x)) (world_coords x) ->
  in_slab a lo hi (local_coords x).
Proof.
  intros Hb. unfold in_slab, world_coords. rewrite Forall_fmap.
  intros H. eapply Forall_impl; [exact H|]. intros v. unfold compose, world_of.
  rewrite Hb, coord_vadd, (coord_proper a _ _ (mat_apply_id v)). lra.
Qed.

(** Every piece of the cut object after [grid_cut], with what is known of
    it between [cut] and [fix_pivots]. *)
Lemma grid_cut_piece s ob o m r i x' :
  mode s = OBJECT -> active s = Some ob -> objects s !! ob = Some o ->
  selected o = true -> data o = Some m ->
  objects (final_state (grid_cut r s)) !! i = Some x' ->
  is_piece ob (length (objects s)) i ->
  exists x b, x' = with_selected b (fixed_pivot x) /\
    basis x = mat_id /\ location x = vzero /\ is_Some (data x) /\
    (cuts_separate (transform (world_of o) m) (grid_planes r) ->
     forall pl, pl ∈ grid_planes r -> one_sided pl.1 pl.2 (local_coords x)).
Proof.
  intros Hm Ha Ho Hsel Hd Hx' Hpiece.
  destruct (grid_cut_run s ob o m r) as (s' & Hrun & _ & Hlen & Hobj); [done..|].
  rewrite Hrun in Hx'. cbn [final_state] in Hx'.
  destruct (lookup_lt_is_Some_2 (cut_stage r ob o m s) i) as [x Hx].
  { rewrite <- Hlen. by eapply lookup_lt_Some. }
  rewrite (Hobj i x Hx) in Hx'. injection Hx' as <-.
  destruct (cut_objects_piece r ob (apply_transform o)
              (transform (world_of o) m) (apply_if_selected <$> objects s) i x)
    as (Hl & Hb & Hdx & Hs & Hone);
    [rewrite length_fmap; by eapply lookup_lt_Some | done
    | by rewrite length_fmap |].
  unfold apply_transform in Hl, Hb, Hs. rewrite Hd in Hl, Hb, Hs.
  assert (Hin : i ∈ selected_ids (cut_stage r ob o m s))
    by (apply elem_of_selected_ids; eauto).
  unfold after_pivots.
  destruct (selected_ids (cut_stage r ob o m s)); [by apply elem_of_nil in Hin|].
  rewrite decide_True by done. by eexists _, _.
Qed.

(** A piece after [grid_cut]: no rotation or scale, the location on the
    index of its bounding box in the world, and no plane of the grid
    across it. *)
Lemma grid_cut_piece_fixed s ob o m r x' :
  mode s = OBJECT -> active s = Some ob -> objects s !! ob = Some o ->
  selected o = true -> data o = Some m ->
  cuts_separate (transform (world_of o) m) (grid_planes r) ->
  x' ∈ pieces ob (length (objects s)) (objects (final_state (grid_cut r s))) ->
  basis x' = mat_id /\
  location x' = floor (get_center (bound_box_of (world_coords x'))) /\
  forall pl, pl ∈ grid_planes r -> one_sided pl.1 pl.2 (world_coords x').
Proof.
  intros Hm Ha Ho Hsel Hd Hsep (i & Hpiece & Hx')%elem_of_pieces.
  destruct (grid_cut_piece s ob o m r i x') as (x & b & -> & Hb & Hl & Hdx & Hone);
    [done..|].
  destruct (fixed_pivot_flat x Hb Hl Hdx) as (Hb' & Hw & Hl').
  split_and!; [done..|]. intros pl Hpl.
  change (world_coords (with_selected b (fixed_pivot x)))
    with (world_coords (fixed_pivot x)).
  rewrite Hw. by apply Hone.
Qed.

(** C1. After [grid_cut] on a mesh that the cuts of the grid separate,
    every piece of the cut object has its pivot on the grid and is
    confined by the grid: its rotation and scale are the identity, its
    location is the floor of the centre of its bounding box in the world,
    and no plane of the grid crosses it. *)
Theorem grid_cut_pieces s ob o m r :
  mode s = OBJECT -> active s = Some ob -> objects s !! ob = Some o ->
  selected o = true -> data o = Some m ->
  cuts_separate (transform (world_of o) m) (grid_planes r) ->
  Forall (fun x' =>
      basis x' = mat_id /\
      location x' = floor (get_center (bound_box_of (world_coords x'))) /\
      forall pl, pl ∈ grid_planes r -> one_sided pl.1 pl.2 (world_coords x'))
    (pieces ob (length (objects s)) (objects (final_state (grid_cut r s)))).
Proof.
  intros Hm Ha Ho Hsel Hd Hsep. apply Forall_forall. intros x' Hx'.
  by apply (grid_cut_piece_fixed s ob o m r).
Qed.

(** C2. After [grid_cut] on a mesh that the cuts of the grid separate,
    a piece whose location has the planes [k] and [k + 1] of the range on
    either side along an axis fills at most the unit cell there: its
    vertices are between these planes, so its local coordinates along the
    axis are between 0 and 1. *)
Theorem grid_cut_cells s ob o m r :
  mode s = OBJECT -> active s = Some ob -> objects s !! ob = Some o ->
  selected o = true -> data o = Some m ->
  cuts_separate (transform (world_of o) m) (grid_planes r) ->
  Forall (fun x' => forall a k,
      coord a (location x') = inject_Z k -> k ∈ r -> (k + 1)%Z ∈ r ->
      in_slab a 0 1 (local_coords x'))
    (pieces ob (length (objects s)) (objects (final_state (grid_cut r s)))).
Proof.
  intros Hm Ha Ho Hsel Hd Hsep. apply Forall_forall. intros x' Hx' a k Hk Hr Hr'.
  destruct (grid_cut_piece_fixed s ob o m r x') as (Hb & Hl & Hone); [done..|].
  apply local_of_world; [done|]. rewrite Hk.
  rewrite Hl, floor_coord in Hk. injection Hk as Hk.
  eapply in_slab_proper_bounds; [| |apply (cell_of_floor a k); [done|..]];
    [push_inject; lra.. | |]; apply one_sided_grid_plane, Hone;
    by apply grid_plane_in_grid.
Qed.

(** [grid_cut] does its work and then fails: on a scene in object
    mode whose active object is a selected mesh it ends with the
    [AttributeError] of the last statement of [fix_pivots]. *)
Theorem grid_cut_ends_raising s ob o m r :
  mode s = OBJECT -> active s = Some ob -> objects s !! ob = Some o ->
  selected o = true -> data o = Some m ->
  raised (grid_cut r s) = Some AttributeError.
Proof.
  intros Hm Ha Ho Hsel Hd.
  by destruct (grid_cut_run s ob o m r) as (s' & -> & _); [done..|].
Qed.

(** C40. With nothing selected [grid_cut] fails at its first call, the
    application of the transforms, and leaves the scene untouched. *)
Theorem grid_cut_nothing_selected s r :
  (forall o, o ∈ objects s -> selected o = false) ->
  grid_cut r s = Raise RuntimeError s.
Proof.
  intros Hnone. unfold grid_cut. apply bind_raise. unfold transform_apply.
  destruct (mode s); [|done]. destruct (existsb selected (objects s)) eqn:E; [|done].
  apply existsb_elem_of in E as (o & Ho & Hs). rewrite (Hnone o Ho) in Hs. done.
Qed.

End GridCut.


Lemma grid_cut_pieces_witness :
  Forall (fun x' =>
      basis x' = mat_id /\
      location x' = floor (get_center (bound_box_of (world_coords x'))) /\
      forall pl, pl ∈ grid_planes [1; 2; 3; 12; 13; 14]%Z ->
                 one_sided pl.1 pl.2 (world_coords x'))
    (pieces 0 1 (objects (final_state (grid_cut [1; 2; 3; 12; 13; 14]%Z strip_scene)))).
Proof.
  apply (grid_cut_pieces strip_scene 0 strip_object strip); [done..|].
  apply cuts_separate_always.
Defined.

Lemma grid_cut_cells_witness :
  Forall (fun x' => forall a k,
      coord a (location x') = inject_Z k ->
      k ∈ [1; 2; 3; 12; 13; 14]%Z -> (k + 1)%Z ∈ [1; 2; 3; 12; 13; 14]%Z ->
      in_slab a 0 1 (local_coords x'))
    (pieces 0 1 (objects (final_state (grid_cut [1; 2; 3; 12; 13; 14]%Z strip_scene)))).
Proof.
  apply (grid_cut_cells strip_scene 0 strip_object strip); [done..|].
  apply cuts_separate_always.
Defined.

Lemma perform_cuts_refines_witness :
  perform_cuts 0 [1; 2]%Z (1, 0, 0)%Z (mkScene [strip_object] (Some 0%nat) EDIT)
  = Done tt (with_mesh 0 (cut_planes strip (planes (1, 0, 0)%Z [1; 2]%Z))
               (mkScene [strip_object] (Some 0%nat) EDIT)).
Proof. by apply (perform_cuts_refines _ 0 strip_object). Defined.

Lemma perform_cuts_separates_witness :
  exists o' m',
    objects (final_state (perform_cuts 0 [1; 2]%Z (1, 0, 0)%Z
                            (mkScene [strip_object] (Some 0%nat) EDIT))) !! 0%nat
    = Some o' /\
    data o' = Some m' /\
    parts_one_sided (vec_of_tuple (plane_co (1, 0, 0)%Z 2))
                    (vec_of_tuple (1, 0, 0)%Z) m'.
Proof.
  apply (perform_cuts_separates _ 0 strip_object strip);
    [done.. | right; left | apply cuts_separate_always].
Defined.

Lemma cut_confines_witness :
  raised (cut [0; 1; 2]%Z strip_scene) = None /\
  mode (final_state (cut [0; 1; 2]%Z strip_scene)) = OBJECT /\
  Forall (fun x => location x = location strip_object /\
            basis x = basis strip_object /\
            forall pl, pl ∈ grid_planes [0; 1; 2]%Z ->
                       one_sided pl.1 pl.2 (local_coords x))
    (pieces 0 1 (objects (final_state (cut [0; 1; 2]%Z strip_scene)))) /\
  forall i, i <> 0%nat -> i < 1 ->
    objects (final_state (cut [0; 1; 2]%Z strip_scene)) !! i
    = objects strip_scene !! i.
Proof.
  apply (cut_confines strip_scene 0 strip_object strip); [done..|].
  apply cuts_separate_always.
Defined.

Lemma cut_without_active_object_witness :
  cut [0; 1]%Z (mkScene [strip_object] None OBJECT)
  = Raise RuntimeError (mkScene [strip_object] None OBJECT).
Proof. by apply cut_without_active_object. Defined.

Lemma cut_not_a_mesh_witness :
  cut [0; 1]%Z (mkScene [mkObject vzero mat_id (None : option soup) true]
                        (Some 0%nat) OBJECT)
  = Raise TypeError (mkScene [mkObject vzero mat_id None true] (Some 0%nat) EDIT).
Proof.
  by apply (cut_not_a_mesh
              (mkScene [mkObject vzero mat_id (None : option soup) true]
                       (Some 0%nat) OBJECT)
              0 (mkObject vzero mat_id None true)).
Defined.

Lemma grid_cut_ends_raising_witness :
  raised (grid_cut [0; 1; 2; 3]%Z strip_scene) = Some AttributeError.
Proof. by apply (grid_cut_ends_raising strip_scene 0 strip_object strip). Defined.

Lemma grid_cut_nothing_selected_witness :
  grid_cut [0; 1]%Z (mkScene [mkObject vzero mat_id (Some strip) false]
                             (Some 0%nat) OBJECT)
  = Raise RuntimeError (mkScene [mkObject vzero mat_id (Some strip) false]
                                (Some 0%nat) OBJECT).
Proof.
  apply grid_cut_nothing_selected. by intros o ->%list_elem_of_singleton.
Defined.

