(* ===== verification/Conserve.v ===== *)
(** * Conserve: the pieces hold the mesh, and nothing else

    [Script] shows where the pieces of [grid_cut] are; this file shows what
    they are made of.  Every vertex of the object is a vertex of some
    piece, at the same place in the world, and every vertex of a piece is
    a vertex of the object or lies on a plane of the grid.  The two laws
    of the kernel used here are [cut_keeps] and [cut_adds]. *)

From S2P Require Import Prelude Vector Pivot BoundBox Mesh PolySoup Scene Script.

Section Conserve.
Context {mesh elem : Type} `{!BMeshOps mesh elem} `{!BMeshLaws mesh elem}.
Implicit Types (s : Scene mesh) (o x : Object mesh) (m p : mesh) (ob i n : nat)
  (r : list Z) (v : Vec) (os : list (Object mesh)).

(** ** Lists of vectors up to [≡] *)

Lemma elem_of_equiv (l k : list Vec) v :
  l ≡ k -> v ∈ l -> exists v', v' ∈ k /\ v ≡ v'.
Proof.
  intros Hlk%list_equiv_Forall2 (j & Hj)%list_elem_of_lookup.
  destruct (Forall2_lookup_l _ _ _ _ _ Hlk Hj) as (v' & Hv' & Heq).
  exists v'. split; [|done]. apply list_elem_of_lookup. eauto.
Qed.

(** ** The pieces of a separation *)

Lemma separate_parts_cover o (parts : list mesh) p :
  p ∈ parts ->
  exists x, x ∈ (separate_parts o parts).1 :: (separate_parts o parts).2 /\
    data x = Some p.
Proof.
  destruct parts as [|p0 parts _] using rev_ind; [by intros ?%elem_of_nil|].
  rewrite separate_parts_snoc. cbn [fst snd].
  intros [Hp| ->%list_elem_of_singleton]%elem_of_app.
  - exists (part_object o p). split; [|done]. right.
    apply list_elem_of_fmap. eauto.
  - exists (with_data p0 o). split; [left|done].
Qed.

(** The pieces of the cut object are the objects the separation makes. *)
Lemma pieces_cut_objects r ob o m os :
  ob < length os ->
  let m' := cut_planes m (grid_planes r) in
  pieces ob (length os) (cut_objects r ob o m os)
  = (separate_parts (with_data m' o) (loose_parts m')).1
      :: (separate_parts (with_data m' o) (loose_parts m')).2.
Proof.
  intros Hob. cbn zeta. unfold pieces, cut_objects.
  destruct (separate_parts _ _) as [o' new]. cbn [fst snd].
  rewrite lookup_app_l, list_lookup_insert_eq by (rewrite ?length_insert; done).
  rewrite drop_app_length' by by rewrite length_insert. done.
Qed.

Lemma elem_of_pieces_2 ob n os i x :
  is_piece ob n i -> os !! i = Some x -> x ∈ pieces ob n os.
Proof.
  unfold pieces. intros [->|Hn] Hx; apply elem_of_app.
  - left. rewrite Hx. left.
  - right. apply list_elem_of_lookup. exists (i - n)%nat.
    rewrite lookup_drop. by replace (n + (i - n))%nat with i by lia.
Qed.

(** The local coordinates of the pieces of [cut] are the coordinates of
    the cut mesh. *)
Lemma cut_objects_coords r ob o m os v :
  ob < length os ->
  v ∈ coords (cut_planes m (grid_planes r)) <->
  exists x, x ∈ pieces ob (length os) (cut_objects r ob o m os) /\
            v ∈ local_coords x.
Proof.
  intros Hob. rewrite pieces_cut_objects by done.
  set (m' := cut_planes m (grid_planes r)). split.
  - intros (p & Hp & Hv)%coords_loose_parts.
    destruct (separate_parts_cover (with_data m' o) _ p Hp) as (x & Hx & Hd).
    exists x. split; [done|]. unfold local_coords. by rewrite Hd.
  - intros (x & (_ & _ & Hd)%separate_parts_pieces & Hv).
    unfold local_coords in Hv.
    destruct Hd as [[_ Hd]|(p & Hp & Hd)]; rewrite Hd in Hv; [done|].
    apply coords_loose_parts. eauto.
Qed.

(** ** The pieces after the pivots are fixed *)

Lemma with_selected_world b x :
  world_coords (with_selected b x) = world_coords x.
Proof. reflexivity. Qed.

Lemma fixed_pivot_keeps_world x : world_coords (fixed_pivot x) ≡ world_coords x.
Proof.
  destruct (data x) as [m|] eqn:Hd; [by eapply fixed_pivot_world|].
  unfold world_coords, local_coords, fixed_pivot, apply_transform.
  cbn [data with_location with_selected]. rewrite Hd.
  cbn [data with_location with_selected]. by rewrite Hd.
Qed.

Lemma after_pivots_world (targets : list nat) i x :
  world_coords (after_pivots targets i x) ≡ world_coords x.
Proof.
  unfold after_pivots. destruct targets; [done|]. case_decide; [|done].
  rewrite with_selected_world. apply fixed_pivot_keeps_world.
Qed.

(** A piece after [grid_cut], with its world coordinates as local
    coordinates of the piece [cut] made. *)
Lemma grid_cut_piece_world s ob o m r :
  mode s = OBJECT -> active s = Some ob -> objects s !! ob = Some o ->
  selected o = true -> data o = Some m ->
  let n := length (objects s) in
  (forall x, x ∈ pieces ob n (cut_stage r ob o m s) ->
     exists x', x' ∈ pieces ob n (objects (final_state (grid_cut r s))) /\
                world_coords x' ≡ local_coords x) /\
  (forall x', x' ∈ pieces ob n (objects (final_state (grid_cut r s))) ->
     exists x, x ∈ pieces ob n (cut_stage r ob o m s) /\
               world_coords x' ≡ local_coords x).
Proof.
  intros Hm Ha Ho Hsel Hd n.
  destruct (grid_cut_run s ob o m r) as (s' & -> & _ & Hlen & Hobj); [done..|].
  cbn [final_state].
  assert (Hflat : forall i x, is_piece ob n i -> cut_stage r ob o m s !! i = Some x ->
            world_coords (after_pivots (selected_ids (cut_stage r ob o m s)) i x)
            ≡ local_coords x).
  { intros i x Hi Hx. rewrite after_pivots_world.
    destruct (cut_objects_piece r ob (apply_transform o)
                (transform (world_of o) m) (apply_if_selected <$> objects s) i x)
      as (Hl & Hb & _); [rewrite length_fmap; by eapply lookup_lt_Some | done
                        | by rewrite length_fmap |].
    unfold apply_transform in Hl, Hb. rewrite Hd in Hl, Hb. by apply flat_world. }
  split.
  - intros x (i & Hi & Hx)%elem_of_pieces. eexists. split; [|by apply (Hflat i)].
    eapply elem_of_pieces_2; [done|by apply Hobj].
  - intros x' (i & Hi & Hx')%elem_of_pieces.
    destruct (lookup_lt_is_Some_2 (cut_stage r ob o m s) i) as [x Hx].
    { rewrite <- Hlen. by eapply lookup_lt_Some. }
    rewrite (Hobj i x Hx) in Hx'. injection Hx' as <-.
    exists x. split; [by eapply elem_of_pieces_2 | by apply Hflat].
Qed.

(** The coordinates of the mesh that [cut] works on in [grid_cut] are the
    world coordinates of the object. *)
Lemma applied_coords o m :
  data o = Some m -> coords (transform (world_of o) m) = world_coords o.
Proof.
  intros Hd. unfold world_coords, local_coords. rewrite Hd.
  apply coords_transform.
Qed.

(** C3. [grid_cut] loses nothing: every vertex of the object, at its
    place in the world, is a vertex of one of the pieces. *)
Theorem grid_cut_keeps s ob o m r :
  mode s = OBJECT -> active s = Some ob -> objects s !! ob = Some o ->
  selected o = true -> data o = Some m ->
  Forall (fun v =>
      Exists (fun x' => Exists (fun v' => v' ≡ v) (world_coords x'))
        (pieces ob (length (objects s)) (objects (final_state (grid_cut r s)))))
    (world_coords o).
Proof.
  intros Hm Ha Ho Hsel Hd. apply Forall_forall. intros v Hv.
  destruct (grid_cut_piece_world s ob o m r) as [Hto _]; [done..|].
  rewrite <- (applied_coords o m Hd) in Hv.
  apply (cut_planes_keeps _ (grid_planes r)) in Hv.
  apply (cut_objects_coords r ob (apply_transform o) _
           (apply_if_selected <$> objects s)) in Hv as (x & Hx & Hv);
    [|rewrite length_fmap; by eapply lookup_lt_Some].
  rewrite length_fmap in Hx. destruct (Hto x Hx) as (x' & Hx' & Hw).
  symmetry in Hw. destruct (elem_of_equiv _ _ v Hw Hv) as (v' & Hv' & Heq).
  apply Exists_exists. exists x'. split; [done|].
  apply Exists_exists. by exists v'.
Qed.

(** C11. [grid_cut] adds cut points only: every vertex of a piece is a
    vertex of the object, at its place in the world, or lies on a plane
    of the grid. *)
Theorem grid_cut_adds s ob o m r :
  mode s = OBJECT -> active s = Some ob -> objects s !! ob = Some o ->
  selected o = true -> data o = Some m ->
  Forall (fun x' =>
      Forall (fun v' =>
          Exists (fun v => v' ≡ v) (world_coords o) \/
          Exists (fun pl => plane_dist pl.1 pl.2 v' == 0)%Q (grid_planes r))
        (world_coords x'))
    (pieces ob (length (objects s)) (objects (final_state (grid_cut r s)))).
Proof.
  intros Hm Ha Ho Hsel Hd. apply Forall_forall. intros x' Hx'.
  apply Forall_forall. intros v' Hv'.
  destruct (grid_cut_piece_world s ob o m r) as [_ Hfrom]; [done..|].
  destruct (Hfrom x' Hx') as (x & Hx & Hw).
  destruct (elem_of_equiv _ _ v' Hw Hv') as (v & Hv & Heq).
  rewrite <- (length_fmap apply_if_selected) in Hx.
  assert (Hcut : v ∈ coords (cut_planes (transform (world_of o) m) (grid_planes r))).
  { eapply cut_objects_coords; [|eauto].
    rewrite length_fmap. by eapply lookup_lt_Some. }
  apply cut_planes_adds in Hcut as [Hcut|(pl & Hpl & Hon)]; [left|right];
    apply Exists_exists.
  - rewrite (applied_coords o m Hd) in Hcut. eauto.
  - exists pl. split; [done|]. by rewrite Heq.
Qed.

(** C21. [grid_cut] treats the other selected meshes like the pieces,
    without cutting them: a selected mesh object that is not the active
    one ends with identity rotation and scale and its location on the
    floor of the centre of its bounding box, at the same place in the
    world. *)
Theorem grid_cut_others s ob o m r i oi mi :
  mode s = OBJECT -> active s = Some ob -> objects s !! ob = Some o ->
  selected o = true -> data o = Some m ->
  i <> ob -> objects s !! i = Some oi -> selected oi = true -> data oi = Some mi ->
  exists x', objects (final_state (grid_cut r s)) !! i = Some x' /\
    basis x' = mat_id /\
    location x' = floor (get_center (bound_box_of (world_coords x'))) /\
    world_coords x' ≡ world_coords oi.
Proof.
  intros Hm Ha Ho Hsel Hd Hne Hi Hseli Hdi.
  destruct (grid_cut_run s ob o m r) as (s' & -> & _ & _ & Hobj); [done..|].
  set (x := apply_transform oi).
  assert (Hx : cut_stage r ob o m s !! i = Some x).
  { unfold cut_stage. rewrite cut_objects_other, list_lookup_fmap, Hi;
      [|done|rewrite length_fmap; by eapply lookup_lt_Some].
    cbn. unfold apply_if_selected. by rewrite Hseli. }
  assert (Hflat : basis x = mat_id /\ location x = vzero /\ data x
                  = Some (transform (world_of oi) mi) /\ selected x = true)
    by (unfold x, apply_transform; by rewrite Hdi).
  destruct Hflat as (Hb & Hl & Hdx & Hsx).
  destruct (fixed_pivot_flat x Hb Hl) as (Hb' & Hw & Hl'); [by eexists|].
  eexists. split; [by apply Hobj|]. unfold after_pivots.
  assert (Hin : i ∈ selected_ids (cut_stage r ob o m s))
    by (apply elem_of_selected_ids; eauto).
  destruct (selected_ids _); [by apply elem_of_nil in Hin|].
  rewrite decide_True by done. split_and!; [done..|].
  rewrite with_selected_world, Hw. unfold local_coords. rewrite Hdx.
  by rewrite <- (applied_coords oi mi Hdi).
Qed.

End Conserve.

Lemma grid_cut_keeps_witness :
  Forall (fun v =>
      Exists (fun x' => Exists (fun v' => v' ≡ v) (world_coords x'))
        (pieces 0 1 (objects (final_state (grid_cut [12; 13; 14]%Z strip_scene)))))
    (world_coords strip_object).
Proof. by apply (grid_cut_keeps strip_scene 0 strip_object strip). Defined.

Lemma grid_cut_adds_witness :
  Forall (fun x' =>
      Forall (fun v' =>
          Exists (fun v => v' ≡ v) (world_coords strip_object) \/
          Exists (fun pl => plane_dist pl.1 pl.2 v' == 0)%Q
            (grid_planes [12; 13; 14]%Z))
        (world_coords x'))
    (pieces 0 1 (objects (final_state (grid_cut [12; 13; 14]%Z strip_scene)))).
Proof. by apply (grid_cut_adds strip_scene 0 strip_object strip). Defined.

Lemma grid_cut_others_witness :
  exists x',
    objects (final_state (grid_cut [12; 13; 14]%Z two_selected)) !! 1%nat = Some x' /\
    basis x' = mat_id /\
    location x' = floor (get_center (bound_box_of (world_coords x'))) /\
    world_coords x' ≡ world_coords (mkObject (mkVec 1 2 3) mat_id (Some square) true).
Proof.
  by apply (grid_cut_others two_selected 0 strip_object strip _ 1 _ square).
Defined.
