(* ===== verification/Again.v ===== *)
(** * Again: the pivot fix applied to its own result

    [fix_pivots] reads the bounding box of a target in the local frame and
    uses its index as a position in the world.  The two frames agree when
    the transform of the target has been applied, which [grid_cut] does
    first.  This file follows the fix on an object whose pivot it has
    fixed already: the object stays where it is in the world, and its
    location becomes what is left of the index in the world when the
    location before is taken away.  For a piece of [grid_cut] that is the
    origin of the world, so a second run of [fix_pivots] takes the pivots
    back from the cells to the origin. *)

From S2P Require Import Prelude Vector Pivot BoundBox Mesh PolySoup Scene Script.
From S2P Require Import Conserve.

(** A square in the cell with corner (3, 1, 0), as the one object of a
    scene, without transform. *)
Definition shifted : soup :=
  [[[mkVec 3.25 1.25 0; mkVec 3.75 1.25 0; mkVec 3.75 1.75 0; mkVec 3.25 1.75 0]]].

Definition flat_object : Object soup := mkObject vzero mat_id (Some shifted) true.

Definition flat_scene : Scene soup := mkScene [flat_object] (Some 0%nat) OBJECT.

Section Again.
Context {mesh elem : Type} `{!BMeshOps mesh elem} `{!BMeshLaws mesh elem}.
Implicit Types (s : Scene mesh) (o : Object mesh) (m : mesh) (t i : nat)
  (v k : Vec) (cs : list Vec).

(** ** The index of a translated box *)

Lemma floor_shift v k : integral k -> floor (v + k) ≡ (floor v + k)%vec.
Proof. intros (a & b & c & ->). apply floor_translate. Qed.

Lemma integral_neg k : integral k -> integral (vzero - k).
Proof.
  intros (a & b & c & ->). exists (- a)%Z, (- b)%Z, (- c)%Z.
  unfold vsub, vzero, vec_of_ints, Qminus, Qplus, Qopp, inject_Z. cbn.
  f_equal; f_equal; lia.
Qed.

Lemma index_shift cs k :
  cs <> [] -> integral k ->
  floor (get_center (bound_box_of ((fun p => (p + k)%vec) <$> cs)))
  ≡ (floor (get_center (bound_box_of cs)) + k)%vec.
Proof.
  intros Hcs Hk. rewrite bound_box_translate by done.
  rewrite get_center_translate by apply bound_box_length.
  by apply floor_shift.
Qed.

(** ** The object after one fix, seen from the world *)

Lemma world_coords_data o m :
  data o = Some m -> world_coords o = world_of o <$> coords m.
Proof. intros Hd. unfold world_coords, local_coords. by rewrite Hd. Qed.

Lemma fixed_pivot_local_world o m :
  data o = Some m ->
  local_coords (fixed_pivot o)
  ≡ (fun p => (p + (vzero - floor (get_center (bound_box o))))%vec)
      <$> world_coords o.
Proof.
  intros Hd. rewrite (fixed_pivot_local o m Hd), (world_coords_data o m Hd).
  rewrite <- list_fmap_compose. apply list_fmap_equiv_ext. intros _ v _.
  unfold compose, world_of.
  generalize (mat_apply (basis o) v), (location o), (floor (get_center (bound_box o))).
  vec_solve.
Qed.

Lemma fixed_pivot_data o m : data o = Some m -> is_Some (data (fixed_pivot o)).
Proof. intros Hd. unfold fixed_pivot, apply_transform. cbn. by rewrite Hd. Qed.

(** The index the fix reads from an object it has fixed, and the index it
    read the first time, add up to the index of the object in the world. *)
Lemma second_index o m :
  data o = Some m ->
  (floor (get_center (bound_box (fixed_pivot o)))
   + floor (get_center (bound_box o)))%vec
  ≡ floor (get_center (bound_box_of (world_coords o))).
Proof.
  intros Hd. unfold bound_box at 1. rewrite (fixed_pivot_local_world o m Hd).
  destruct (world_coords o) as [|c cs] eqn:Hw.
  - rewrite (world_coords_data o m Hd) in Hw. apply fmap_nil_inv in Hw.
    unfold bound_box, local_coords. rewrite Hd. cbn [from_option]. rewrite Hw.
    vec_decide.
  - rewrite index_shift by (done || apply integral_neg, floor_integral).
    generalize (floor (get_center (bound_box_of (c :: cs)))),
      (floor (get_center (bound_box o))). vec_solve.
Qed.

(** ** The second run of [fix_pivots] *)

Lemma selected_ids_only (os : list (Object mesh)) t :
  t < length os ->
  (forall i o, os !! i = Some o -> (selected o = true <-> i = t)) ->
  selected_ids os = [t].
Proof.
  intros Hlt Hsel. apply NoDup_only; [apply NoDup_selected_ids|].
  intros i. rewrite elem_of_selected_ids. split.
  - intros (o & Ho & Hs). by apply (Hsel i o Ho).
  - intros ->. destruct (lookup_lt_is_Some_2 os t Hlt) as [o Ho].
    exists o. split; [done|]. by apply (Hsel t o Ho).
Qed.

(** The last target after one run and after two. *)
Lemma fix_pivots_twice_object s t o :
  mode s = OBJECT -> last (selected_ids (objects s)) = Some t ->
  objects s !! t = Some o ->
  objects (final_state (fix_pivots (final_state (fix_pivots s)))) !! t
  = Some (with_selected true (fixed_pivot (fixed_pivot o))).
Proof.
  intros Hm Ht Ho. pose proof (fix_pivots_selected s t Hm Ht) as Hsel.
  destruct (fix_pivots_run s Hm) as (s1 & Hrun & Hm1 & Hlen & Hobj).
  rewrite Hrun in *. cbn [final_state] in *.
  assert (Hids : selected_ids (objects s1) = [t]).
  { apply selected_ids_only; [|done]. rewrite Hlen. by eapply lookup_lt_Some. }
  destruct (fix_pivots_run s1 Hm1) as (s2 & -> & _ & _ & Hobj2).
  cbn [final_state]. rewrite (Hobj2 t _ (Hobj t o Ho)), Hids. f_equal.
  unfold after_pivots at 1. rewrite decide_True by left. cbn [last].
  rewrite bool_decide_eq_true_2 by done. f_equal.
  unfold after_pivots. destruct (selected_ids (objects s)); [done|].
  rewrite decide_True by by apply last_Some_elem_of.
  apply fixed_pivot_with_selected.
Qed.

(** C23. A second run of [fix_pivots] does not put the pivot of the last
    target where the first one did: the new location and the index of the
    first run add up to the index of the object in the world, and the
    object stays where it is.  For an object without transform, as the
    pieces of [cut] are, the first run moves the pivot to the cell and the
    second moves it back to the origin. *)
Theorem fix_pivots_twice s t o m :
  mode s = OBJECT -> last (selected_ids (objects s)) = Some t ->
  objects s !! t = Some o -> data o = Some m ->
  exists o2,
    objects (final_state (fix_pivots (final_state (fix_pivots s)))) !! t = Some o2 /\
    (location o2 + floor (get_center (bound_box o)))%vec
    ≡ floor (get_center (bound_box_of (world_coords o))) /\
    world_coords o2 ≡ world_coords o /\
    (basis o = mat_id -> location o = vzero -> location o2 ≡ vzero).
Proof.
  intros Hm Ht Ho Hd. eexists. split; [by apply fix_pivots_twice_object|].
  destruct (fixed_pivot_data o m Hd) as [m1 Hd1].
  pose proof (second_index o m Hd) as Hidx.
  cbn [location with_selected]. rewrite fixed_pivot_location.
  split_and!; [done| |].
  - rewrite with_selected_world, (fixed_pivot_world _ m1 Hd1).
    by apply (fixed_pivot_world o m).
  - intros Hb Hl. rewrite (flat_world o Hb Hl) in Hidx. fold (bound_box o) in Hidx.
    revert Hidx. generalize (floor (get_center (bound_box (fixed_pivot o)))),
      (floor (get_center (bound_box o))). vec_solve.
Qed.

End Again.

Lemma fix_pivots_twice_witness :
  exists o2,
    objects (final_state (fix_pivots (final_state (fix_pivots flat_scene)))) !! 0%nat
    = Some o2 /\
    (location o2 + floor (get_center (bound_box flat_object)))%vec
    ≡ floor (get_center (bound_box_of (world_coords flat_object))) /\
    world_coords o2 ≡ world_coords flat_object /\
    (basis flat_object = mat_id -> location flat_object = vzero ->
     location o2 ≡ vzero).
Proof. by apply (fix_pivots_twice flat_scene 0 flat_object shifted). Defined.

