(* ===== verification/Weld.v ===== *)
(** * Weld: a kernel in which faces hang together through vertices

    In the host a loose part is what can be reached from a vertex along
    edges, so two faces that meet in one vertex belong to one part.
    [split_edges] takes the faces apart along the edges it is given and
    gives every fan of faces around an end of such an edge a vertex of its
    own; a vertex on none of these edges stays one vertex.  The script
    passes the edges of [geom_cut] and not its vertices (line 14).

    [PolySoup] joins faces through shared edges only.  This file gives the
    kernel that joins them through shared corners as well: the faces of
    [PolySoup], regrouped by [touching].  It satisfies the laws of [Mesh]
    ([weld_laws]), so what is proved of the script from them holds on it.
    Its cuts separate exactly the meshes without a [pinch]: two faces on
    opposite sides of the plane that meet in a corner on the plane through
    which no edge of the plane runs ([weld_cuts_separate]).  Without a
    pinch the pieces of [grid_cut] are confined by the grid as on the
    kernel of [PolySoup] ([weld_grid_cut_pieces]); on a mesh with a pinch
    the script leaves a piece that spans two cells ([main_bowtie]). *)

From stdpp Require Import numbers.
From S2P Require Import Prelude Vector Pivot BoundBox Mesh PolySoup Scene Script.

Local Open Scope Q_scope.

(** ** Data and operations *)

Record weld : Type := Weld { soup_of : soup }.

(** [v] is an end of one of the edges [es]. *)
Definition on_edges (es : list selem) (v : Vec) : bool :=
  existsb (fun x => match x with
                    | SEdge p q => veqb v p || veqb v q
                    | _ => false
                    end) es.

(** Two faces share a corner that is on none of the edges [es]: the split
    along [es] leaves it one vertex. *)
Definition pinned (es : list selem) (f g : face) : bool :=
  existsb (fun v => negb (on_edges es v) && existsb (veqb v) g) f.

(** Two faces hang together after the split along [es]. *)
Definition touching (es : list selem) (f g : face) : bool :=
  adjacent es f g || pinned es f g.

Definition weld_bisect_plane (m : weld) (geom : list selem) (co no : Vec)
    : weld * list selem :=
  let '(m1, geom_cut) := soup_bisect_plane (soup_of m) geom co no in
  (Weld m1, geom_cut).

Definition weld_split_edges (m : weld) (es : list selem) : weld :=
  Weld (soup_of m ≫= group_faces (touching es)).

Definition weld_loose_parts (m : weld) : list weld :=
  Weld <$> soup_loose_parts (soup_of m).

#[export] Instance weld_ops : BMeshOps weld selem := {
  bm_verts m := soup_verts (soup_of m);
  bm_edges m := soup_edges (soup_of m);
  bm_faces m := soup_faces (soup_of m);
  is_edge := soup_is_edge;
  coords m := soup_coords (soup_of m);
  bisect_plane := weld_bisect_plane;
  split_edges := weld_split_edges;
  loose_parts := weld_loose_parts;
  transform f m := Weld (soup_transform f (soup_of m));
}.

(** ** Pinches *)

(** Two faces of a part that do not lie on one side of the plane and meet
    in a corner which is on no edge of the mesh in the plane. *)
Definition pinch (co no : Vec) (m : soup) : Prop :=
  Exists (fun q => Exists (fun f => Exists (fun g =>
    pinned (edges_on_plane co no (mjoin m)) f g = true /\
    ~ one_sided co no (f ++ g)) q) q) m.

#[export] Instance pinch_dec co no m : Decision (pinch co no m).
Proof. unfold pinch. apply _. Defined.

(** No cut of the sequence meets a pinch in the mesh it is made on. *)
Fixpoint no_pinches (m : soup) (planes : list (Vec * Vec)) : Prop :=
  match planes with
  | [] => True
  | pl :: planes' =>
      ~ pinch pl.1 pl.2 (bisect_all pl.1 pl.2 m) /\
      no_pinches (cut_with touching pl.1 pl.2 m) planes'
  end.

#[export] Instance no_pinches_dec m planes : Decision (no_pinches m planes).
Proof. revert m. induction planes; intros m; cbn [no_pinches]; apply _. Defined.

(** ** Samples *)

(** Two triangles at height 1/2 that meet in the corner (1, 1/2, 1/2), one
    in the cell with corner (0, 0, 0) and one in the cell with corner
    (1, 0, 0). *)
Definition bowtie : soup :=
  [[[mkVec 1 0.5 0.5; mkVec 0.25 0.25 0.5; mkVec 0.25 0.75 0.5];
    [mkVec 1 0.5 0.5; mkVec 1.75 0.75 0.5; mkVec 1.75 0.25 0.5]]].


(** The strip of [Script] on this kernel. *)
Definition weld_strip_scene : Scene weld :=
  mkScene [mkObject (mkVec 10 0 0) (mkMat3 (mkVec 2 0 0) (mkVec 0 2 0) (mkVec 0 0 2))
             (Some (Weld strip)) true] (Some 0%nat) OBJECT.


(** ** Corners and edges *)

Section Corners.
Context (co no : Vec).
Implicit Types (f g : face) (fs : list face) (es : list selem) (v w : Vec).

Lemma on_edges_spec es v :
  on_edges es v = true <-> exists p q, SEdge p q ∈ es /\ (v ≡ p \/ v ≡ q).
Proof.
  unfold on_edges. rewrite existsb_elem_of. split.
  - intros ([| p q |] & Hx & H); try done. exists p, q. split; [done|].
    apply orb_true_iff in H. by rewrite !(reflect_iff _ _ (veqb_spec _ _)).
  - intros (p & q & Hx & H). exists (SEdge p q). split; [done|].
    apply orb_true_iff. by rewrite <- !(reflect_iff _ _ (veqb_spec _ _)).
Qed.

#[export] Instance on_edges_proper es : Proper ((≡) ==> eq) (on_edges es).
Proof.
  intros v v' Hv. apply eq_true_iff_eq. rewrite !on_edges_spec.
  by setoid_rewrite Hv.
Qed.

Lemma pinned_spec es f g :
  pinned es f g = true <->
  exists v v', v ∈ f /\ v' ∈ g /\ v ≡ v' /\ on_edges es v = false.
Proof.
  unfold pinned. rewrite existsb_elem_of. split.
  - intros (v & Hv & [Hoff (v' & Hv' & Heq)%existsb_elem_of]%andb_true_iff).
    exists v, v'. apply negb_true_iff in Hoff.
    by rewrite (reflect_iff _ _ (veqb_spec _ _)).
  - intros (v & v' & Hv & Hv' & Heq & Hoff). exists v. split; [done|].
    rewrite Hoff. apply existsb_elem_of. exists v'.
    by rewrite <- (reflect_iff _ _ (veqb_spec _ _)).
Qed.

Lemma pinned_sym es f g : pinned es f g = true -> pinned es g f = true.
Proof.
  rewrite !pinned_spec. intros (v & v' & Hv & Hv' & Heq & Hoff).
  exists v', v. by rewrite <- (on_edges_proper es v v' Heq).
Qed.

(** A face with a corner on the plane that is on no edge of the plane has
    a corner off the plane. *)
Lemma off_plane_corner fs f v :
  f ∈ fs -> v ∈ f -> on_edges (edges_on_plane co no fs) v = false ->
  exists w, w ∈ f /\ ~ on_plane co no w.
Proof.
  intros Hf Hv Hoff. destruct (decide (on_plane co no v)) as [Hon|]; [|eauto].
  destruct (loop_edges_starts f v Hv) as ([v0 w] & He & <-).
  exists w. split; [by apply (loop_edges_ends f (v0, w))|]. intros Hw.
  apply not_true_iff_false in Hoff. apply Hoff, on_edges_spec.
  exists v0, w. split; [|by left]. unfold edges_on_plane.
  apply (list_elem_of_fmap_2 (fun e => SEdge e.1 e.2) _ (v0, w)).
  apply list_elem_of_filter. split; [done|]. apply list_elem_of_bind. eauto.
Qed.

(** Two faces on one side of the plane, each with a corner off it, are
    strictly on the same side. *)
Lemma one_sided_strict f g w w' :
  one_sided co no (f ++ g) -> w ∈ f -> w' ∈ g ->
  ~ on_plane co no w -> ~ on_plane co no w' ->
  (above co no f /\ ~ below co no f /\ above co no g /\ ~ below co no g) \/
  (below co no f /\ ~ above co no f /\ below co no g /\ ~ above co no g).
Proof.
  unfold one_sided, above, below, on_plane. rewrite !Forall_app, !Forall_forall.
  intros [[Hf Hg]|[Hf Hg]] Hw Hw' Hoff Hoff'; [left|right]; split_and!;
    try done; intros H;
    [specialize (Hf w Hw); specialize (H w Hw)
    |specialize (Hg w' Hw'); specialize (H w' Hw')
    |specialize (Hf w Hw); specialize (H w Hw)
    |specialize (Hg w' Hw'); specialize (H w' Hw')]; lra.
Qed.
End Corners.

(** ** The laws of [Mesh] on this kernel *)

Section Laws.
Implicit Types (m : weld) (co no v : Vec).

(** One cut of the script on this kernel: clip every face, then regroup
    the faces of every part by what still touches. *)
Lemma weld_cut_plane m co no :
  cut_plane m co no = Weld (cut_with touching co no (soup_of m)).
Proof.
  unfold cut_plane, cut_with. cbn [bisect_plane split_edges is_edge weld_ops].
  unfold weld_bisect_plane. change (bm_geom m) with (bm_geom (soup_of m)).
  pose proof (bisect_plane_all (soup_of m) co no) as Hall.
  unfold soup_bisect_plane in *. cbn [fst] in Hall. unfold weld_split_edges.
  cbn [soup_of]. by rewrite Hall, reported_edges.
Qed.

Lemma weld_loose_part m (p : weld) :
  p ∈ loose_parts m <-> exists q, q ∈ soup_of m /\ p = Weld [q].
Proof.
  cbn [loose_parts weld_ops]. unfold weld_loose_parts, soup_loose_parts.
  rewrite <- list_fmap_compose, list_elem_of_fmap.
  split; intros (q & ? & ?); by exists q.
Qed.

Lemma weld_coords_transform (h : Vec -> Vec) m :
  coords (transform h m) = h <$> coords m.
Proof. apply soup_coords_transform. Qed.

Lemma weld_coords_loose_parts m v :
  v ∈ coords m <-> exists p, p ∈ loose_parts m /\ v ∈ coords p.
Proof.
  cbn [coords weld_ops]. rewrite soup_coords_loose_parts. split.
  - intros (? & (q & -> & Hq)%list_elem_of_fmap & Hv). exists (Weld [q]).
    split; [apply weld_loose_part; eauto | done].
  - intros (? & (q & Hq & ->)%weld_loose_part & Hv). exists [q].
    split; [apply list_elem_of_fmap; eauto | done].
Qed.

Lemma weld_cut_refines m co no (p' : weld) :
  p' ∈ loose_parts (cut_plane m co no) ->
  exists p, p ∈ loose_parts m /\
    forall a b, within a b (coords p) -> within a b (coords p').
Proof.
  rewrite weld_cut_plane. intros (g & Hg & ->)%weld_loose_part.
  destruct (cut_with_refines _ _ _ _ _ Hg) as (q & Hq & Hin).
  exists (Weld [q]). split; [apply weld_loose_part; eauto|].
  intros a b. cbn [coords weld_ops soup_of]. rewrite !soup_coords_single.
  apply Hin.
Qed.

Lemma weld_cut_keeps m co no v :
  v ∈ coords m -> v ∈ coords (cut_plane m co no).
Proof. rewrite weld_cut_plane. apply cut_with_keeps. Qed.

Lemma weld_cut_adds m co no v :
  v ∈ coords (cut_plane m co no) -> v ∈ coords m \/ plane_dist co no v == 0.
Proof. rewrite weld_cut_plane. apply cut_with_adds. Qed.

(** Faces that still touch after the cut of a mesh without pinch are
    strictly on the same side of the plane. *)
Lemma touching_strict (s : soup) co no q f f' :
  ~ pinch co no (bisect_all co no s) ->
  q ∈ bisect_all co no s -> f ∈ q -> f' ∈ q ->
  touching (edges_on_plane co no (mjoin (bisect_all co no s))) f f' = true ->
  (above co no f /\ ~ below co no f /\ above co no f' /\ ~ below co no f') \/
  (below co no f /\ ~ above co no f /\ below co no f' /\ ~ above co no f').
Proof.
  intros Hno Hq Hf Hf' [Hadj|Hpin]%orb_true_iff.
  { apply adjacent_strict in Hadj as (x & x' & ? & ? & ? & ?);
      [|apply list_elem_of_join; eauto].
    eapply shared_corner_side; eauto using bisect_all_one_sided. }
  assert (Hside : one_sided co no (f ++ f')).
  { destruct (decide (one_sided co no (f ++ f'))) as [|Hcross]; [done|].
    destruct Hno. unfold pinch. rewrite Exists_exists. exists q.
    split; [done|]. rewrite Exists_exists. exists f. split; [done|].
    rewrite Exists_exists. eauto. }
  apply pinned_spec in Hpin as (v & v' & Hv & Hv' & Heq & Hoff).
  assert (Hoff' := Hoff). rewrite (on_edges_proper _ v v' Heq) in Hoff'.
  assert (Hin : forall h, h ∈ q -> h ∈ mjoin (bisect_all co no s))
    by (intros h Hh; apply list_elem_of_join; eauto).
  destruct (off_plane_corner co no _ f v (Hin f Hf) Hv Hoff) as (w & ? & ?).
  destruct (off_plane_corner co no _ f' v' (Hin f' Hf') Hv' Hoff') as (w' & ? & ?).
  by apply (one_sided_strict co no f f' w w').
Qed.

Lemma one_sided_subseteq co no (cs cs' : list Vec) :
  cs' ⊆ cs -> one_sided co no cs -> one_sided co no cs'.
Proof.
  unfold one_sided, above, below. rewrite !Forall_forall.
  intros Hsub [H|H]; [left|right]; intros v Hv; by apply H, Hsub.
Qed.

(** Without a pinch the cut separates the mesh along the plane. *)
Lemma weld_separates m co no :
  ~ pinch co no (bisect_all co no (soup_of m)) ->
  parts_one_sided co no (cut_plane m co no).
Proof.
  rewrite weld_cut_plane. intros Hno p (g & Hg & ->)%weld_loose_part.
  cbn [coords weld_ops soup_of]. rewrite soup_coords_single.
  revert g Hg. apply cut_with_one_sided. intros q f f'.
  by apply touching_strict.
Qed.

(** The two faces of a pinch stay in one part, which crosses the plane. *)
Lemma weld_pinch_crosses m co no :
  pinch co no (bisect_all co no (soup_of m)) ->
  ~ parts_one_sided co no (cut_plane m co no).
Proof.
  rewrite weld_cut_plane.
  intros (q & Hq & (f & Hf & (g & Hg & Hpin & Hcross)%Exists_exists
    )%Exists_exists)%Exists_exists Hparts.
  destruct (group_faces_joins
              (touching (edges_on_plane co no (mjoin (bisect_all co no (soup_of m)))))
              q f g) as (h & Hh & Hfh & Hgh); [done..| | |].
  { unfold touching. rewrite Hpin. apply orb_true_r. }
  { unfold touching. rewrite (pinned_sym _ _ _ Hpin). apply orb_true_r. }
  apply Hcross, (one_sided_subseteq co no (mjoin h)).
  - intros v [?|?]%elem_of_app; apply list_elem_of_join; eauto.
  - rewrite <- soup_coords_single. apply (Hparts (Weld [h])).
    apply weld_loose_part. exists h. split; [|done].
    apply list_elem_of_bind. eauto.
Qed.

Lemma weld_cut_one_sided m co no :
  parts_one_sided co no (cut_plane m co no)
  <-> ~ pinch co no (bisect_all co no (soup_of m)).
Proof.
  split; [|apply weld_separates]. intros Hparts Hpin.
  by apply (weld_pinch_crosses m co no).
Qed.

(** A sequence of cuts that meets no pinch separates. *)
Lemma no_pinches_separate m planes :
  no_pinches (soup_of m) planes -> cuts_separate m planes.
Proof.
  revert m. induction planes as [|[co no] planes IH]; intros m; [done|].
  cbn [no_pinches cuts_separate fst snd]. intros [Hno Hrest].
  split; [by apply weld_separates|]. apply IH. by rewrite weld_cut_plane.
Qed.

(** C30. On the kernel with vertex contacts the cuts of the script
    (bisect all geometry, split along the edges of [geom_cut]) separate a
    mesh along their planes exactly when none of them meets a pinch: two
    faces of a part on opposite sides of the plane of the cut that meet in
    a corner on the plane which is on no edge in the plane. *)
Theorem weld_cuts_separate m planes :
  cuts_separate m planes <-> no_pinches (soup_of m) planes.
Proof.
  split; [|apply no_pinches_separate]. revert m.
  induction planes as [|[co no] planes IH]; intros m; [done|].
  cbn [no_pinches cuts_separate fst snd]. intros [Hcut Hrest]. split.
  - by apply weld_cut_one_sided.
  - apply IH in Hrest. by rewrite weld_cut_plane in Hrest.
Qed.

#[export] Instance weld_laws : BMeshLaws weld selem.
Proof.
  split.
  - exact weld_coords_transform.
  - exact weld_coords_loose_parts.
  - exact weld_cut_refines.
  - exact weld_cut_keeps.
  - exact weld_cut_adds.
Qed.

(** The pieces of [grid_cut] on this kernel are confined by the grid when
    no cut meets a pinch. *)
Theorem weld_grid_cut_pieces (s : Scene weld) ob o m r :
  mode s = OBJECT -> active s = Some ob -> objects s !! ob = Some o ->
  selected o = true -> data o = Some m ->
  no_pinches (soup_of (transform (world_of o) m)) (grid_planes r) ->
  Forall (fun x' =>
      basis x' = mat_id /\
      location x' = floor (get_center (bound_box_of (world_coords x'))) /\
      forall pl, pl ∈ grid_planes r -> one_sided pl.1 pl.2 (world_coords x'))
    (pieces ob (length (objects s)) (objects (final_state (grid_cut r s)))).
Proof.
  intros Hm Ha Ho Hsel Hd Hno%no_pinches_separate. apply Forall_forall.
  intros x' Hx'. by apply (grid_cut_piece_fixed s ob o m r).
Qed.
End Laws.

(** ** The cuts on the samples *)

Lemma weld_cuts_separate_witness :
  ~ cuts_separate (Weld bowtie) (grid_planes [0; 1; 2]%Z) /\
  cuts_separate (Weld strip) (grid_planes [0; 1; 2]%Z).
Proof.
  split.
  - intros H. apply (proj1 (weld_cuts_separate _ _)) in H. revert H.
    by apply (bool_decide_eq_false_1 _).
  - apply (proj2 (weld_cuts_separate _ _)).
    by apply (bool_decide_eq_true_1 _).
Defined.

Example weld_grid_cut_strip :
  Forall (fun x' =>
      basis x' = mat_id /\
      location x' = floor (get_center (bound_box_of (world_coords x'))) /\
      forall pl, pl ∈ grid_planes [12; 13; 14]%Z ->
                 one_sided pl.1 pl.2 (world_coords x'))
    (pieces 0 1 (objects (final_state (grid_cut [12; 13; 14]%Z weld_strip_scene)))).
Proof.
  eapply (weld_grid_cut_pieces weld_strip_scene 0); [done..|].
  by apply (bool_decide_eq_true_1 _).
Qed.

