(* ===== verification/Components.v ===== *)
(** * Components: the loose parts are the connected components

    The specification states that after the separation every object is
    one maximal connected component of the cut mesh.  In the kernels of
    [PolySoup] and [Weld] the loose parts are what [group_faces] makes of
    the faces of a part: a face joins the groups it touches and merges
    them.  This file shows that the groups are the connected components
    of the faces under the relation that joins them: two faces are in one
    group exactly when a chain of joined faces leads from one to the
    other.  For a cut of the script ([cut_plane], lines 13 and 14) that
    gives the statement of the specification on both kernels. *)

From stdpp Require Import relations.
From S2P Require Import Prelude Vector Mesh PolySoup Weld.

(** ** Chains of joined faces *)

(** Two faces of [fs] that [adj] joins. *)
Definition linked (adj : face -> face -> bool) (fs : list face) (f g : face)
    : Prop :=
  f ∈ fs /\ g ∈ fs /\ adj f g = true.

(** Two faces of [fs] with a chain of joined faces between them. *)
Definition connected (adj : face -> face -> bool) (fs : list face)
    : relation face :=
  rtc (linked adj fs).

Section Grouping.
Context (adj : face -> face -> bool).
Context (adj_sym : forall f g, adj f g = true -> adj g f = true).
Implicit Types (f g h : face) (q : part) (fs : list face).

Lemma connected_cons f0 fs f g : connected adj fs f g -> connected adj (f0 :: fs) f g.
Proof.
  apply rtc_subrel. intros a b (Ha & Hb & Hab). split_and!; by try right.
Qed.

#[local] Instance connected_sym fs : Symmetric (connected adj fs).
Proof.
  intros f g H. induction H as [|f h g (Hf & Hh & Hfh) _ IH]; [done|].
  eapply rtc_r; [exact IH|]. split_and!; by try apply adj_sym.
Qed.

(** Every face of the group that a new face founds is connected with the
    new face. *)
Lemma connected_head f0 fs h :
  (forall q f g, q ∈ group_faces adj fs -> f ∈ q -> g ∈ q -> connected adj fs f g) ->
  h ∈ mjoin (List.filter (fun q => existsb (adj f0) q) (group_faces adj fs)) ->
  connected adj (f0 :: fs) f0 h.
Proof.
  intros IH (q & Hh & [Hq (h' & Hh' & Hadj)%existsb_elem_of]%elem_of_bool_filter
    )%list_elem_of_join.
  eapply rtc_l; [|apply connected_cons, (IH q h' h); done].
  split_and!; [left | right; by eapply group_faces_elem | done].
Qed.

(** The faces of a group are connected. *)
Lemma group_faces_connected fs q f g :
  q ∈ group_faces adj fs -> f ∈ q -> g ∈ q -> connected adj fs f g.
Proof.
  revert q f g. induction fs as [|f0 fs IH]; intros q f g;
    [by intros ?%elem_of_nil|].
  cbn [group_faces]. intros [->|[Hq _]%elem_of_bool_filter]%elem_of_cons Hf Hg.
  - assert (Hhead : forall h,
      h ∈ f0 :: mjoin (List.filter (fun q => existsb (adj f0) q) (group_faces adj fs)) ->
      connected adj (f0 :: fs) f0 h).
    { intros h [->|Hh]%elem_of_cons; [done | by apply connected_head]. }
    etrans; [symmetry|]; by apply Hhead.
  - apply connected_cons. by apply (IH q).
Qed.

(** A face of a list without repetition is in one group only. *)
Lemma group_faces_unique fs q q' f :
  NoDup fs -> q ∈ group_faces adj fs -> q' ∈ group_faces adj fs ->
  f ∈ q -> f ∈ q' -> q = q'.
Proof.
  revert q q' f. induction fs as [|f0 fs IH]; intros q q' f Hnd;
    [by intros ?%elem_of_nil|].
  apply NoDup_cons in Hnd as [Hf0 Hnd]. cbn [group_faces].
  assert (Hcross : forall q1 q2,
    q1 = f0 :: mjoin (List.filter (fun q => existsb (adj f0) q) (group_faces adj fs)) ->
    q2 ∈ List.filter (fun q => negb (existsb (adj f0) q)) (group_faces adj fs) ->
    f ∈ q1 -> f ∈ q2 -> False).
  { intros q1 q2 -> [Hq2 Hno]%elem_of_bool_filter [->|Hf1]%elem_of_cons Hf2.
    - apply Hf0. by eapply group_faces_elem.
    - apply list_elem_of_join in Hf1 as (q3 & Hf3 & [Hq3 Hyes]%elem_of_bool_filter).
      rewrite (IH q3 q2 f Hnd Hq3 Hq2 Hf3 Hf2) in Hyes.
      by rewrite Hyes in Hno. }
  intros [->|Hq]%elem_of_cons [->|Hq']%elem_of_cons Hf Hf'; [done| | |].
  - by destruct (Hcross _ q' eq_refl Hq').
  - by destruct (Hcross _ q eq_refl Hq).
  - apply elem_of_bool_filter in Hq as [Hq _].
    apply elem_of_bool_filter in Hq' as [Hq' _]. by apply (IH q q' f).
Qed.

(** Connected faces are in one group. *)
Lemma connected_group fs f g :
  NoDup fs -> f ∈ fs -> connected adj fs f g ->
  exists q, q ∈ group_faces adj fs /\ f ∈ q /\ g ∈ q.
Proof.
  intros Hnd Hf H. induction H as [f|f h g (_ & Hh & Hfh) _ IH].
  - destruct (group_faces_cover adj fs f Hf) as (q & ? & ?). eauto.
  - destruct (IH Hh) as (q' & Hq' & Hhq' & Hgq').
    destruct (group_faces_joins adj fs f h Hf Hh Hfh (adj_sym _ _ Hfh))
      as (q & Hq & Hfq & Hhq).
    rewrite (group_faces_unique fs q q' h) in Hfq by done. eauto.
Qed.

(** The groups are the connected components. *)
Lemma group_faces_components fs f g :
  NoDup fs -> f ∈ fs ->
  (exists q, q ∈ group_faces adj fs /\ f ∈ q /\ g ∈ q) <-> connected adj fs f g.
Proof.
  intros Hnd Hf. split; [|by apply connected_group].
  intros (q & Hq & Hfq & Hgq). by apply (group_faces_connected fs q).
Qed.
End Grouping.

(** ** The relations of the two kernels are symmetric *)

Section Symmetry.
Implicit Types (e : Vec * Vec) (es : list selem) (f g : face).

Lemma same_edge_sym e e' : same_edge e e' = true -> same_edge e' e = true.
Proof.
  rewrite !same_edge_spec. intros [[H1 H2]|[H1 H2]]; [left|right]; by split.
Qed.

Lemma same_edge_trans e e' e'' :
  same_edge e e' = true -> same_edge e' e'' = true -> same_edge e e'' = true.
Proof.
  rewrite !same_edge_spec.
  intros [[H1 H2]|[H1 H2]] [[H3 H4]|[H3 H4]]; [left|right|right|left];
    split; by etrans.
Qed.

Lemma tagged_same_edge es e e' :
  same_edge e e' = true -> tagged es e' = true -> tagged es e = true.
Proof.
  intros He. unfold tagged. rewrite !existsb_elem_of.
  intros ([| p q |] & Hx & Ht); try done. exists (SEdge p q). split; [done|].
  cbn in *. by eapply same_edge_trans.
Qed.

Lemma adjacent_sym es f g : adjacent es f g = true -> adjacent es g f = true.
Proof.
  unfold adjacent. rewrite !existsb_elem_of.
  intros (e & He & [Hun (e' & He' & Hsame)%existsb_elem_of]%andb_true_iff).
  exists e'. split; [done|]. apply andb_true_iff. split.
  - apply negb_true_iff, not_true_iff_false. intros Ht.
    apply negb_true_iff, not_true_iff_false in Hun.
    by apply Hun, (tagged_same_edge es e e').
  - apply existsb_elem_of. exists e. split; [done | by apply same_edge_sym].
Qed.

Lemma touching_sym es f g : touching es f g = true -> touching es g f = true.
Proof.
  unfold touching. rewrite !orb_true_iff.
  intros [?%adjacent_sym|?%pinned_sym]; auto.
Qed.
End Symmetry.

(** ** One cut of the script *)

(** The faces of a part after the bisection. *)
Definition clipped (co no : Vec) (p : part) : list face :=
  mjoin (bisect_face co no <$> p).

(** The edges that lie in the plane after the bisection, which the cut
    splits. *)
Definition split_edges_of (co no : Vec) (m : soup) : list selem :=
  edges_on_plane co no (mjoin (bisect_all co no m)).

(** The two triangles of [wedge], which share the edge from the origin to
    (0, 2, 0). *)
Definition wedge_left : face := [mkVec 0 0 0; mkVec 0 2 0; mkVec (-1) 1 0].
Definition wedge_right : face := [mkVec 0 0 0; mkVec 1 1 0; mkVec 0 2 0].

Section Cut.
Context (adj : list selem -> face -> face -> bool).
Context (adj_sym : forall es f g, adj es f g = true -> adj es g f = true).
Implicit Types (co no : Vec) (m : soup) (p q : part) (f g : face).

(** A part after the cut is a group of the clipped faces of a part before
    it. *)
Lemma cut_with_part co no m q :
  q ∈ cut_with adj co no m
  <-> exists p, p ∈ m /\
        q ∈ group_faces (adj (split_edges_of co no m)) (clipped co no p).
Proof.
  unfold cut_with, bisect_all. rewrite list_elem_of_bind. split.
  - intros (fs & Hq & (p & -> & Hp)%list_elem_of_fmap). eauto.
  - intros (p & Hp & Hq). exists (clipped co no p). split; [done|].
    apply list_elem_of_fmap. eauto.
Qed.

(** After the cut two faces are in one part exactly when they come from
    one part and a chain of faces that still hang together leads from one
    to the other. *)
Lemma cut_with_components co no m f g :
  (forall p, p ∈ m -> NoDup (clipped co no p)) ->
  (exists q, q ∈ cut_with adj co no m /\ f ∈ q /\ g ∈ q)
  <-> exists p, p ∈ m /\ f ∈ clipped co no p /\
        connected (adj (split_edges_of co no m)) (clipped co no p) f g.
Proof.
  intros Hnd. split.
  - intros (q & (p & Hp & Hq)%cut_with_part & Hf & Hg). exists p.
    split_and!; [done | by eapply group_faces_elem |].
    by apply (group_faces_connected _ (adj_sym _) _ q).
  - intros (p & Hp & Hf & Hc).
    apply connected_group in Hc as (q & Hq & ? & ?); [|by auto..].
    exists q. split; [apply cut_with_part; eauto | done].
Qed.
End Cut.

(** C9. After a cut of the script the loose parts are the maximal
    connected components of the cut mesh: two faces belong to one loose
    part exactly when they come from one part of the mesh before the cut
    and a chain of its faces, each joined to the next by an edge off the
    plane, leads from one to the other. *)
Theorem cut_plane_components (m : soup) co no f g :
  (forall p, p ∈ m -> NoDup (clipped co no p)) ->
  (exists q : part, [q] ∈ loose_parts (cut_plane m co no) /\ f ∈ q /\ g ∈ q)
  <-> exists p, p ∈ m /\ f ∈ clipped co no p /\
        connected (adjacent (split_edges_of co no m)) (clipped co no p) f g.
Proof.
  intros Hnd. rewrite <- (cut_with_components adjacent adjacent_sym) by done.
  rewrite cut_plane_soup. cbn [loose_parts soup_ops]. unfold soup_loose_parts.
  split; intros (q & Hq & ?); exists q; (split; [|done]).
  - by apply list_elem_of_fmap in Hq as (? & [= <-] & ?).
  - by apply (list_elem_of_fmap_2 (fun p => [p])).
Qed.

(** The cut at x = 0 runs along the edge that the two triangles of [wedge]
    share: they are in one part before the cut and in two after it. *)
Lemma cut_plane_components_witness :
  ~ exists p, p ∈ wedge /\ wedge_left ∈ clipped vzero (mkVec 1 0 0) p /\
      connected (adjacent (split_edges_of vzero (mkVec 1 0 0) wedge))
        (clipped vzero (mkVec 1 0 0) p) wedge_left wedge_right.
Proof.
  intros H. apply (cut_plane_components wedge) in H as (q & Hq & Hf & Hg).
  - apply list_elem_of_fmap in Hq as (q' & [= <-] & Hq). vm_compute in Hq.
    repeat (apply elem_of_cons in Hq as [->|Hq]); [..|by apply elem_of_nil in Hq].
    + by apply list_elem_of_singleton in Hg.
    + by apply list_elem_of_singleton in Hf.
  - intros p ->%list_elem_of_singleton. by apply (bool_decide_eq_true_1 _).
Defined.

(** The same on the kernel with vertex contacts, where faces also hang
    together through a corner that is on no edge in the plane. *)
Theorem weld_cut_plane_components (m : soup) co no f g :
  (forall p, p ∈ m -> NoDup (clipped co no p)) ->
  (exists q : part, Weld [q] ∈ loose_parts (cut_plane (Weld m) co no) /\
     f ∈ q /\ g ∈ q)
  <-> exists p, p ∈ m /\ f ∈ clipped co no p /\
        connected (touching (split_edges_of co no m)) (clipped co no p) f g.
Proof.
  intros Hnd. rewrite <- (cut_with_components touching touching_sym) by done.
  rewrite weld_cut_plane. split; intros (q & Hq & ?); exists q; (split; [|done]).
  - by apply weld_loose_part in Hq as (? & ? & [= <-]).
  - apply weld_loose_part. eauto.
Qed.
