(* ===== verification/Invariants.v ===== *)
(** * Invariants: what the script keeps on every path

    The theorems of [Script] follow the script where it succeeds.  The
    ones here hold wherever it stops: each procedure keeps the scene well
    formed, removes no object, and leaves alone every object that is
    neither selected nor active.  They are proved from the rules of
    [SceneRules] by the structure of the procedures, without running
    them. *)

From S2P Require Import Prelude Triple Vector Pivot BoundBox Mesh PolySoup.
From S2P Require Import Scene SceneRules Script.

Local Open Scope prog_scope.

(** ** Well-formedness and the number of objects *)

Section Kept.
Context {mesh elem : Type} `{!BMeshOps mesh elem}.
Implicit Types (s : Scene mesh) (o : Object mesh) (i ob n target : nat)
  (r : list Z).

Lemma reads_get_index target : reads (get_index (mesh := mesh) target).
Proof. unfold get_index. eauto with grid. Qed.

Lemma kept_select n ob : invariant (kept n) (select (mesh := mesh) ob).
Proof. unfold select, select_set. eauto 8 with grid. Qed.

Lemma kept_perform_cuts n target r dir :
  invariant (kept n) (perform_cuts (mesh := mesh) target r dir).
Proof. unfold perform_cuts, perform_cut. eauto 10 with grid. Qed.

Lemma kept_cut n r : invariant (kept n) (cut (mesh := mesh) r).
Proof.
  pose proof kept_perform_cuts. unfold cut. repeat (apply invariant_bind; [|intros ?]);
    eauto with grid.
Qed.

Lemma kept_fix_pivot n target : invariant (kept n) (fix_pivot (mesh := mesh) target).
Proof.
  pose proof kept_select. pose proof reads_get_index.
  unfold fix_pivot, set_location. repeat (apply invariant_bind; [|intros ?]);
    eauto with grid.
Qed.

Lemma kept_fix_pivots n : invariant (kept n) (fix_pivots (mesh := mesh)).
Proof. pose proof kept_fix_pivot. unfold fix_pivots. eauto 8 with grid. Qed.

Lemma kept_grid_cut n r : invariant (kept n) (grid_cut (mesh := mesh) r).
Proof.
  pose proof kept_cut. pose proof kept_fix_pivots. unfold grid_cut.
  eauto 8 with grid.
Qed.

End Kept.

(** ** The objects the script does not work on *)

Section Untouched.
Context {mesh elem : Type} `{!BMeshOps mesh elem}.
Context (i : nat) (o : Object mesh) (Hsel : selected o = false).
Implicit Types (s : Scene mesh) (ob target : nat) (r : list Z).

Lemma untouched_select ob :
  ob <> i -> invariant (untouched i o) (select (mesh := mesh) ob).
Proof. intros Hne. unfold select, select_set. eauto 8 with grid. Qed.

Lemma untouched_perform_cuts target r dir :
  target <> i -> invariant (untouched i o) (perform_cuts (mesh := mesh) target r dir).
Proof. intros Hne. unfold perform_cuts, perform_cut. eauto 10 with grid. Qed.

Lemma untouched_cut r : invariant (untouched i o) (cut (mesh := mesh) r).
Proof.
  unfold cut. apply invariant_bind; [eauto with grid|intros _].
  eapply invariant_bind_pure; [apply untouched_context_object|]. intros ob Hob.
  eapply invariant_bind_pure; [apply untouched_from_edit_mesh|]. intros bm ->.
  pose proof (fun r dir => untouched_perform_cuts ob r dir Hob).
  do 3 (apply invariant_bind; [done|intros _]).
  eapply invariant_bind_pure; [apply untouched_context_object|]. intros ob' Hob'.
  eauto 8 with grid.
Qed.

Lemma untouched_fix_pivot target :
  target <> i -> invariant (untouched i o) (fix_pivot (mesh := mesh) target).
Proof.
  intros Hne. pose proof (untouched_select target Hne).
  pose proof (reads_get_index (mesh := mesh) target).
  unfold fix_pivot, set_location. repeat (apply invariant_bind; [|intros ?]);
    eauto with grid.
Qed.

Lemma untouched_fix_pivots : invariant (untouched i o) (fix_pivots (mesh := mesh)).
Proof.
  unfold fix_pivots.
  eapply invariant_bind_pure; [by apply untouched_selected_objects|].
  intros targets Hi. apply invariant_bind; [|eauto with grid].
  apply invariant_for_each. intros t Ht. apply untouched_fix_pivot. by intros ->.
Qed.

Lemma untouched_grid_cut r : invariant (untouched i o) (grid_cut (mesh := mesh) r).
Proof.
  pose proof untouched_cut. pose proof untouched_fix_pivots. unfold grid_cut.
  eauto 8 with grid.
Qed.

End Untouched.

(** ** The invariants of [grid_cut] *)

Section GridCut.
Context {mesh elem : Type} `{!BMeshOps mesh elem}.
Implicit Types (s : Scene mesh) (o : Object mesh) (i : nat) (r : list Z).

(** However [grid_cut] ends, it leaves the scene well formed and
    removes no object: if the active object of the scene exists before the
    call it exists after it, and the scene has at least as many objects as
    before. *)
Theorem grid_cut_keeps_scene s r :
  wf_scene s ->
  wf_scene (final_state (grid_cut r s)) /\
  length (objects s) <= length (objects (final_state (grid_cut r s))).
Proof.
  intros Hwf.
  apply (invariant_final (kept (length (objects s))) (grid_cut r) s);
    [apply kept_grid_cut | by split].
Qed.

(** C19. However [grid_cut] ends, an object that is neither selected nor
    active when it starts is the same object afterwards, and is still not
    the active one. *)
Theorem grid_cut_frame s r i o :
  objects s !! i = Some o -> selected o = false -> active s <> Some i ->
  objects (final_state (grid_cut r s)) !! i = Some o /\
  active (final_state (grid_cut r s)) <> Some i.
Proof.
  intros Ho Hsel Ha.
  apply (invariant_final (untouched i o) (grid_cut r) s);
    [by apply untouched_grid_cut | by split].
Qed.


End GridCut.

Lemma grid_cut_keeps_scene_witness :
  wf_scene (final_state (grid_cut [0; 1; 2]%Z pair_scene)) /\
  length (objects pair_scene)
  <= length (objects (final_state (grid_cut [0; 1; 2]%Z pair_scene))).
Proof.
  apply grid_cut_keeps_scene. intros ob [= <-]. by eexists.
Defined.

Lemma grid_cut_frame_witness :
  objects (final_state (grid_cut [0; 1; 2]%Z pair_scene)) !! 1%nat
  = Some (mkObject (mkVec 1 2 3) mat_id (Some square) false) /\
  active (final_state (grid_cut [0; 1; 2]%Z pair_scene)) <> Some 1%nat.
Proof. by apply grid_cut_frame. Defined.
