(* ===== verification/Float32.v ===== *)
(** * Float32: the grid index in the host's arithmetic

    The host keeps coordinates as binary32 numbers, and [get_center] adds
    and scales them in that format.  This file models the format on the
    rationals: [round32] rounds a rational to the nearest number with a
    24-bit significand (ties to even, exponent at least -149, no largest
    exponent; [Overflow] adds the largest number and the infinities), and
    [get_center32] is [get_center] with every operation rounded.  The theorems bound the distance between the
    two centres and show when the index is the same. *)

From Stdlib Require Import Qpower Qabs.
From S2P Require Import Prelude Vector Pivot BoundBox Mesh PolySoup Scene Script.

Local Open Scope Q_scope.

(** ** Rounding to the nearest integer, ties to even *)

Definition rne (q : Q) : Z :=
  let f := Qfloor q in
  match Qcompare (q - inject_Z f) (1 # 2) with
  | Lt => f
  | Gt => (f + 1)%Z
  | Eq => if Z.even f then f else (f + 1)%Z
  end.

(** ** The exponent of a positive rational: the floor of its logarithm *)

Definition ilog2 (q : Q) : Z :=
  let c := (Z.log2 (Qnum q) - Z.log2 (Zpos (Qden q)))%Z in
  if Qle_bool (2 ^ c) q then c else (c - 1)%Z.

(** ** binary32 *)

(** The exponent of the last place of the format at [x]: 23 places below
    the leading one, and never below the subnormal range. *)
Definition expo (x : Q) : Z := Z.max (-149) (ilog2 (Qabs x) - 23).

Definition round32 (x : Q) : Q :=
  if Qeq_bool x 0 then 0
  else inject_Z (rne (x / 2 ^ expo x)) * 2 ^ expo x.

(** A number of the format: a significand below [2 ^ 24] at an exponent
    of the format. *)
Definition representable (x : Q) : Prop :=
  exists m e : Z, (Z.abs m < 2 ^ 24)%Z /\ (-149 <= e)%Z /\ x == inject_Z m * 2 ^ e.

(** The unit roundoff and the largest error in the subnormal range. *)
Definition u32 : Q := 2 ^ (-24).
Definition eta32 : Q := 2 ^ (-150).

(** ** The operations of [get_center] and [floor] in the format *)

Definition vround (v : Vec) : Vec :=
  mkVec (round32 (vx v)) (round32 (vy v)) (round32 (vz v)).

(** [center += c] on vectors of the format. *)
Definition vadd32 (u v : Vec) : Vec := vround (u + v).

(** [center * 0.125] on a vector of the format. *)
Definition vscale32 (v : Vec) (k : Q) : Vec := vround (v * k).

Definition get_center32 (bbox : list Vec) : Vec :=
  let center := fold_left vadd32 bbox vzero in
  vscale32 center 0.125.

(** [math.floor] of each component and the conversion of the three
    integers back to the format. *)
Definition floor32 (vec : Vec) : Vec := vround (floor vec).

(** The sum of the coordinates along one axis, with every addition
    rounded. *)
Definition sum32 (l : list Q) : Q := fold_left (fun s x => round32 (s + x)) l 0.

(** The bound on the error of a sum of [n] numbers of size at most [M],
    one rounding for each addition. *)
Fixpoint sum_err (M : Q) (n : nat) : Q :=
  match n with
  | O => 0
  | S n' => (1 + u32) * sum_err M n' + u32 * (inject_Z (Z.of_nat n) * M) + eta32
  end.

(** The bound on the error of the centre of a box with coordinates of
    size at most [M]. *)
Definition center_err (M : Q) : Q := 6 * u32 * M + 3 * eta32.

(** A box whose centre the format cannot separate from the plane x = 4:
    one unit of the last place wide, just below the plane. *)
Definition sliver : list Vec :=
  box_corners (mkVec (4 - 2 ^ (-22)) 0 0) (mkVec 4 1 1).

(** A triangle inside the unit cell at the origin, as the one object of a
    scene. *)
Definition tilted_object : Object soup :=
  mkObject vzero mat_id
    (Some [[[mkVec 0.25 0.25 0.25; mkVec 0.5 0.25 0.5; mkVec 0.5 0.5 0.25]]]) true.

Definition tilted_scene : Scene soup := mkScene [tilted_object] (Some 0%nat) OBJECT.

(** The centre of a box is clear of the planes of the grid, by the margin
    the rounding needs, along every axis. *)
Definition safe_center (M : Q) (bbox : list Vec) : Prop :=
  forall a, Forall (fun c => Qabs (coord a c) <= M) bbox /\
    exists k : Z, (Z.abs k < 2 ^ 24)%Z /\
      inject_Z k + center_err M <= coord a (get_center bbox) /\
      coord a (get_center bbox) + center_err M < inject_Z (k + 1).

(** [get_index] in the host's arithmetic. *)
Definition get_index32 {mesh elem : Type} `{!BMeshOps mesh elem} (target : nat)
    : host mesh Vec :=
  bind (get_bound_box target) (fun bound_box =>
  pure (floor32 (get_center32 bound_box))).

(** ** Powers of two *)

Section Pow2.
Implicit Types (a b e : Z).

Lemma pow2_pos e : 0 < 2 ^ e.
Proof. by apply Qpower_0_lt. Qed.

Lemma pow2_add a b : 2 ^ (a + b) == 2 ^ a * 2 ^ b.
Proof. by apply Qpower_plus. Qed.

Lemma pow2_sub a b : 2 ^ (a - b) == 2 ^ a / 2 ^ b.
Proof. by apply Qpower_minus. Qed.

Lemma pow2_succ a : 2 ^ (a + 1) == 2 * 2 ^ a.
Proof. rewrite pow2_add. change (2 ^ 1) with 2. ring. Qed.

Lemma pow2_le a b : (a <= b)%Z -> 2 ^ a <= 2 ^ b.
Proof. intros H. by apply Qpower_le_compat_l. Qed.

Lemma pow2_lt a b : (a < b)%Z -> 2 ^ a < 2 ^ b.
Proof. intros H. by apply Qpower_lt_compat_l. Qed.

Lemma pow2_lt_inv a b : 2 ^ a < 2 ^ b -> (a < b)%Z.
Proof. intros H. by eapply Qpower_lt_compat_l_inv. Qed.

Lemma pow2_Z a : (0 <= a)%Z -> inject_Z (2 ^ a) == 2 ^ a.
Proof. intros H. by rewrite Zpower_Qpower. Qed.

End Pow2.

(** ** Nearest integers *)

Section Rne.
Implicit Types (q : Q) (k : Z).

Lemma rne_error q : Qabs (inject_Z (rne q) - q) <= 1 # 2.
Proof.
  unfold rne. pose proof (Qfloor_le q). pose proof (Qlt_floor q).
  apply Qabs_Qle_condition.
  destruct (Qcompare _ _) eqn:E;
    [apply Qeq_alt in E | apply Qlt_alt in E | apply Qgt_alt in E];
    try destruct (Z.even _); push_inject; lra.
Qed.

Lemma rne_Z k : rne (inject_Z k) = k.
Proof.
  unfold rne. rewrite Qfloor_Z.
  assert (E : Qcompare (inject_Z k - inject_Z k) (1 # 2) = Lt)
    by (apply Qlt_alt; ring_simplify (inject_Z k - inject_Z k); reflexivity).
  by rewrite E.
Qed.

(** Rounding to the nearest integer does not pass an integer. *)
Lemma rne_le_Z q k : q <= inject_Z k -> (rne q <= k)%Z.
Proof.
  intros Hq. unfold rne. pose proof (Qfloor_le q). pose proof (Qlt_floor q).
  assert (Hf : (Qfloor q <= k)%Z) by (rewrite Zle_Qle; lra).
  destruct (Qcompare _ _) eqn:E;
    [apply Qeq_alt in E | done | apply Qgt_alt in E];
    try destruct (Z.even _); try done;
    (enough (Qfloor q < k)%Z by lia); rewrite Zlt_Qlt; lra.
Qed.

Lemma rne_ge_Z q k : inject_Z k <= q -> (k <= rne q)%Z.
Proof.
  intros Hq. unfold rne. pose proof (Qfloor_le q). pose proof (Qlt_floor q).
  assert (Hf : (k < Qfloor q + 1)%Z) by (rewrite Zlt_Qlt; lra).
  destruct (Qcompare _ _); try destruct (Z.even _); lia.
Qed.

#[export] Instance rne_proper : Proper (Qeq ==> eq) rne.
Proof.
  intros q q' Hq. unfold rne. rewrite (Qfloor_comp _ _ Hq).
  by rewrite (Qcompare_comp (q - inject_Z (Qfloor q')) (q' - inject_Z (Qfloor q'))
                ltac:(by rewrite Hq) (1 # 2) (1 # 2) ltac:(reflexivity)).
Qed.

End Rne.

(** ** The logarithm *)

Section Log.
Implicit Types (q : Q) (a b : Z).

Lemma Zlog2_bounds (n : Z) :
  (0 < n)%Z -> 2 ^ Z.log2 n <= inject_Z n < 2 * 2 ^ Z.log2 n.
Proof.
  intros Hn. destruct (Z.log2_spec n Hn) as [Hlo Hhi].
  pose proof (Z.log2_nonneg n). rewrite <- pow2_succ, <- !pow2_Z by lia.
  rewrite <- Zle_Qle, <- Zlt_Qlt, Z.add_1_r. done.
Qed.

Lemma ilog2_spec q : 0 < q -> 2 ^ ilog2 q <= q < 2 ^ (ilog2 q + 1).
Proof.
  intros Hq. destruct q as [n d]. unfold ilog2. cbn [Qnum Qden].
  assert (Hn : (0 < n)%Z) by (unfold Qlt in Hq; cbn in Hq; lia).
  destruct (Zlog2_bounds n Hn) as [Hn1 Hn2].
  destruct (Zlog2_bounds (Zpos d) eq_refl) as [Hd1 Hd2].
  pose proof (pow2_pos (Z.log2 n)) as HA. pose proof (pow2_pos (Z.log2 (Zpos d))) as HB.
  set (c := (Z.log2 n - Z.log2 (Zpos d))%Z).
  assert (Hc : 2 ^ c == 2 ^ Z.log2 n / 2 ^ Z.log2 (Zpos d)) by apply pow2_sub.
  assert (Hc' : 2 ^ c * 2 ^ Z.log2 (Zpos d) == 2 ^ Z.log2 n)
    by (rewrite Hc; field; lra).
  assert (Hnd : (n # d) * inject_Z (Zpos d) == inject_Z n)
    by (rewrite (Qmake_Qdiv n d); field; lra).
  pose proof (pow2_pos c) as HC.
  assert (Hlo : 2 ^ (c - 1) < n # d).
  { replace (c - 1)%Z with (c + -1)%Z by lia. rewrite pow2_add.
    change (2 ^ (-1)) with (1 # 2). nra. }
  assert (Hhi : n # d < 2 ^ (c + 1)) by (rewrite pow2_succ; nra).
  destruct (Qle_bool (2 ^ c) (n # d)) eqn:E.
  - apply Qle_bool_iff in E. done.
  - replace (c - 1 + 1)%Z with c by lia. split; [lra|].
    apply Qnot_le_lt. intros H%Qle_bool_iff. congruence.
Qed.

(** The logarithm is determined by its bounds. *)
Lemma ilog2_unique q a : 2 ^ a <= q < 2 ^ (a + 1) -> ilog2 q = a.
Proof.
  intros [Hlo Hhi]. destruct (ilog2_spec q) as [Hlo' Hhi'].
  { pose proof (pow2_pos a). lra. }
  assert (a < ilog2 q + 1)%Z by (apply pow2_lt_inv; lra).
  assert (ilog2 q < a + 1)%Z by (apply pow2_lt_inv; lra). lia.
Qed.

Lemma ilog2_proper q q' : 0 < q -> q == q' -> ilog2 q = ilog2 q'.
Proof.
  intros Hpos Hq. symmetry. apply ilog2_unique. rewrite <- Hq.
  by apply ilog2_spec.
Qed.

End Log.

(** ** Rounding to the format *)

Section Round.
Implicit Types (x y : Q) (m e k : Z).

Lemma u32_value : u32 == 1 # 16777216.
Proof. reflexivity. Qed.

Lemma Qabs_pos_iff x : ~ x == 0 -> 0 < Qabs x.
Proof.
  intros Hx. apply Qabs_case; intros H; destruct (Qeq_dec x 0); try done; lra.
Qed.

Lemma round32_zero x : x == 0 -> round32 x == 0.
Proof. intros H%Qeq_bool_iff. unfold round32. by rewrite H. Qed.

Lemma round32_nonzero x :
  ~ x == 0 -> round32 x = inject_Z (rne (x / 2 ^ expo x)) * 2 ^ expo x.
Proof.
  intros H. unfold round32. destruct (Qeq_bool x 0) eqn:E; [|done].
  by apply Qeq_bool_iff in E.
Qed.

Lemma expo_proper x y : ~ x == 0 -> x == y -> expo x = expo y.
Proof.
  intros Hx Hxy. unfold expo. do 2 f_equal.
  apply ilog2_proper; [by apply Qabs_pos_iff | by rewrite Hxy].
Qed.

#[export] Instance round32_proper : Proper (Qeq ==> Qeq) round32.
Proof.
  intros x y Hxy. destruct (Qeq_dec x 0) as [H0|Hn].
  - rewrite !round32_zero; [done | by rewrite <- Hxy | done].
  - rewrite !round32_nonzero by (done || by rewrite <- Hxy).
    rewrite <- (expo_proper x y) by done.
    by rewrite (rne_proper (x / 2 ^ expo x) (y / 2 ^ expo x))
      by (by apply Qdiv_comp).
Qed.

(** The result is within half a unit of the last place. *)
Lemma round32_near x : Qabs (round32 x - x) <= (1 # 2) * 2 ^ expo x.
Proof.
  pose proof (pow2_pos (expo x)) as HP. apply Qabs_Qle_condition.
  destruct (Qeq_dec x 0) as [H0|Hn]; [rewrite round32_zero by done; lra|].
  rewrite round32_nonzero by done.
  pose proof (rne_error (x / 2 ^ expo x)) as Hr.
  apply Qabs_Qle_condition in Hr.
  assert (Hx : x == x / 2 ^ expo x * 2 ^ expo x) by (field; lra).
  revert Hr Hx. generalize (inject_Z (rne (x / 2 ^ expo x))), (x / 2 ^ expo x).
  intros r t Hr Hx. nra.
Qed.

(** The unit of the last place is [2 ^ -149] in the subnormal range and
    at most [2 ^ -23] times the number elsewhere. *)
Lemma expo_small x :
  ~ x == 0 -> 2 ^ expo x <= 2 ^ (-149) \/ 2 ^ expo x * 2 ^ 23 <= Qabs x.
Proof.
  intros Hx. unfold expo.
  destruct (Z.max_spec (-149) (ilog2 (Qabs x) - 23)) as [[_ ->]|[_ ->]];
    [right | left; lra].
  rewrite <- pow2_add. replace (ilog2 (Qabs x) - 23 + 23)%Z with (ilog2 (Qabs x)) by lia.
  by apply ilog2_spec, Qabs_pos_iff.
Qed.

(** The standard model of rounding: a relative error of at most [u32],
    or an absolute error of at most [eta32] in the subnormal range. *)
Lemma round32_error x : Qabs (round32 x - x) <= u32 * Qabs x + eta32.
Proof.
  pose proof (Qabs_nonneg x). pose proof (round32_near x) as Hn.
  destruct (Qeq_dec x 0) as [H0|Hx].
  { rewrite round32_zero, H0 by done. by vm_compute. }
  assert (Hu : u32 * 2 ^ 23 == 1 # 2) by reflexivity.
  assert (He : (1 # 2) * 2 ^ (-149) == eta32) by reflexivity.
  assert (0 < eta32) by reflexivity. assert (0 < u32) by reflexivity.
  destruct (expo_small x Hx); nra.
Qed.

Lemma round32_representable x : representable x -> round32 x == x.
Proof.
  intros (m & e & Hm & He & Hx).
  destruct (Qeq_dec x 0) as [H0|Hn]; [by rewrite round32_zero, H0|].
  assert (Habs : Qabs x == inject_Z (Z.abs m) * 2 ^ e).
  { rewrite Hx, Qabs_Qmult, (Qabs_pos (2 ^ e)) by apply Qlt_le_weak, pow2_pos.
    apply Qmult_comp; [|done]. by destruct m. }
  assert (Hexp : (expo x <= e)%Z).
  { unfold expo. apply Z.max_lub; [done|].
    destruct (ilog2_spec (Qabs x)) as [Hlo _]; [by apply Qabs_pos_iff|].
    enough (ilog2 (Qabs x) < 24 + e)%Z by lia. apply pow2_lt_inv.
    eapply Qle_lt_trans; [exact Hlo|]. rewrite Habs, pow2_add.
    apply Qmult_lt_compat_r; [apply pow2_pos|].
    rewrite <- pow2_Z by done. by rewrite Zlt_Qlt in Hm. }
  rewrite round32_nonzero by done. revert Hexp. generalize (expo x).
  intros p Hp. pose proof (pow2_pos p).
  assert (Ht : x / 2 ^ p == inject_Z (m * 2 ^ (e - p)))
    by (rewrite inject_Z_mult, pow2_Z, pow2_sub, Hx by lia; field; lra).
  rewrite Ht, rne_Z, inject_Z_mult, pow2_Z, pow2_sub, Hx by lia. field. lra.
Qed.

(** A number of the format that is at least as large as [x] is a multiple
    of the unit of the last place at [x]. *)
Lemma representable_grid x b :
  representable b -> ~ x == 0 -> Qabs x <= b ->
  exists n : Z, b == inject_Z n * 2 ^ expo x.
Proof.
  intros (m & e & Hm & He & Hb) Hx Hle.
  assert (Hexp : (expo x <= e)%Z).
  { destruct (Z.le_gt_cases (expo x) e) as [|Hgt]; [done|exfalso].
    destruct (ilog2_spec (Qabs x)) as [Hlo _]; [by apply Qabs_pos_iff|].
    assert (Hlog : (24 + e <= ilog2 (Qabs x))%Z) by (unfold expo in Hgt; lia).
    apply (pow2_le (24 + e)) in Hlog. rewrite pow2_add in Hlog.
    apply Z.abs_lt in Hm as [Hm1 Hm2]. rewrite Zlt_Qlt in Hm1, Hm2.
    change (inject_Z (- 2 ^ 24)) with (- 2 ^ 24) in Hm1.
    change (inject_Z (2 ^ 24)) with (2 ^ 24) in Hm2.
    pose proof (pow2_pos e). nra. }
  exists (m * 2 ^ (e - expo x))%Z. pose proof (pow2_pos (expo x)).
  rewrite inject_Z_mult, pow2_Z, pow2_sub, Hb by lia. field. lra.
Qed.

(** Rounding does not pass a number of the format: a bound of the format
    on a number holds for the rounded number as well. *)
Lemma round32_bounded x b :
  representable b -> Qabs x <= b -> Qabs (round32 x) <= b.
Proof.
  intros Hb Hle. destruct (Qeq_dec x 0) as [H0|Hx].
  { rewrite round32_zero by done. rewrite H0 in Hle. done. }
  destruct (representable_grid x b Hb Hx Hle) as (n & Hn).
  rewrite round32_nonzero by done. pose proof (pow2_pos (expo x)) as Hp.
  apply Qabs_Qle_condition in Hle as [Hlo Hhi].
  assert (Hq : inject_Z (- n) <= x / 2 ^ expo x <= inject_Z n).
  { rewrite inject_Z_opp. split; apply Qle_shift_div_l || apply Qle_shift_div_r;
      try done; lra. }
  destruct Hq as [Hq1%rne_ge_Z Hq2%rne_le_Z]. rewrite Zle_Qle in Hq1, Hq2.
  rewrite inject_Z_opp in Hq1. apply Qabs_Qle_condition. nra.
Qed.

#[export] Instance representable_proper : Proper (Qeq ==> iff) representable.
Proof.
  intros x y Hxy. unfold representable. by setoid_rewrite Hxy.
Qed.

Lemma representable_Z k : (Z.abs k < 2 ^ 24)%Z -> representable (inject_Z k).
Proof. intros Hk. exists k, 0%Z. split_and!; [done..|]. change (2 ^ 0) with 1. ring. Qed.

(** The floor of a number of the format is a number of the format, so
    the conversion of [math.floor] back to the format is exact. *)
Lemma representable_floor x : representable x -> representable (inject_Z (Qfloor x)).
Proof.
  intros (m & e & Hm & He & Hx). destruct (Z.le_gt_cases 0 e) as [Hpos|Hneg].
  - assert (Hint : x == inject_Z (m * 2 ^ e))
      by by rewrite inject_Z_mult, pow2_Z.
    rewrite Hint, Qfloor_Z. exists m, e. split_and!; [done..|].
    by rewrite inject_Z_mult, pow2_Z.
  - apply representable_Z.
    assert (Hhalf : 2 ^ e <= 1 # 2) by (apply (pow2_le e (-1)); lia).
    pose proof (pow2_pos e). pose proof (Qfloor_le x). pose proof (Qlt_floor x).
    assert (Hb : - 8388608 < x < 8388608).
    { rewrite Hx. apply Z.abs_lt in Hm as [Hm1 Hm2].
      rewrite Zlt_Qlt in Hm1, Hm2.
      change (inject_Z (- 2 ^ 24)) with (- 16777216) in Hm1.
      change (inject_Z (2 ^ 24)) with 16777216 in Hm2. nra. }
    apply Z.abs_lt. change (2 ^ 24)%Z with 16777216%Z.
    assert (inject_Z (Qfloor x) < inject_Z 8388608)
      by (change (inject_Z 8388608) with 8388608; lra).
    assert (inject_Z (-8388609) < inject_Z (Qfloor x))
      by (change (inject_Z (-8388609)) with (-8388609); push_inject; lra).
    rewrite <- Zlt_Qlt in *. lia.
Qed.

End Round.

(** ** The error of the centre *)

Section CenterError.
Implicit Types (l : list Q) (M x : Q) (a : axis) (bbox : list Vec) (v : Vec).

Lemma coord_vround a v : coord a (vround v) = round32 (coord a v).
Proof. by destruct a. Qed.

Lemma coord_fold_vadd32 a bbox v :
  coord a (fold_left vadd32 bbox v)
  = fold_left (fun s x => round32 (s + x)) (coord a <$> bbox) (coord a v).
Proof.
  revert v. induction bbox as [|c bbox IH]; intros v; [done|].
  cbn [fold_left fmap list_fmap]. rewrite IH. unfold vadd32.
  by rewrite coord_vround, coord_vadd.
Qed.

Lemma coord_get_center32 a bbox :
  coord a (get_center32 bbox) = round32 (sum32 (coord a <$> bbox) * 0.125).
Proof.
  unfold get_center32, vscale32, sum32.
  rewrite coord_vround, coord_vscale, coord_fold_vadd32. by destruct a.
Qed.

Lemma coord_get_center a bbox :
  coord a (get_center bbox) == qsum (coord a <$> bbox) * (1 # 8).
Proof. by rewrite (get_center_vsum bbox), coord_vscale, coord_vsum. Qed.

Lemma qsum_snoc l x : qsum (l ++ [x]) == qsum l + x.
Proof.
  unfold qsum. induction l as [|y l IH]; cbn [app fold_right]; [ring|].
  rewrite IH. ring.
Qed.

Lemma sum32_snoc l x : sum32 (l ++ [x]) = round32 (sum32 l + x).
Proof. unfold sum32. by rewrite fold_left_app. Qed.

(** Each addition adds its own rounding error to the error so far. *)
Lemma sum32_error M l :
  Forall (fun x => Qabs x <= M) l ->
  Qabs (sum32 l - qsum l) <= sum_err M (length l) /\
  Qabs (qsum l) <= inject_Z (Z.of_nat (length l)) * M.
Proof.
  induction l as [|x l IH] using rev_ind; intros Hall.
  { split; by vm_compute. }
  apply Forall_app in Hall as [Hl [Hx _]%Forall_cons].
  destruct (IH Hl) as [HD HS]. clear IH.
  rewrite sum32_snoc, qsum_snoc, length_app, Nat.add_1_r. cbn [sum_err length].
  rewrite Nat2Z.inj_succ, <- Z.add_1_r, inject_Z_plus in *.
  pose proof (round32_error (sum32 l + x)) as Hr.
  assert (Hu : u32 == 1 # 16777216) by reflexivity. assert (0 < eta32) by reflexivity.
  revert HD HS Hx Hr. generalize (round32 (sum32 l + x)), (sum32 l), (qsum l).
  generalize (sum_err M (length l)), (inject_Z (Z.of_nat (length l))).
  intros D n r f t. rewrite !Qabs_Qle_condition. intros HD HS Hx.
  apply Qabs_case; intros Hsign Hr; rewrite Hu in *; change (inject_Z 1) with 1;
    split; split; nra.
Qed.

Lemma sum_err_8 M : 0 <= M -> sum_err M 8 <= 37 * u32 * M + 9 * eta32.
Proof.
  intros HM. cbn [sum_err]. assert (0 < eta32) by reflexivity.
  change u32 with (1 # 16777216). generalize eta32 H. intros eta Heta.
  repeat match goal with |- context [inject_Z (Z.of_nat ?n)] =>
    let k := eval vm_compute in (inject_Z (Z.of_nat n)) in
    change (inject_Z (Z.of_nat n)) with k end.
  lra.
Qed.

End CenterError.

(** ** The centre and the index in the format *)

Section Index.
Implicit Types (M : Q) (a : axis) (bbox : list Vec) (k : Z).

Lemma center32_near a bbox M :
  length bbox = 8%nat -> Forall (fun c => Qabs (coord a c) <= M) bbox ->
  Qabs (coord a (get_center32 bbox) - coord a (get_center bbox)) <= center_err M.
Proof.
  intros Hlen Hall. rewrite coord_get_center32, coord_get_center.
  assert (HM : 0 <= M).
  { destruct bbox as [|c bbox]; [done|]. apply Forall_cons in Hall as [Hc _].
    pose proof (Qabs_nonneg (coord a c)). lra. }
  destruct (sum32_error M (coord a <$> bbox)) as [HD HS]; [by rewrite Forall_fmap|].
  rewrite length_fmap, Hlen in HD, HS. pose proof (sum_err_8 M HM) as H8.
  pose proof (round32_error (sum32 (coord a <$> bbox) * 0.125)) as Hr.
  change (inject_Z (Z.of_nat 8)) with 8 in HS. unfold center_err.
  assert (Hu : u32 == 1 # 16777216) by reflexivity. assert (0 < eta32) by reflexivity.
  revert HD HS Hr H8.
  generalize (round32 (sum32 (coord a <$> bbox) * 0.125)), (sum_err M 8).
  generalize (sum32 (coord a <$> bbox)), (qsum (coord a <$> bbox)).
  intros f t r D. rewrite !Qabs_Qle_condition. intros HD HS.
  apply Qabs_case; intros Hsign Hr H8; rewrite Hu in *; split; nra.
Qed.

(** C12. The centre that [get_center] computes in the host's arithmetic
    is within [center_err M] of the exact centre, for a box of eight
    corners with coordinates of size at most [M] along the axis. *)
Theorem get_center32_error a bbox M :
  length bbox = 8%nat -> Forall (fun c => Qabs (coord a c) <= M) bbox ->
  Qabs (coord a (get_center32 bbox) - coord a (get_center bbox))
  <= 6 * 2 ^ (-24) * M + 3 * 2 ^ (-150).
Proof. apply center32_near. Qed.

(** The index along one axis is the same in the host's arithmetic and in
    exact arithmetic when the exact centre is not within [center_err M] of
    a plane of the grid. *)
Lemma index32_axis a bbox M k :
  length bbox = 8%nat -> Forall (fun c => Qabs (coord a c) <= M) bbox ->
  (Z.abs k < 2 ^ 24)%Z ->
  inject_Z k + center_err M <= coord a (get_center bbox) ->
  coord a (get_center bbox) + center_err M < inject_Z (k + 1) ->
  coord a (floor32 (get_center32 bbox)) == inject_Z k /\
  coord a (floor (get_center bbox)) = inject_Z k.
Proof.

  intros Hlen Hall Hk Hlo Hhi. pose proof (center32_near a bbox M Hlen Hall) as Hn.
  apply Qabs_Qle_condition in Hn.
  assert (0 <= center_err M).
  { destruct bbox as [|c bbox]; [done|]. apply Forall_cons in Hall as [Hc _].
    pose proof (Qabs_nonneg (coord a c)). unfold center_err.
    assert (0 < u32) by reflexivity. assert (0 < eta32) by reflexivity. nra. }
  unfold floor32. rewrite coord_vround, !floor_coord.
  rewrite !(Qfloor_unique _ k) by lra.
  split; [by apply round32_representable, representable_Z | done].
Qed.

(** The conversion of the floor back to the format is exact: on a
    vector of the format [floor] gives the same vector in the host's
    arithmetic and in exact arithmetic. *)
Theorem floor32_exact v :
  representable (vx v) -> representable (vy v) -> representable (vz v) ->
  floor32 v ≡ floor v.
Proof.
  intros Hx Hy Hz. unfold floor32, vround, floor, vec_of_ints. cbn [vx vy vz].
  split_and!; cbn [vx vy vz]; by apply round32_representable, representable_floor.
Qed.


Lemma index32_safe M bbox :
  length bbox = 8%nat -> safe_center M bbox ->
  floor32 (get_center32 bbox) ≡ floor (get_center bbox).
Proof.
  intros Hlen Hsafe. apply veq_coord. intros a.
  destruct (Hsafe a) as (Hall & k & Hk & Hlo & Hhi).
  destruct (index32_axis a bbox M k) as [-> ->]; done.
Qed.

(** A piece that fills its cell gets the index of the cell in the
    host's arithmetic as well, for cells up to [2 ^ 20] from the origin:
    the rounded centre of the box from (i, j, k) to (i+1, j+1, k+1) is
    floored to (i, j, k). *)
Theorem full_cell_index32 (i j k : Z) :
  (Z.abs i <= 2 ^ 20)%Z -> (Z.abs j <= 2 ^ 20)%Z -> (Z.abs k <= 2 ^ 20)%Z ->
  floor32 (get_center32 (box_corners (vec_of_ints i j k)
                                     (vec_of_ints (i + 1) (j + 1) (k + 1))))
  ≡ vec_of_ints i j k.
Proof.
  intros Hi Hj Hk. set (lo := vec_of_ints i j k).
  set (hi := vec_of_ints (i + 1) (j + 1) (k + 1)).
  assert (Hc : forall a, exists n : Z, (Z.abs n <= 2 ^ 20)%Z /\
            coord a lo = inject_Z n /\ coord a hi = inject_Z (n + 1))
    by (intros []; eauto).
  apply veq_coord. intros a. destruct (Hc a) as (n & Hn & Hlo & Hhi).
  destruct (index32_axis a (box_corners lo hi) 1048577 n) as [-> _];
    [done| | lia |..| by rewrite Hlo].
  - apply Forall_forall. intros p [->| ->]%(corner_coord a); rewrite ?Hlo, ?Hhi;
      apply Qabs_Qle_condition; apply Z.abs_le in Hn as [Hn1 Hn2];
      rewrite Zle_Qle in Hn1, Hn2; change (inject_Z (- 2 ^ 20)) with (-1048576) in Hn1;
      change (inject_Z (2 ^ 20)) with 1048576 in Hn2; push_inject; lra.
  - rewrite (coord_proper a _ _ (get_center_corners lo hi)), coord_vscale, coord_vadd.
    rewrite Hlo, Hhi. push_inject. assert (center_err 1048577 < 1 # 2) by reflexivity.
    lra.
  - rewrite (coord_proper a _ _ (get_center_corners lo hi)), coord_vscale, coord_vadd.
    rewrite Hlo, Hhi. push_inject. assert (center_err 1048577 < 1 # 2) by reflexivity.
    lra.
Qed.

(** C13. [get_index] returns the same index in the host's arithmetic and
    in exact arithmetic when the centre of the bounding box of the target
    is clear of the planes of the grid: both calls return, leave the
    scene as it is, and their results denote the same vector. *)
Theorem get_index32_agrees {mesh elem : Type} `{!BMeshOps mesh elem}
    (s : Scene mesh) (target : nat) (o : Object mesh) M :
  objects s !! target = Some o -> safe_center M (bound_box o) ->
  exists v32 v, get_index32 target s = Done v32 s /\
    get_index target s = Done v s /\ v32 ≡ v.
Proof.
  intros Ho Hsafe. unfold get_index32, get_index.
  rewrite !(bind_done _ _ _ _ _ (get_bound_box_run s target o Ho)).
  eexists _, _. split_and!; [done..|].
  apply (index32_safe M); [apply bound_box_length | done].
Qed.

End Index.

Lemma get_center32_error_witness :
  Qabs (coord AxisX (get_center32 sliver) - coord AxisX (get_center sliver))
  <= 6 * 2 ^ (-24) * 4 + 3 * 2 ^ (-150).
Proof.
  apply get_center32_error; [done|]. repeat constructor; by vm_compute.
Defined.

Lemma get_index32_agrees_witness :
  exists v32 v, get_index32 0 tilted_scene = Done v32 tilted_scene /\
    get_index 0 tilted_scene = Done v tilted_scene /\ v32 ≡ v.
Proof.
  apply (get_index32_agrees tilted_scene 0 tilted_object 1); [done|].
  intros a. split; [destruct a; repeat constructor; by vm_compute|].
  exists 0%Z. destruct a; by vm_compute.
Defined.

Lemma full_cell_index32_witness :
  floor32 (get_center32 (box_corners (vec_of_ints 13 2 0)
                                     (vec_of_ints (13 + 1) (2 + 1) (0 + 1))))
  ≡ vec_of_ints 13 2 0.
Proof. by apply full_cell_index32. Defined.

Lemma floor32_exact_witness :
  floor32 (mkVec (5 # 2) (- (5 # 4)) 0) ≡ floor (mkVec (5 # 2) (- (5 # 4)) 0).
Proof.
  apply floor32_exact; cbn [vx vy vz].
  - exists 5%Z, (-1)%Z. split_and!; [done..|]. by vm_compute.
  - exists (-5)%Z, (-2)%Z. split_and!; [done..|]. by vm_compute.
  - by apply (representable_Z 0).
Defined.
