(* ===== verification/Shift32.v ===== *)
(** * Shift32: the pivot fix in the host's arithmetic

    Lines 50 to 52 move the vertices of a target by its index: the
    location is decreased by the index, [transform_apply] adds the
    location to every vertex, and the location is set to the index.  The
    host stores locations and vertices in binary32, so the vertex that
    comes out is the rounded difference.  This file gives these three
    statements with [Float32.round32] for an object without rotation and
    scale, which is what the pieces are when [fix_pivots] runs, and shows
    when the difference is exact: for a vertex of the format in the unit
    cell of the index, whenever its coordinate is at least one in size or
    the index is zero.  A coordinate closer to zero next to a cell of
    negative index can be rounded, and the vertex moves. *)

From Stdlib Require Import Qpower Qabs.
From S2P Require Import Prelude Vector Pivot BoundBox Mesh PolySoup Scene Script.
From S2P Require Import Float32.

Local Open Scope Q_scope.

(** ** Differences that the format holds *)

Section Shift.
Implicit Types (x t : Q) (m e n k : Z).

Lemma Qabs_inject_Z k : Qabs (inject_Z k) = inject_Z (Z.abs k).
Proof. reflexivity. Qed.

Lemma representable_opp x : representable x -> representable (- x).
Proof.
  intros (m & e & Hm & He & Hx). exists (- m)%Z, e.
  split_and!; [lia | done |]. rewrite Hx, inject_Z_opp. ring.
Qed.

(** A number of the format with a negative exponent, as a fraction. *)
Lemma scaled_significand x m e :
  (e < 0)%Z -> x == inject_Z m * 2 ^ e -> x * inject_Z (2 ^ (- e)) == inject_Z m.
Proof.
  intros He Hx. rewrite pow2_Z, Hx by lia.
  rewrite <- Qmult_assoc, <- pow2_add. replace (e + - e)%Z with 0%Z by lia.
  change (2 ^ 0) with 1. ring.
Qed.

(** The significand of a number of size at least one has a short
    fraction. *)
Lemma fraction_short x m e :
  (Z.abs m < 2 ^ 24)%Z -> (e < 0)%Z -> x == inject_Z m * 2 ^ e -> 1 <= Qabs x ->
  (2 ^ (- e) <= 2 ^ 23)%Z.
Proof.
  intros Hm He Hx%scaled_significand Hone; [|done].
  assert (Hp : (0 < 2 ^ (- e))%Z) by (apply Z.pow_pos_nonneg; lia).
  assert (Habs : inject_Z (2 ^ (- e)) <= inject_Z (Z.abs m)).
  { rewrite <- (Z.abs_eq (2 ^ (- e))) at 1 by lia.
    rewrite <- !Qabs_inject_Z, <- Hx, Qabs_Qmult.
    rewrite Zlt_Qlt in Hp. change (inject_Z 0) with 0 in Hp.
    pose proof (Qabs_nonneg (inject_Z (2 ^ (- e)))). nra. }
  rewrite <- Zle_Qle in Habs.
  enough (- e < 24)%Z by (apply Z.pow_le_mono_r; lia).
  apply (Z.pow_lt_mono_r_iff 2); lia.
Qed.

(** The distance of a number of the format from the integer below it, in
    the unit cell above that integer, is a number of the format when the
    number is at least one in size. *)
Lemma representable_shift x n :
  representable x -> 1 <= Qabs x -> inject_Z n <= x <= inject_Z n + 1 ->
  representable (x - inject_Z n).
Proof.
  intros (m & e & Hm & He & Hx) Hone [Hlo Hhi].
  destruct (Z.le_gt_cases 0 e) as [Hpos|Hneg].
  - assert (Hint : x == inject_Z (m * 2 ^ e)) by by rewrite inject_Z_mult, pow2_Z.
    rewrite Hint in *. rewrite <- inject_Z_minus. apply representable_Z.
    change 1 with (inject_Z 1) in Hhi. rewrite <- inject_Z_plus in Hhi.
    rewrite <- Zle_Qle in Hlo, Hhi. change (2 ^ 24)%Z with 16777216%Z. lia.
  - pose proof (fraction_short x m e Hm Hneg Hx Hone) as Hshort.
    pose proof (scaled_significand x m e Hneg Hx) as Hs.
    assert (Hp : (0 < 2 ^ (- e))%Z) by (apply Z.pow_pos_nonneg; lia).
    assert (HP : 0 < inject_Z (2 ^ (- e))) by (by rewrite Zlt_Qlt in Hp).
    assert (H1 : inject_Z (n * 2 ^ (- e)) <= inject_Z m)
      by (rewrite <- Hs, inject_Z_mult; nra).
    assert (H2 : inject_Z m <= inject_Z ((n + 1) * 2 ^ (- e)))
      by (rewrite <- Hs, inject_Z_mult, inject_Z_plus; change (inject_Z 1) with 1; nra).
    rewrite <- Zle_Qle in H1, H2.
    exists (m - n * 2 ^ (- e))%Z, e. split_and!; [|done|].
    + change (2 ^ 24)%Z with 16777216%Z. change (2 ^ 23)%Z with 8388608%Z in Hshort.
      lia.
    + rewrite inject_Z_minus, inject_Z_mult, pow2_Z, Hx by lia.
      assert (Hone' : 2 ^ (- e) * 2 ^ e == 1)
        by (rewrite <- pow2_add; by replace (- e + e)%Z with 0%Z by lia).
      assert (Hr : (inject_Z m - inject_Z n * 2 ^ (- e)) * 2 ^ e
                   == inject_Z m * 2 ^ e - inject_Z n * (2 ^ (- e) * 2 ^ e)) by ring.
      rewrite Hr, Hone'. ring.
Qed.

(** One coordinate of a vertex through lines 50 to 52: the location
    [0 - t], the vertex moved by it, and the vertex as the host places it
    afterwards, each rounded. *)
Lemma shift32_axis x t n :
  representable x -> t == inject_Z n -> (Z.abs n < 2 ^ 24)%Z ->
  1 <= Qabs x \/ n = 0%Z -> inject_Z n <= x <= inject_Z n + 1 ->
  round32 (x + round32 (0 - t)) == x - t /\
  round32 (round32 (x + round32 (0 - t)) + t) == x.
Proof.
  intros Hx Ht Hn Hone Hcell.
  assert (H0 : round32 (0 - t) == - inject_Z n).
  { assert (E : 0 - t == inject_Z (- n)) by (rewrite Ht, inject_Z_opp; ring).
    rewrite E, <- inject_Z_opp. apply round32_representable, representable_Z. lia. }
  assert (E1 : x + round32 (0 - t) == x - inject_Z n) by (rewrite H0; ring).
  assert (H1 : round32 (x + round32 (0 - t)) == x - t).
  { rewrite E1, Ht. apply round32_representable. destruct Hone as [Hone| ->].
    - by apply representable_shift.
    - assert (E : x - inject_Z 0 == x) by (change (inject_Z 0) with 0; ring).
      by rewrite E. }
  split; [done|].
  assert (E2 : round32 (x + round32 (0 - t)) + t == x) by (rewrite H1; ring).
  rewrite E2. by apply round32_representable.
Qed.

End Shift.

(** ** Lines 50 to 52 in the format *)

Section Pivot32.
Context {mesh elem : Type} `{!BMeshOps mesh elem}.
Implicit Types (o : Object mesh) (m : mesh) (v index : Vec) (a : axis).

(** [target.location -= index] *)
Definition vsub32 (u v : Vec) : Vec := vround (u - v).

(** [transform_apply] on an object whose rotation and scale are the
    identity: the location is added to every vertex, with one rounding,
    and becomes zero.  (With another matrix the host rounds the products
    as well; that case is not modelled.) *)
Definition apply_location32 (o : Object mesh) : Object mesh :=
  match data o with
  | Some m =>
      mkObject vzero (basis o)
        (Some (transform (fun v => vadd32 v (location o)) m)) (selected o)
  | None => o
  end.

(** The target after lines 48 to 52, for a target whose rotation and
    scale are the identity. *)
Definition fixed_pivot32 (o : Object mesh) : Object mesh :=
  let index := floor32 (get_center32 (bound_box o)) in
  with_location index
    (apply_location32
       (with_location (vsub32 (location o) index) (with_selected true o))).

(** The vertices of an object without rotation and scale where the host
    puts them in the world. *)
Definition world32 (o : Object mesh) : list Vec :=
  (fun v => vadd32 v (location o)) <$> local_coords o.

(** The index is an integer of the format along every axis, and every
    vertex is a vertex of the format in the unit cell of the index that
    is at least one in size along the axes where the index is not zero. *)
Definition shift_safe (index : Vec) (cs : list Vec) : Prop :=
  forall a, exists n : Z,
    (Z.abs n < 2 ^ 24)%Z /\ coord a index == inject_Z n /\
    Forall (fun v => representable (coord a v) /\
                     (1 <= Qabs (coord a v) \/ n = 0%Z) /\
                     inject_Z n <= coord a v <= inject_Z n + 1) cs.

Lemma coord_vadd32 a u v : coord a (vadd32 u v) = round32 (coord a u + coord a v).
Proof. unfold vadd32. by rewrite coord_vround, coord_vadd. Qed.

Lemma coord_vsub32 a u v : coord a (vsub32 u v) = round32 (coord a u - coord a v).
Proof. unfold vsub32. by rewrite coord_vround, coord_vsub. Qed.

Lemma coord_vzero a : coord a vzero = 0.
Proof. by destruct a. Qed.

(** One vertex through lines 50 to 52. *)
Lemma shift32_vertex index cs v :
  shift_safe index cs -> v ∈ cs ->
  vadd32 v (vsub32 vzero index) ≡ (v - index)%vec /\
  vadd32 (vadd32 v (vsub32 vzero index)) index ≡ v.
Proof.
  intros Hsafe Hv. rewrite !veq_coord.
  enough (forall a,
    coord a (vadd32 v (vsub32 vzero index)) == coord a (v - index)%vec /\
    coord a (vadd32 (vadd32 v (vsub32 vzero index)) index) == coord a v)
    by (split; intros a; by apply H).
  intros a. destruct (Hsafe a) as (n & Hn & Hidx & Hall).
  rewrite Forall_forall in Hall. destruct (Hall v Hv) as (Hr & Hone & Hcell).
  rewrite !coord_vadd32, coord_vsub32, coord_vzero, coord_vsub.
  by apply (shift32_axis _ _ n).
Qed.

Context `{!BMeshLaws mesh elem}.

Lemma fixed_pivot32_local o m :
  data o = Some m ->
  local_coords (fixed_pivot32 o)
  = (fun v => vadd32 v (vsub32 (location o) (floor32 (get_center32 (bound_box o)))))
      <$> coords m.
Proof.
  intros Hd. unfold fixed_pivot32, apply_location32, local_coords. cbn.
  rewrite Hd. cbn. by rewrite coords_transform.
Qed.

(** C24. In the host's arithmetic the pivot fix moves no vertex of a
    target without transform whose vertices are safe for the index: the
    new local coordinates are the differences to the index, exactly, and
    the host puts every vertex where it was. *)
Theorem fixed_pivot32_exact o m :
  basis o = mat_id -> location o = vzero -> data o = Some m ->
  shift_safe (floor32 (get_center32 (bound_box o))) (coords m) ->
  local_coords (fixed_pivot32 o)
  ≡ (fun v => (v - floor32 (get_center32 (bound_box o)))%vec) <$> coords m /\
  world32 (fixed_pivot32 o) ≡ coords m.
Proof.
  intros _ Hl Hd Hsafe. unfold world32. rewrite (fixed_pivot32_local o m Hd), Hl.
  set (index := floor32 (get_center32 (bound_box o))) in *.
  assert (Hv : forall i v, coords m !! i = Some v -> v ∈ coords m)
    by (intros i v Hi; apply list_elem_of_lookup; eauto).
  split.
  - apply list_fmap_equiv_ext. intros i v Hi%Hv.
    by apply (shift32_vertex index (coords m)).
  - rewrite <- list_fmap_compose. rewrite <- (list_fmap_id (coords m)) at 2.
    apply list_fmap_equiv_ext. intros i v Hi%Hv.
    by apply (shift32_vertex index (coords m)).
Qed.

End Pivot32.


Definition high_mesh : soup :=
  [[[mkVec 3.25 1.25 0; mkVec 3.75 1.25 0; mkVec 3.75 1.75 0]]].

Definition high_object : Object soup := mkObject vzero mat_id (Some high_mesh) true.


Lemma fixed_pivot32_exact_witness :
  local_coords (fixed_pivot32 high_object)
  ≡ (fun v => (v - floor32 (get_center32 (bound_box high_object)))%vec)
      <$> coords high_mesh /\
  world32 (fixed_pivot32 high_object) ≡ coords high_mesh.
Proof.
  apply (fixed_pivot32_exact high_object high_mesh); [done..|].
  assert (Hq : forall k : Z, (Z.abs k < 2 ^ 24)%Z -> representable (inject_Z k * 2 ^ (-2)))
    by (intros k Hk; by exists k, (-2)%Z).
  assert (Hv : forall (k n : Z) x, x == inject_Z k * 2 ^ (-2) -> (Z.abs k < 2 ^ 24)%Z ->
            1 <= Qabs x \/ n = 0%Z -> inject_Z n <= x -> x <= inject_Z n + 1 ->
            representable x /\ (1 <= Qabs x \/ n = 0%Z) /\ inject_Z n <= x <= inject_Z n + 1)
    by (intros k n x -> ? ? ? ?; split_and!; auto).
  assert (H3 : forall (P : Vec -> Prop) u v w, P u -> P v -> P w -> Forall P [u; v; w])
    by (by repeat constructor).
  intros []; [exists 3%Z | exists 1%Z | exists 0%Z];
    (split; [done | split; [by vm_compute | apply H3]]).
  - apply (Hv 13%Z); (done || left; by vm_compute).
  - apply (Hv 15%Z); (done || left; by vm_compute).
  - apply (Hv 15%Z); (done || left; by vm_compute).
  - apply (Hv 5%Z); (done || left; by vm_compute).
  - apply (Hv 5%Z); (done || left; by vm_compute).
  - apply (Hv 7%Z); (done || left; by vm_compute).
  - apply (Hv 0%Z); (done || by right).
  - apply (Hv 0%Z); (done || by right).
  - apply (Hv 0%Z); (done || by right).
Defined.
