(* ===== verification/Overflow.v ===== *)
(** * Overflow: the grid index with infinities

    [Float32] rounds to a format without a largest exponent.  A binary32
    number is at most [max32] in size; a result that rounds beyond it is an
    infinity, the sum of two infinities of opposite sign is not a number,
    and Python's [math.floor] raises [OverflowError] on an infinity and
    [ValueError] on what is not a number.  This file gives [get_center],
    [floor] and [get_index] on the values of the format with these two
    ([f32]), and [fix_pivots] with that index.

    The theorems show that the arithmetic of [Float32] is the arithmetic
    of the host for boxes with corners up to [2 ^ 124] in size, that the
    sum of the eight corners overflows beyond that although the centre is
    a number of the format, that the only exception of [floor] is
    [OverflowError], and that it ends [fix_pivots] at line 49 of the first
    target it concerns. *)

From Stdlib Require Import Qpower Qabs.
From S2P Require Import Prelude Vector Pivot BoundBox Mesh PolySoup Scene Script.
From S2P Require Import Again Float32.

Local Open Scope Q_scope.

(** ** The values of the format *)

(** The largest number of the format. *)
Definition max32 : Q := (2 ^ 24 - 1) * 2 ^ 104.

Inductive f32 : Type :=
| Fin (x : Q)
| Inf (negative : bool)
| NaN.

(** Rounding to the format: to the nearest number as if the exponent had
    no bound, and to an infinity when that is beyond the largest. *)
Definition fround (x : Q) : f32 :=
  let y := round32 x in
  if Qle_bool (Qabs y) max32 then Fin y else Inf (negb (Qle_bool 0 y)).

Definition fadd (a b : f32) : f32 :=
  match a, b with
  | NaN, _ | _, NaN => NaN
  | Inf s, Inf t => if Bool.eqb s t then Inf s else NaN
  | Inf s, Fin _ | Fin _, Inf s => Inf s
  | Fin x, Fin y => fround (x + y)
  end.

Definition fmul (a b : f32) : f32 :=
  match a, b with
  | NaN, _ | _, NaN => NaN
  | Inf s, Inf t => Inf (xorb s t)
  | Inf s, Fin x | Fin x, Inf s =>
      if Qeq_bool x 0 then NaN else Inf (xorb s (negb (Qle_bool 0 x)))
  | Fin x, Fin y => fround (x * y)
  end.

(** [math.floor] of a float. *)
Definition ffloor (a : f32) : error + Z :=
  match a with
  | Fin x => inr (Qfloor x)
  | Inf _ => inl OverflowError
  | NaN => inl ValueError
  end.

(** ** Vectors of the format *)

Record Vec32 : Type := mkVec32 { fx : f32; fy : f32; fz : f32 }.

(** A vector of numbers of the format, as the host holds the corners of a
    bounding box. *)
Definition fin_vec (v : Vec) : Vec32 := mkVec32 (Fin (vx v)) (Fin (vy v)) (Fin (vz v)).

Definition fcoord (a : axis) (v : Vec32) : f32 :=
  match a with AxisX => fx v | AxisY => fy v | AxisZ => fz v end.

(** [center += c] *)
Definition vadd_ieee (u v : Vec32) : Vec32 :=
  mkVec32 (fadd (fx u) (fx v)) (fadd (fy u) (fy v)) (fadd (fz u) (fz v)).

(** [center * 0.125] *)
Definition vscale_ieee (v : Vec32) (k : f32) : Vec32 :=
  mkVec32 (fmul (fx v) k) (fmul (fy v) k) (fmul (fz v) k).

(** ** Lines 31 to 42 on these values *)

Definition get_center_ieee (bbox : list Vec) : Vec32 :=
  let center :=
    fold_left (fun center c => vadd_ieee center (fin_vec c)) bbox (fin_vec vzero) in
  vscale_ieee center (Fin 0.125).

(** The three calls of [math.floor] from left to right, the first
    exception ending the evaluation, and the integers as a vector. *)
Definition floor_ieee (vec : Vec32) : error + Vec :=
  match ffloor (fx vec) with
  | inl e => inl e
  | inr x =>
      match ffloor (fy vec) with
      | inl e => inl e
      | inr y =>
          match ffloor (fz vec) with
          | inl e => inl e
          | inr z => inr (vround (vec_of_ints x y z))
          end
      end
  end.

(** The sum of the coordinates along one axis. *)
Definition fsum (l : list Q) : f32 := fold_left (fun s x => fadd s (Fin x)) l (Fin 0).

Section Script.
Context {mesh elem : Type} `{!BMeshOps mesh elem}.

Definition get_index_ieee (target : nat) : host mesh Vec :=
  bind (get_bound_box target) (fun bound_box =>
  match floor_ieee (get_center_ieee bound_box) with
  | inr index => pure index
  | inl e => throw e
  end).

(** ** Lines 44 to 54 with this index *)

Definition fix_pivot_ieee (target : nat) : host mesh unit :=
  bind (select target) (fun _ =>
  bind (get_index_ieee target) (fun index =>
  bind (get_location target) (fun loc =>
  bind (set_location target (loc - index)%vec) (fun _ =>
  bind transform_apply (fun _ =>
  set_location target index))))).

Definition fix_pivots_ieee : host mesh unit :=
  bind selected_objects (fun targets =>
  bind (for_each targets fix_pivot_ieee) (fun _ =>
  set_selected_objects targets)).

End Script.

(** ** Samples *)

(** A square of side one at [x = 2 ^ 126]. *)
Definition far_square : soup :=
  [[[mkVec (2 ^ 126) 0 0; mkVec (2 ^ 126) 1 0; mkVec (2 ^ 126) 1 1;
     mkVec (2 ^ 126) 0 1]]].

Definition far_object : Object soup := mkObject vzero mat_id (Some far_square) true.

(** The far square and, behind it in the scene, the square of [Again] in
    the cell with corner (3, 1, 0), both selected. *)
Definition far_pair_scene : Scene soup :=
  mkScene [far_object; flat_object] (Some 0%nat) OBJECT.

(** ** Rounding within the range *)

Section Range.
Implicit Types (x b : Q) (e : Z) (n : nat) (l : list Q).

Lemma max32_representable : representable max32.
Proof. exists (2 ^ 24 - 1)%Z, 104%Z. by split_and!. Qed.

Lemma fround_fin x : Qabs (round32 x) <= max32 -> fround x = Fin (round32 x).
Proof. intros H%Qle_bool_iff. unfold fround. by rewrite H. Qed.

Lemma fround_inf x :
  max32 < Qabs (round32 x) -> exists s, fround x = Inf s.
Proof.
  intros H. unfold fround. destruct (Qle_bool _ _) eqn:E; [|by eexists].
  apply Qle_bool_iff in E. lra.
Qed.

(** A bound of the format within the range keeps the rounded number
    finite. *)
Lemma fround_bounded x b :
  representable b -> b <= max32 -> Qabs x <= b ->
  fround x = Fin (round32 x) /\ Qabs (round32 x) <= b.
Proof.
  intros Hb Hmax Hx. pose proof (round32_bounded x b Hb Hx).
  split; [apply fround_fin; lra | done].
Qed.

(** A multiple of a power of two by a number of elements. *)
Lemma representable_count n e :
  (-149 <= e)%Z -> (Z.of_nat n < 2 ^ 24)%Z ->
  representable (inject_Z (Z.of_nat n) * 2 ^ e).
Proof. intros He Hn. exists (Z.of_nat n), e. split_and!; [lia|done..]. Qed.

Lemma fsum_snoc l x : fsum (l ++ [x]) = fadd (fsum l) (Fin x).
Proof. unfold fsum. by rewrite fold_left_app. Qed.

(** The sum of numbers of size at most [2 ^ e] stays finite, and is the
    sum of [Float32], as long as their number times [2 ^ e] is within the
    range. *)
Lemma fsum_fin e l :
  (-149 <= e)%Z -> (Z.of_nat (length l) < 2 ^ 24)%Z ->
  inject_Z (Z.of_nat (length l)) * 2 ^ e <= max32 ->
  Forall (fun x => Qabs x <= 2 ^ e) l ->
  fsum l = Fin (sum32 l) /\
  Qabs (sum32 l) <= inject_Z (Z.of_nat (length l)) * 2 ^ e.
Proof.
  intros He. pose proof (pow2_pos e) as Hp.
  induction l as [|x l IH] using rev_ind; intros Hn Hmax Hall.
  { split; [done|]. change (inject_Z (Z.of_nat (length (@nil Q)))) with 0.
    change (Qabs (sum32 [])) with 0. lra. }
  rewrite length_app, Nat.add_1_r, Nat2Z.inj_succ, <- Z.add_1_r, inject_Z_plus in *.
  apply Forall_app in Hall as [Hl [Hx _]%Forall_cons].
  destruct IH as [IH Hs]; [lia | change (inject_Z 1) with 1 in Hmax; lra | done |].
  rewrite fsum_snoc, sum32_snoc, IH. cbn [fadd].
  change (inject_Z 1) with 1 in *. apply fround_bounded; [|done|].
  - rewrite <- (inject_Z_plus _ 1), Z.add_1_r, <- Nat2Z.inj_succ.
    apply representable_count; [done|lia].
  - pose proof (Qabs_triangle (sum32 l) x). lra.
Qed.

(** The scaling of a finite number by one eighth stays finite. *)
Lemma fmul_eighth x b :
  representable b -> b <= max32 -> Qabs x <= b ->
  fmul (Fin x) (Fin 0.125) = Fin (round32 (x * 0.125)).
Proof.
  intros Hb Hmax Hx. cbn [fmul]. apply fround_bounded with b; [done..|].
  rewrite Qabs_Qmult. assert (E : Qabs 0.125 == 1 # 8) by reflexivity. rewrite E.
  pose proof (Qabs_nonneg x). lra.
Qed.

(** Sums never leave the numbers and the infinities; scaling by one eighth
    keeps them there. *)
Definition a_number (a : f32) : Prop := a <> NaN.

Lemma fround_number x : a_number (fround x).
Proof. unfold fround. by destruct (Qle_bool _ _). Qed.

Lemma fsum_number l : a_number (fsum l).
Proof.
  induction l as [|x l IH] using rev_ind; [done|]. rewrite fsum_snoc.
  destruct (fsum l) as [s|s|]; [apply fround_number|done..].
Qed.

Lemma fmul_eighth_number a : a_number a -> a_number (fmul a (Fin 0.125)).
Proof. destruct a; [intros _; apply fround_number|done..]. Qed.

Lemma ffloor_number a : a_number a -> ffloor a <> inl ValueError.
Proof. by destruct a. Qed.
End Range.

(** ** The centre along one axis *)

Section Center.
Implicit Types (a : axis) (bbox : list Vec) (v : Vec).

Lemma vec32_ext (u w : Vec32) : (forall a, fcoord a u = fcoord a w) -> u = w.
Proof.
  intros H. destruct u, w. pose proof (H AxisX). pose proof (H AxisY).
  pose proof (H AxisZ). cbn in *. by subst.
Qed.

Lemma fcoord_fin_vec a v : fcoord a (fin_vec v) = Fin (coord a v).
Proof. by destruct a. Qed.

Lemma fcoord_fold a bbox (u : Vec32) :
  fcoord a (fold_left (fun center c => vadd_ieee center (fin_vec c)) bbox u)
  = fold_left (fun s x => fadd s (Fin x)) (coord a <$> bbox) (fcoord a u).
Proof.
  revert u. induction bbox as [|c bbox IH]; intros u; [done|].
  cbn [fold_left fmap list_fmap]. rewrite IH. by destruct a.
Qed.

Lemma fcoord_get_center_ieee a bbox :
  fcoord a (get_center_ieee bbox) = fmul (fsum (coord a <$> bbox)) (Fin 0.125).
Proof.
  unfold get_center_ieee, fsum.
  assert (E : Fin 0 = fcoord a (fin_vec vzero)) by (by destruct a).
  rewrite E, <- fcoord_fold. by destruct a.
Qed.

Lemma floor_ieee_fin v : floor_ieee (fin_vec v) = inr (floor32 v).
Proof. reflexivity. Qed.

(** [floor] raises nothing but [OverflowError]. *)
Lemma floor_ieee_error bbox e :
  floor_ieee (get_center_ieee bbox) = inl e -> e = OverflowError.
Proof.
  pose proof (fun a => fmul_eighth_number _ (fsum_number (coord a <$> bbox))) as H.
  setoid_rewrite <- fcoord_get_center_ieee in H. unfold floor_ieee.
  pose proof (H AxisX) as Hx. pose proof (H AxisY) as Hy. pose proof (H AxisZ) as Hz.
  cbn [fcoord] in Hx, Hy, Hz.
  destruct (fx _), (fy _), (fz _); cbn; try done; congruence.
Qed.
End Center.

(** ** The index of an object *)

Section Index.
Context {mesh elem : Type} `{!BMeshOps mesh elem}.
Implicit Types (s : Scene mesh) (o : Object mesh) (target t : nat)
  (bbox cs : list Vec).

(** The centre of at most eight corners of size up to [2 ^ 124] is the
    centre of [Float32]: no operation leaves the range. *)
Lemma get_center_ieee_finite bbox :
  (length bbox <= 8)%nat ->
  Forall (fun c => forall a, Qabs (coord a c) <= 2 ^ 124) bbox ->
  get_center_ieee bbox = fin_vec (get_center32 bbox).
Proof.
  intros Hn Hall. apply vec32_ext. intros a.
  rewrite fcoord_get_center_ieee, fcoord_fin_vec, coord_get_center32.
  assert (Hlen : (Z.of_nat (length (coord a <$> bbox)) <= 8)%Z)
    by (rewrite length_fmap; lia).
  assert (Hmax : inject_Z 8 * 2 ^ 124 <= max32) by by vm_compute.
  assert (Hle : inject_Z (Z.of_nat (length (coord a <$> bbox))) * 2 ^ 124
                <= inject_Z 8 * 2 ^ 124).
  { apply Qmult_le_compat_r; [by rewrite <- Zle_Qle | by vm_compute]. }
  destruct (fsum_fin 124 (coord a <$> bbox)) as [-> Hs]; [lia.. | lra | |].
  { apply Forall_fmap. eapply Forall_impl; [exact Hall|]. intros c Hc. apply Hc. }
  apply (fmul_eighth _ (inject_Z 8 * 2 ^ 124)); [|done|lra].
  by apply (representable_count 8 124).
Qed.

Lemma bound_box_in_range cs :
  (forall a, in_slab a (- 2 ^ 124) (2 ^ 124) cs) ->
  Forall (fun c => forall a, Qabs (coord a c) <= 2 ^ 124) (bound_box_of cs).
Proof.
  intros Hcs. apply Forall_forall. intros c Hc a. apply Qabs_Qle_condition.
  assert (Hin : in_slab a (- 2 ^ 124) (2 ^ 124) (bound_box_of cs)).
  { destruct cs as [|c0 cs]; [|by apply bound_box_in_slab].
    apply corners_in_slab; destruct a; by vm_compute. }
  unfold in_slab in Hin. rewrite Forall_forall in Hin. by apply Hin.
Qed.

Lemma get_index_ieee_run s target o :
  objects s !! target = Some o ->
  get_index_ieee target s
  = match floor_ieee (get_center_ieee (bound_box o)) with
    | inr index => Done index s
    | inl e => Raise e s
    end.
Proof.
  intros Ho. unfold get_index_ieee.
  rewrite (bind_done _ _ _ _ _ (get_bound_box_run s target o Ho)).
  by destruct (floor_ieee _).
Qed.

(** C27. For an object whose vertices are at most [2 ^ 124] from the
    origin along every axis, [get_index] on the floats of the host, with
    their infinities, is [get_index] in the format without a largest
    exponent: no addition of [get_center] overflows, and [floor] raises
    nothing. *)
Theorem get_index_ieee_agrees s target o :
  objects s !! target = Some o ->
  (forall a, in_slab a (- 2 ^ 124) (2 ^ 124) (local_coords o)) ->
  get_index_ieee target s = get_index32 target s.
Proof.
  intros Ho Hcs. rewrite (get_index_ieee_run s target o Ho). unfold get_index32.
  rewrite (bind_done _ _ _ _ _ (get_bound_box_run s target o Ho)).
  rewrite get_center_ieee_finite;
    [done | unfold bound_box; by rewrite bound_box_length |].
  by apply bound_box_in_range.
Qed.

(** C26. [get_index] raises for two reasons only, and leaves the scene as
    it is: [ReferenceError] for a target that is no object of the scene,
    and [OverflowError] from [math.floor] when the sum of the corners is
    infinite along an axis.  It never raises the [ValueError] of
    [math.floor]: the centre is always a number or an infinity. *)
Theorem get_index_ieee_raises s target e s' :
  get_index_ieee target s = Raise e s' ->
  s' = s /\
  ((e = ReferenceError /\ objects s !! target = None) \/
   (e = OverflowError /\ exists o a negative,
      objects s !! target = Some o /\
      fcoord a (get_center_ieee (bound_box o)) = Inf negative)).
Proof.
  destruct (objects s !! target) as [o|] eqn:Ho.
  - rewrite (get_index_ieee_run s target o Ho).
    destruct (floor_ieee _) as [e'|] eqn:Hfl; [|done]. intros [= -> ->].
    split; [done|right]. pose proof (floor_ieee_error _ _ Hfl) as ->.
    split; [done|]. exists o. unfold floor_ieee in Hfl.
    destruct (fx _) as [| |] eqn:Hx; [|by exists AxisX; eauto|done].
    destruct (fy _) as [| |] eqn:Hy; [|by exists AxisY; eauto|done].
    destruct (fz _) as [| |] eqn:Hz; [done|by exists AxisZ; eauto|done].
  - unfold get_index_ieee, get_bound_box, object_ref, bind. rewrite Ho.
    intros [= <- <-]. by split; [|left].
Qed.

(** ** [fix_pivots] with infinities *)

Lemma fix_pivot_ieee_overflow s target o e :
  mode s = OBJECT -> objects s !! target = Some o ->
  floor_ieee (get_center_ieee (bound_box o)) = inl e ->
  fix_pivot_ieee target s = Raise e (selected_only target s).
Proof.
  intros Hm Ho Hfl. pose proof (lookup_lt_Some _ _ _ Ho) as Hlt.
  unfold fix_pivot_ieee.
  rewrite (bind_done _ _ _ _ _ (select_run s target Hm Hlt)).
  assert (Hsel : objects (selected_only target s) !! target
                 = Some (with_selected true o)).
  { cbn. by rewrite list_lookup_alter_eq, deselect_all_lookup, Ho. }
  apply bind_raise. rewrite (get_index_ieee_run _ target _ Hsel).
  change (bound_box (with_selected true o)) with (bound_box o). by rewrite Hfl.
Qed.

(** C25. When the index of the first target overflows, [fix_pivots] ends
    there with [OverflowError]: the target is selected and active and
    nothing else has changed; no pivot is moved, and the assignment of
    line 54 is not reached. *)
Theorem fix_pivots_ieee_overflow s t ts o a negative :
  mode s = OBJECT -> selected_ids (objects s) = t :: ts ->
  objects s !! t = Some o ->
  fcoord a (get_center_ieee (bound_box o)) = Inf negative ->
  fix_pivots_ieee s = Raise OverflowError (selected_only t s).
Proof.
  intros Hm Hsel Ho Hinf.
  assert (Hfl : floor_ieee (get_center_ieee (bound_box o)) = inl OverflowError).
  { destruct (floor_ieee _) as [e|v] eqn:Hfl.
    - by rewrite (floor_ieee_error _ _ Hfl).
    - unfold floor_ieee in Hfl. destruct a; cbn [fcoord] in Hinf;
        repeat (rewrite ?Hinf in Hfl; cbn in Hfl; try done;
                destruct (ffloor _); try done). }
  unfold fix_pivots_ieee, selected_objects, bind at 1. rewrite Hsel.
  apply bind_raise. cbn [for_each]. apply bind_raise.
  by apply (fix_pivot_ieee_overflow s t o).
Qed.
End Index.

(** ** The samples *)

Lemma get_index_ieee_agrees_witness :
  get_index_ieee 0 tilted_scene = get_index32 0 tilted_scene.
Proof.
  apply (get_index_ieee_agrees tilted_scene 0 tilted_object); [done|].
  intros a. apply (bool_decide_eq_true_1 _). by destruct a; vm_compute.
Defined.

Lemma get_index_ieee_raises_witness :
  far_pair_scene = far_pair_scene /\
  ((OverflowError = ReferenceError /\ objects far_pair_scene !! 0%nat = None) \/
   (OverflowError = OverflowError /\ exists o a negative,
      objects far_pair_scene !! 0%nat = Some o /\
      fcoord a (get_center_ieee (bound_box o)) = Inf negative)).
Proof.
  apply (get_index_ieee_raises far_pair_scene 0 OverflowError far_pair_scene).
  by vm_compute.
Defined.

Lemma fix_pivots_ieee_overflow_witness :
  fix_pivots_ieee far_pair_scene
  = Raise OverflowError (selected_only 0 far_pair_scene).
Proof.
  apply (fix_pivots_ieee_overflow far_pair_scene 0 [1%nat] far_object AxisX false);
    [done.. | by vm_compute].
Defined.

