(* ===== verification/Calls.v ===== *)
(** * Calls: the script as the calls it makes on the host

    [call] has one constructor for each call the script makes on the host,
    with the arguments the script passes; [host_answers] gives the type of
    what the host returns and [host_performs] the effect of the call on
    the scene, which is the program of [Scene] for it.  The procedures of
    the script are written once more, as trees of these calls
    ([select_code] to [grid_cut_code]), statement by statement as in the
    source.  [Script] and this file are two readings of the same lines:
    the theorems here show that a tree denotes the procedure of [Script]
    of the same name, so that what is proved of one holds of the other. *)

From S2P Require Import Prelude Triple Code Vector Pivot BoundBox Mesh PolySoup.
From S2P Require Import Scene SceneRules Script.

Local Open Scope code_scope.

Section Calls.
Context {mesh elem : Type} `{!BMeshOps mesh elem}.

(** ** The calls *)

Inductive call : Type :=
| SelectAll                                   (* line 7 *)
| SetActive (ob : nat)                        (* line 8 *)
| SelectSet (ob : nat) (state : bool)         (* line 9 *)
| ReadGeom (bm : nat)                         (* line 13, [geom=] *)
| BisectPlane (bm : nat) (geom : list elem) (plane_co plane_no : Vec)
| SplitEdges (bm : nat) (edges : list elem)   (* line 14 *)
| ModeSet (m : Mode)                          (* lines 17 and 29 *)
| ReadContextObject                           (* lines 18 and 26 *)
| FromEditMesh (ob : nat)                     (* line 18 *)
| UpdateEditMesh (ob : nat)                   (* line 26 *)
| Separate                                    (* line 28 *)
| ReadBoundBox (ob : nat)                     (* line 42 *)
| ReadSelected                                (* line 45 *)
| ReadLocation (ob : nat)                     (* line 50 *)
| WriteLocation (ob : nat) (v : Vec)          (* lines 50 and 52 *)
| TransformApply                              (* lines 51 and 57 *)
| WriteSelected (targets : list nat).         (* line 54 *)

#[export] Instance host_answers : Answers call := fun c =>
  match c with
  | ReadGeom _ | BisectPlane _ _ _ _ => list elem
  | ReadContextObject | FromEditMesh _ => nat
  | ReadBoundBox _ => list Vec
  | ReadSelected => list nat
  | ReadLocation _ => Vec
  | _ => unit
  end.

#[export] Instance host_performs : Performs error (Scene mesh) call := fun c =>
  match c with
  | SelectAll => select_all_deselect
  | SetActive ob => set_active ob
  | SelectSet ob state => select_set ob state
  | ReadGeom bm => bm_read bm bm_geom
  | BisectPlane bm geom co no => bm_bisect_plane bm geom co no
  | SplitEdges bm edges => bm_split_edges bm edges
  | ModeSet m => mode_set m
  | ReadContextObject => context_object
  | FromEditMesh ob => from_edit_mesh ob
  | UpdateEditMesh ob => update_edit_mesh ob
  | Separate => separate_loose
  | ReadBoundBox ob => get_bound_box ob
  | ReadSelected => selected_objects
  | ReadLocation ob => get_location ob
  | WriteLocation ob v => set_location ob v
  | TransformApply => transform_apply
  | WriteSelected targets => set_selected_objects targets
  end.

Abbreviation code := (code call).

(** ** The procedures of the script *)

Definition select_code (ob : nat) : code unit :=
  invoke SelectAll ;;
  invoke (SetActive ob) ;;
  invoke (SelectSet ob true).

Definition perform_cut_code (target : nat) (dir : tuple3) (i : Z) : code unit :=
  geom <- invoke (ReadGeom target) ;;
  ret <- invoke (BisectPlane target geom
                   (vec_of_tuple (plane_co dir i)) (vec_of_tuple dir)) ;;
  invoke (SplitEdges target (List.filter is_edge ret)).

Definition perform_cuts_code (target : nat) (_range : list Z) (dir : tuple3)
    : code unit :=
  cfor _range (perform_cut_code target dir).

Definition cut_code (_range : list Z) : code unit :=
  invoke (ModeSet EDIT) ;;
  ob <- invoke ReadContextObject ;;
  bm <- invoke (FromEditMesh ob) ;;
  perform_cuts_code bm _range (1, 0, 0)%Z ;;
  perform_cuts_code bm _range (0, 1, 0)%Z ;;
  perform_cuts_code bm _range (0, 0, 1)%Z ;;
  ob' <- invoke ReadContextObject ;;
  invoke (UpdateEditMesh ob') ;;
  invoke Separate ;;
  invoke (ModeSet OBJECT).

Definition get_index_code (target : nat) : code Vec :=
  bound_box <- invoke (ReadBoundBox target) ;;
  Ret (floor (get_center bound_box)).

Definition fix_pivot_code (target : nat) : code unit :=
  select_code target ;;
  index <- get_index_code target ;;
  loc <- invoke (ReadLocation target) ;;
  invoke (WriteLocation target (loc - index)%vec) ;;
  invoke TransformApply ;;
  invoke (WriteLocation target index).

Definition fix_pivots_code : code unit :=
  targets <- invoke ReadSelected ;;
  cfor targets fix_pivot_code ;;
  invoke (WriteSelected targets).

Definition grid_cut_code (_range : list Z) : code unit :=
  invoke TransformApply ;;
  cut_code _range ;;
  fix_pivots_code.

(** ** The trees denote the procedures *)

Implicit Types (s : Scene mesh) (r : list Z) (target ob : nat).

Lemma select_code_denote ob s : denote (select_code ob) s = select ob s.
Proof.
  unfold select_code, select. cbn [cbind invoke denote].
  do 2 (apply bind_ext; intros ? ?). apply bind_pure_r.
Qed.

Lemma perform_cuts_code_denote target r dir s :
  denote (perform_cuts_code target r dir) s = perform_cuts target r dir s.
Proof.
  unfold perform_cuts_code, perform_cuts. rewrite denote_cfor.
  apply for_each_ext. intros i s'. unfold perform_cut_code, perform_cut.
  cbn [cbind invoke denote]. do 2 (apply bind_ext; intros ? ?).
  apply bind_pure_r.
Qed.

Lemma cut_code_denote r s : denote (cut_code r) s = cut r s.
Proof.
  unfold cut_code, cut. cbn [cbind invoke denote].
  do 3 (apply bind_ext; intros ? ?).
  do 3 (rewrite denote_cbind;
        apply bind_cong; [apply perform_cuts_code_denote | intros ? ?]).
  cbn [cbind invoke denote]. do 3 (apply bind_ext; intros ? ?).
  apply bind_pure_r.
Qed.

Lemma get_index_code_denote target s :
  denote (get_index_code target) s = get_index target s.
Proof. reflexivity. Qed.

Lemma fix_pivot_code_denote target s :
  denote (fix_pivot_code target) s = fix_pivot target s.
Proof.
  unfold fix_pivot_code, fix_pivot. rewrite denote_cbind.
  apply bind_cong; [apply select_code_denote | intros ? ?].
  cbn [cbind invoke denote get_index_code]. unfold get_index.
  rewrite bind_assoc. apply bind_ext. intros bound_box ?. rewrite bind_pure_l.
  do 3 (apply bind_ext; intros ? ?). apply bind_pure_r.
Qed.

Lemma fix_pivots_code_denote s : denote fix_pivots_code s = fix_pivots s.
Proof.
  unfold fix_pivots_code, fix_pivots. cbn [cbind invoke denote].
  apply bind_ext. intros targets s'. rewrite denote_cbind.
  apply bind_cong; [|intros ? ?; apply bind_pure_r].
  rewrite denote_cfor. apply for_each_ext, fix_pivot_code_denote.
Qed.

Lemma grid_cut_code_run r s : denote (grid_cut_code r) s = grid_cut r s.
Proof.
  unfold grid_cut_code, grid_cut. cbn [cbind invoke denote].
  apply bind_ext. intros ? ?. rewrite denote_cbind.
  apply bind_cong; [apply cut_code_denote | intros; apply fix_pivots_code_denote].
Qed.

(** ** What every call keeps *)

Lemma perform_kept n (c : call) : invariant (kept n) (perform c).
Proof. destruct c; cbn; eauto with grid. Qed.

(** No call removes an object, whatever the scene. *)
Lemma perform_grows n (c : call) :
  invariant (fun s => n <= length (objects s)) (perform c).
Proof.
  intros s Hs. destruct c; cbn;
    unfold select_all_deselect, set_active, select_set, bm_read, bm_bisect_plane,
      bm_split_edges, bm_write, bm_read, mode_set, context_object, from_edit_mesh,
      update_edit_mesh, separate_loose, get_bound_box, get_location, set_location,
      transform_apply, update_object, object_ref, bind, deselect_all;
    repeat case_match; simplify_eq/=;
    rewrite ?length_app, ?length_insert, ?length_fmap; lia.
Qed.

End Calls.
