(* ===== verification/Order.v ===== *)
(** * Order: the calls of the script, in the order it makes them

    The specification describes the script as a fixed sequence of calls
    into the host.  This file writes that sequence down and proves that
    the script follows it.  A [tag] is a call without the handles and the
    data the host returned earlier; [cut_tags], [fix_pivots_tags] and
    [grid_cut_tags] are the sequences for a range and for the targets the
    host reports.  On every path the calls of [grid_cut] are those of
    [grid_cut_tags] from the start, up to and including the call that
    raises; that bounds the number of steps of the machine, gives the fuel
    that is enough for [Machine.run], and, where the script gets through,
    shows that it reaches the assignment of line 54 with its work done. *)

From stdpp Require Import relations.
From S2P Require Import Prelude Triple Code Machine Vector Pivot BoundBox Mesh.
From S2P Require Import PolySoup Scene SceneRules Script Invariants Calls.

(** ** Tags and the sequences of the script *)

Inductive tag : Type :=
| TSelectAll
| TSetActive (ob : nat)
| TSelectSet (ob : nat) (state : bool)
| TReadGeom
| TBisectPlane (plane_co plane_no : Vec)
| TSplitEdges
| TModeSet (m : Mode)
| TReadContextObject
| TFromEditMesh
| TUpdateEditMesh
| TSeparate
| TReadBoundBox (ob : nat)
| TReadSelected
| TReadLocation (ob : nat)
| TWriteLocation (ob : nat)
| TTransformApply
| TWriteSelected (targets : list nat).

Definition tag_of {elem : Type} (c : call (elem := elem)) : tag :=
  match c with
  | SelectAll => TSelectAll
  | SetActive ob => TSetActive ob
  | SelectSet ob state => TSelectSet ob state
  | ReadGeom _ => TReadGeom
  | BisectPlane _ _ co no => TBisectPlane co no
  | SplitEdges _ _ => TSplitEdges
  | ModeSet m => TModeSet m
  | ReadContextObject => TReadContextObject
  | FromEditMesh _ => TFromEditMesh
  | UpdateEditMesh _ => TUpdateEditMesh
  | Separate => TSeparate
  | ReadBoundBox ob => TReadBoundBox ob
  | ReadSelected => TReadSelected
  | ReadLocation ob => TReadLocation ob
  | WriteLocation ob _ => TWriteLocation ob
  | TransformApply => TTransformApply
  | WriteSelected targets => TWriteSelected targets
  end.

(** Lines 13 and 14 for one plane. *)
Definition plane_tags (pl : Vec * Vec) : list tag :=
  [TReadGeom; TBisectPlane pl.1 pl.2; TSplitEdges].

(** Lines 17 to 29. *)
Definition cut_tags (_range : list Z) : list tag :=
  [TModeSet EDIT; TReadContextObject; TFromEditMesh]
    ++ (grid_planes _range ≫= plane_tags)
    ++ [TReadContextObject; TUpdateEditMesh; TSeparate; TModeSet OBJECT].

(** Lines 48 to 52 for one target. *)
Definition fix_pivot_tags (target : nat) : list tag :=
  [TSelectAll; TSetActive target; TSelectSet target true;
   TReadBoundBox target; TReadLocation target; TWriteLocation target;
   TTransformApply; TWriteLocation target].

(** Lines 45 to 54. *)
Definition fix_pivots_tags (targets : list nat) : list tag :=
  TReadSelected :: (targets ≫= fix_pivot_tags) ++ [TWriteSelected targets].

(** Lines 57 to 59. *)
Definition grid_cut_tags (_range : list Z) (targets : list nat) : list tag :=
  TTransformApply :: cut_tags _range ++ fix_pivots_tags targets.

Section Order.
Context {mesh elem : Type} `{!BMeshOps mesh elem}.
Implicit Types (s : Scene mesh) (r : list Z) (target ob bm : nat) (dir : tuple3).

(** The objects selected when [fix_pivots] starts in [grid_cut]: the
    targets of its loop. *)
Definition targets_after_cut (r : list Z) (s : Scene mesh) : list nat :=
  selected_ids (objects (final_state (bind transform_apply (fun _ => cut r) s))).

Abbreviation follows := (follows (tag_of (elem := elem))).

(** ** Each procedure follows its sequence *)

Lemma follows_select ob s :
  follows [TSelectAll; TSetActive ob; TSelectSet ob true] (select_code ob) s.
Proof.
  unfold select_code. follow_calls.
Qed.

Lemma follows_perform_cuts bm r dir s :
  follows (planes dir r ≫= plane_tags) (perform_cuts_code bm r dir) s.
Proof.
  unfold planes. rewrite list_fmap_bind.
  apply follows_cfor. intros i s' _.
  unfold perform_cut_code, compose, plane_tags. cbn [fst snd]. follow_calls.
Qed.

Lemma follows_cut r s : follows (cut_tags r) (cut_code r) s.
Proof.
  unfold cut_tags, grid_planes. rewrite !bind_app, <- !app_assoc.
  unfold cut_code. follow_calls.
  do 3 (apply follows_cbind; [apply follows_perform_cuts | intros]).
  follow_calls.
Qed.

Lemma follows_fix_pivot target s :
  follows (fix_pivot_tags target) (fix_pivot_code target) s.
Proof. unfold fix_pivot_code, select_code, get_index_code. follow_calls. Qed.

Lemma follows_fix_pivots s :
  follows (fix_pivots_tags (selected_ids (objects s))) fix_pivots_code s.
Proof.
  unfold fix_pivots_code. cbn [cbind invoke].
  apply follows_call. intros targets s' [= <- <-].
  apply follows_cbind; [|intros; follow_calls].
  apply follows_cfor. intros. apply follows_fix_pivot.
Qed.

Lemma follows_grid_cut r s :
  follows (grid_cut_tags r (targets_after_cut r s)) (grid_cut_code r) s.
Proof.
  unfold grid_cut_code. cbn [cbind invoke].
  apply follows_call. intros [] s1 H1.
  apply follows_cbind; [apply follows_cut|]. intros [] s2 H2.
  rewrite cut_code_denote in H2. unfold targets_after_cut, bind.
  change (transform_apply s) with (perform TransformApply s).
  rewrite H1, H2. apply follows_fix_pivots.
Qed.

(** ** The length of the sequences *)

Lemma length_planes_tags (pls : list (Vec * Vec)) :
  length (pls ≫= plane_tags) = 3 * length pls.
Proof.
  induction pls as [|pl pls IH]; [done|]. rewrite bind_cons, length_app, IH.
  cbn. lia.
Qed.

Lemma length_fix_pivot_loop_tags (targets : list nat) :
  length (targets ≫= fix_pivot_tags) = 8 * length targets.
Proof.
  induction targets as [|t ts IH]; [done|]. rewrite bind_cons, length_app, IH.
  cbn. lia.
Qed.

Lemma length_grid_cut_tags r (targets : list nat) :
  length (grid_cut_tags r targets) = 10 + 9 * length r + 8 * length targets.
Proof.
  unfold grid_cut_tags, cut_tags, fix_pivots_tags, grid_planes, planes.
  repeat (progress cbn [length] || rewrite length_app || rewrite length_fmap
          || rewrite length_planes_tags || rewrite length_fix_pivot_loop_tags).
  lia.
Qed.

Lemma length_selected_ids (os : list (Object mesh)) :
  length (selected_ids os) <= length os.
Proof.
  unfold selected_ids. etrans; [apply List.filter_length_le|].
  by rewrite length_seq.
Qed.

(** The targets of [fix_pivots] are objects of the scene [grid_cut]
    leaves. *)
Lemma length_targets_after_cut r s :
  length (targets_after_cut r s) <= length (objects (final_state (grid_cut r s))).
Proof.
  unfold targets_after_cut. etrans; [apply length_selected_ids|].
  unfold grid_cut.
  rewrite <- (bind_assoc transform_apply (fun _ => cut r) (fun _ => fix_pivots)).
  destruct (bind transform_apply _ s) as [[] s2|e s2] eqn:H;
    [|by rewrite (bind_raise _ _ _ _ _ H)].
  rewrite (bind_done _ _ _ _ _ H). cbn [final_state].
  rewrite <- fix_pivots_code_denote.
  apply (invariant_final (fun s => length (objects s2) <= length (objects s))
           (denote fix_pivots_code) s2); [|done].
  apply denote_invariant, perform_grows.
Qed.

(** The number of calls of [grid_cut]. *)
Lemma grid_cut_calls_bound r s :
  length (trace (grid_cut_code r) s)
  <= 10 + 9 * length r + 8 * length (objects (final_state (grid_cut r s))).
Proof.
  etrans; [apply (follows_length tag_of), follows_grid_cut|].
  rewrite length_grid_cut_tags. pose proof (length_targets_after_cut r s). lia.
Qed.

(** ** The run to the assignment of line 54 *)

(** The parts of [grid_cut] on a scene in object mode whose active object
    is a selected mesh: each returns, and the last leaves the scene of
    [grid_cut]. *)
Lemma grid_cut_parts s ob o m r :
  mode s = OBJECT -> active s = Some ob -> objects s !! ob = Some o ->
  selected o = true -> data o = Some m ->
  exists s1 s2,
    transform_apply s = Done tt s1 /\ cut r s1 = Done tt s2 /\
    objects s2 = cut_stage r ob o m s /\
    for_each (selected_ids (objects s2)) fix_pivot s2
    = Done tt (final_state (grid_cut r s)).
Proof.
  intros Hm Ha Ho Hsel Hd.
  assert (H1 : transform_apply s
               = Done tt (with_objects s (apply_if_selected <$> objects s)))
    by (apply transform_apply_run; [done|by eapply existsb_selected_lookup]).
  eexists _, _. split; [exact H1|].
  assert (H2 : cut r (with_objects s (apply_if_selected <$> objects s))
               = Done tt (mkScene (cut_stage r ob o m s) (Some ob) OBJECT)).
  { refine (cut_run (with_objects s _) ob (apply_transform o)
              (transform (world_of o) m) r _ _ _); [done| |].
    - cbn [objects with_objects]. rewrite list_lookup_fmap, Ho. cbn.
      unfold apply_if_selected. by rewrite Hsel.
    - unfold apply_transform. by rewrite Hd. }
  split; [exact H2|]. split; [done|]. cbn [objects].
  destruct (fix_pivot_loop (selected_ids (cut_stage r ob o m s))
              (mkScene (cut_stage r ob o m s) (Some ob) OBJECT))
    as (s3 & H3 & _); [apply NoDup_selected_ids | done | |].
  { intros t (x & Hx & _)%elem_of_selected_ids. by eapply lookup_lt_Some. }
  rewrite H3. unfold grid_cut, fix_pivots, selected_objects.
  rewrite (bind_done _ _ _ _ _ H1), (bind_done _ _ _ _ _ H2).
  unfold bind. cbn [objects]. by rewrite H3.
Qed.

Lemma grid_cut_to_assignment s ob o m r :
  mode s = OBJECT -> active s = Some ob -> objects s !! ob = Some o ->
  selected o = true -> data o = Some m ->
  let targets := selected_ids (cut_stage r ob o m s) in
  exists t,
    rtc step (start (grid_cut_code r) s)
      (Config (Run (invoke (WriteSelected targets)))
              (final_state (grid_cut r s)) t) /\
    tag_of <$> t ++ [WriteSelected targets] = grid_cut_tags r targets.
Proof.
  intros Hm Ha Ho Hsel Hd targets.
  destruct (grid_cut_parts s ob o m r) as (s1 & s2 & H1 & H2 & Hs2 & H3); [done..|].
  rewrite <- cut_code_denote in H2.
  rewrite <- (for_each_ext _ _ _ _ fix_pivot_code_denote), <- denote_cfor in H3.
  fold targets in H3. rewrite Hs2 in H3. fold targets in H3.
  eexists. split.
  - unfold grid_cut_code, start.
    etrans; [eapply rtc_nsteps_2, (steps_cbind (invoke TransformApply));
             by rewrite denote_invoke|].
    etrans; [by eapply rtc_nsteps_2, (steps_cbind (cut_code r))|].
    unfold fix_pivots_code.
    etrans; [by eapply rtc_nsteps_2, (steps_cbind (invoke ReadSelected))|].
    cbn beta. rewrite Hs2. fold targets.
    by eapply rtc_nsteps_2, (steps_cbind (cfor targets fix_pivot_code)
                               (fun _ => invoke (WriteSelected targets))).
  - rewrite !fmap_app. cbn [app].
    rewrite (follows_done _ _ _ _ _ _ (follows_cut r s1) H2).
    rewrite (follows_done _ _ _ _ _ _
               (follows_cfor tag_of targets fix_pivot_code fix_pivot_tags s2
                  (fun a s' _ => follows_fix_pivot a s')) H3).
    rewrite !trace_invoke. unfold grid_cut_tags, fix_pivots_tags. cbn.
    by rewrite <- !app_assoc.
Qed.

End Order.

(** ** The runs of [grid_cut] *)

Section Runs.
Context {mesh elem : Type} `{!BMeshOps mesh elem}.
Implicit Types (s : Scene mesh) (r : list Z) (o : Object mesh) (m : mesh)
  (ob n fuel : nat)
  (cf : config (call := call (elem := elem)) error (Scene mesh) unit).


(** C15. [grid_cut] terminates: no run of the machine has more steps than
    ten, nine for every offset of the range and eight for every object of
    the scene it leaves, and [run] with that much fuel returns the outcome
    of [grid_cut]. *)
Theorem grid_cut_terminates r s fuel :
  10 + 9 * length r + 8 * length (objects (final_state (grid_cut r s))) <= fuel ->
  (forall n cf, nsteps step n (start (grid_cut_code r) s) cf -> n <= fuel) /\
  run fuel (start (grid_cut_code r) s)
  = stop (grid_cut r s) (trace (grid_cut_code r) s).
Proof.
  intros Hfuel. pose proof (grid_cut_calls_bound r s) as Hcalls.
  rewrite <- grid_cut_code_run. split; [|apply run_enough; lia].
  intros n cf Hn.
  pose proof (nsteps_longest _ _ _ _ _ (steps_denote (grid_cut_code r) s [])
                (stop_nf _ _) Hn). lia.
Qed.

(** C17. The calls of [grid_cut] come in the order of [grid_cut_tags]: at
    every configuration of a run the calls made so far are the first ones
    of the sequence for the range and the targets of [fix_pivots]. *)
Theorem grid_cut_call_order r s cf :
  rtc step (start (grid_cut_code r) s) cf ->
  tag_of <$> log cf `prefix_of` grid_cut_tags r (targets_after_cut r s).
Proof.
  intros Hcf%steps_log_prefix. etrans; [by apply fmap_prefix|].
  apply follows_grid_cut.
Qed.

(** C16. On a scene in object mode whose active object is a selected mesh,
    every run of [grid_cut] comes to the assignment of line 54: all the
    calls before it have been made and have returned, and the scene is the
    one [grid_cut] leaves. *)
Theorem grid_cut_reaches_assignment s ob o m r :
  mode s = OBJECT -> active s = Some ob -> objects s !! ob = Some o ->
  selected o = true -> data o = Some m ->
  let targets := selected_ids (cut_stage r ob o m s) in
  eventually (fun cf =>
      thread_of cf = Run (invoke (WriteSelected targets)) /\
      state_of cf = final_state (grid_cut r s) /\
      tag_of <$> log cf ++ [WriteSelected targets] = grid_cut_tags r targets)
    (start (grid_cut_code r) s).
Proof.
  intros Hm Ha Ho Hsel Hd targets.
  destruct (grid_cut_to_assignment s ob o m r) as (t & Hrun & Ht); [done..|].
  by eapply eventually_rtc.
Qed.


End Runs.

Lemma grid_cut_terminates_witness :
  (forall n cf, nsteps step n (start (grid_cut_code [12; 13; 14]%Z) strip_scene) cf ->
                n <= 200) /\
  run 200 (start (grid_cut_code [12; 13; 14]%Z) strip_scene)
  = stop (grid_cut [12; 13; 14]%Z strip_scene)
         (trace (grid_cut_code [12; 13; 14]%Z) strip_scene).
Proof. apply grid_cut_terminates. vm_compute. lia. Defined.

Lemma grid_cut_call_order_witness :
  tag_of <$> log (run 30 (start (grid_cut_code [12; 13; 14]%Z) strip_scene))
  `prefix_of` grid_cut_tags [12; 13; 14]%Z
                (targets_after_cut [12; 13; 14]%Z strip_scene).
Proof. apply grid_cut_call_order, run_rtc. Defined.

Lemma grid_cut_reaches_assignment_witness :
  let targets := selected_ids (cut_stage [12; 13; 14]%Z 0 strip_object strip strip_scene) in
  eventually (fun cf =>
      thread_of cf = Run (invoke (WriteSelected targets)) /\
      state_of cf = final_state (grid_cut [12; 13; 14]%Z strip_scene) /\
      tag_of <$> log cf ++ [WriteSelected targets]
      = grid_cut_tags [12; 13; 14]%Z targets)
    (start (grid_cut_code [12; 13; 14]%Z) strip_scene).
Proof. by apply (grid_cut_reaches_assignment strip_scene 0 strip_object strip). Defined.

