(* ===== verification/Modes.v ===== *)
(** * Modes: every call in the mode it needs

    The host is in object mode or in edit mode, and some of its calls work
    in one of them only: the operators on objects need object mode, and a
    [bmesh] obtained by [from_edit_mesh] is valid, like [separate], as long
    as its object is under edit.  [needs] records that.  Started in object
    mode, [grid_cut] makes every call in the mode the call needs, on every
    path; the modes are carried through the procedures by the rules of
    [Code.calls_ok]. *)

From stdpp Require Import relations.
From S2P Require Import Prelude Triple Code Machine Vector Pivot BoundBox Mesh.
From S2P Require Import PolySoup Scene SceneRules Script Calls.

Section Modes.
Context {mesh elem : Type} `{!BMeshOps mesh elem}.
Implicit Types (s : Scene mesh) (r : list Z) (c : call (elem := elem)) (M : Mode).

(** The mode a call needs, if it needs one. *)
Definition needs (c : call (elem := elem)) : option Mode :=
  match c with
  | SelectAll | TransformApply => Some OBJECT
  | FromEditMesh _ | ReadGeom _ | BisectPlane _ _ _ _ | SplitEdges _ _
  | UpdateEditMesh _ | Separate => Some EDIT
  | _ => None
  end.

Definition in_mode (c : call (elem := elem)) (s : Scene mesh) : Prop :=
  forall m, needs c = Some m -> mode s = m.

(** The mode after a call that returned in mode [M]. *)
Definition mode_after (c : call (elem := elem)) (M : Mode) : Mode :=
  match c with
  | ModeSet m => m
  | _ => M
  end.

Lemma perform_mode c s x s' :
  perform c s = Done x s' -> mode s' = mode_after c (mode s).
Proof.
  destruct c; cbn;
    unfold select_all_deselect, set_active, select_set, bm_read, bm_bisect_plane,
      bm_split_edges, bm_write, bm_read, mode_set, context_object, from_edit_mesh,
      update_edit_mesh, separate_loose, get_bound_box, get_location, set_location,
      transform_apply, update_object, object_ref, selected_objects,
      set_selected_objects, bind, pure, throw;
    repeat case_match; by intros; simplify_eq/=.
Qed.

Abbreviation calls_ok := (calls_ok in_mode).
Abbreviation at_mode M := (fun s : Scene mesh => mode s = M).

(** One call in a known mode. *)
Lemma mode_call {A} M c (k : answer c -> code call A) (Q : A -> Scene mesh -> Prop) :
  (forall m, needs c = Some m -> M = m) ->
  (forall x, calls_ok (at_mode (mode_after c M)) (k x) Q) ->
  calls_ok (at_mode M) (Call c k) Q.
Proof.
  intros Hc Hk. apply calls_ok_call with (R := fun _ => at_mode (mode_after c M)).
  - intros s <- m Hm. by apply Hc.
  - intros s x s' <- Hx. by apply perform_mode in Hx.
  - done.
Qed.

End Modes.

(** [mode_calls] goes through the calls at the head of a program whose
    mode is known. *)
Ltac mode_calls :=
  repeat (cbn [cbind invoke];
          lazymatch goal with
          | |- Code.calls_ok _ _ (Call ?c ?k) _ =>
              refine (mode_call _ c k _ _ _);
              [by intros ? [= <-] || by intros ? [=] | intros ?; cbn [mode_after]]
          | |- Code.calls_ok _ _ (invoke ?c) _ => unfold invoke
          | |- Code.calls_ok _ _ (Ret _) _ => by apply calls_ok_ret
          end).

Section Script.
Context {mesh elem : Type} `{!BMeshOps mesh elem}.
Implicit Types (s : Scene mesh) (r : list Z) (c : call (elem := elem)) (M : Mode).

Abbreviation calls_ok := (calls_ok (in_mode (mesh := mesh))).
Abbreviation at_mode M := (fun s : Scene mesh => mode s = M).

Lemma modes_select ob :
  calls_ok (at_mode OBJECT) (select_code ob) (fun _ => at_mode OBJECT).
Proof. unfold select_code. mode_calls. Qed.

Lemma modes_perform_cuts bm r dir :
  calls_ok (at_mode EDIT) (perform_cuts_code bm r dir) (fun _ => at_mode EDIT).
Proof.
  apply calls_ok_cfor. intros i _. unfold perform_cut_code. mode_calls.
Qed.

Lemma modes_cut r M : calls_ok (at_mode M) (cut_code r) (fun _ => at_mode OBJECT).
Proof.
  unfold cut_code. mode_calls.
  do 3 (eapply calls_ok_cbind; [apply modes_perform_cuts | intros ?]).
  mode_calls.
Qed.

Lemma modes_fix_pivot target :
  calls_ok (at_mode OBJECT) (fix_pivot_code target) (fun _ => at_mode OBJECT).
Proof. unfold fix_pivot_code, select_code, get_index_code. mode_calls. Qed.

Lemma modes_fix_pivots :
  calls_ok (at_mode OBJECT) fix_pivots_code (fun _ => at_mode OBJECT).
Proof.
  unfold fix_pivots_code. mode_calls.
  eapply calls_ok_cbind; [|intros ?; mode_calls].
  apply calls_ok_cfor. intros. apply modes_fix_pivot.
Qed.

Lemma modes_grid_cut r :
  calls_ok (at_mode OBJECT) (grid_cut_code r) (fun _ => at_mode OBJECT).
Proof.
  unfold grid_cut_code. mode_calls.
  eapply calls_ok_cbind; [apply modes_cut | intros ?; apply modes_fix_pivots].
Qed.

(** C18. Started in object mode, [grid_cut] makes every call in the mode
    the call needs, on every path: whenever the machine is about to make a
    call that works in one mode only, the host is in that mode. *)
Theorem grid_cut_modes r s cf c m :
  mode s = OBJECT -> rtc step (start (grid_cut_code r) s) cf ->
  next_call cf = Some c -> needs c = Some m -> mode (state_of cf) = m.
Proof.
  intros Hs Hrun Hc.
  by apply (reachable_call_ok in_mode _ _ _ _ _ _ (modes_grid_cut r) Hs Hrun Hc).
Qed.

End Script.

Lemma grid_cut_modes_witness :
  mode (state_of (run 15 (start (grid_cut_code [12]%Z) strip_scene))) = EDIT.
Proof.
  by apply (grid_cut_modes [12]%Z strip_scene _ Separate); [|apply run_rtc|..].
Defined.
